(** * atticlab-js-base: operations, amounts, accounts and mnemonic phrases

    A shallow embedding of [src/operation.js], [src/account.js],
    [src/mnemonic.js] and [lib/util/mnemonic.js] together with the parts of
    the JavaScript run time and of the bignumber.js library they call,
    followed by the properties of the builders, of the amount codec, of the
    account object and of the phrases.

    Conventions of the embedding.
    - A JavaScript string is a [string]; every character stands for one
      UTF-16 code unit in the range U+0000..U+00FF, so [String.length] is the
      JavaScript [length] and the UTF-8 encoding of a string has one or two
      bytes per character.
    - A thrown exception is the [Throw] case of [Result]; the message is the
      one of the source.
    - A JavaScript number is a dyadic rational, an infinity or NaN.  The sign
      of zero is not represented: no code below tells [-0] from [0]. *)

From Stdlib Require Import ZArith NArith List String Ascii Bool Lia QArith.
From Stdlib.Strings Require Import Byte.
Import ListNotations.

#[local] Open Scope string_scope.
#[local] Open Scope Z_scope.

(** ** Exceptions *)

Inductive Result (A : Type) : Type :=
| Ok (a : A)
| Throw (msg : string).

Arguments Ok {A} a.
Arguments Throw {A} msg.

Definition bind {A B : Type} (r : Result A) (k : A -> Result B) : Result B :=
  match r with
  | Ok a => k a
  | Throw msg => Throw msg
  end.

Notation "'let*' x ':=' r 'in' k" := (bind r (fun x => k))
  (at level 10, x name, r at level 100, k at level 200).

(** [guard b msg]: [if (!b) throw new Error(msg)]. *)
Definition guard (b : bool) (msg : string) : Result unit :=
  if b then Ok tt else Throw msg.

Definition succeeds {A : Type} (r : Result A) : Prop := exists a, r = Ok a.
Definition fails {A : Type} (r : Result A) : Prop := exists msg, r = Throw msg.

(** ** Decimal digits *)

Module Digits.

(** The decimal digits of [n], least significant first; none for [n <= 0].
    The fuel bounds the number of digits. *)
Fixpoint le_digits (fuel : nat) (n : Z) : list Z :=
  match fuel with
  | O => []
  | S f => if n <=? 0 then [] else (n mod 10) :: le_digits f (n / 10)
  end.

Definition fuel_for (n : Z) : nat := S (Z.to_nat (Z.log2 n)).

(** Most significant digit first. *)
Definition digits_of (n : Z) : list Z := rev (le_digits (fuel_for n) n).

Definition of_digits (ds : list Z) : Z :=
  fold_left (fun acc d => 10 * acc + d) ds 0.

Definition digit_to_ascii (d : Z) : ascii := ascii_of_N (Z.to_N (48 + d)).

Definition digit_of_ascii (c : ascii) : option Z :=
  let n := Z.of_N (N_of_ascii c) in
  if (48 <=? n) && (n <=? 57) then Some (n - 48) else None.

Definition digits_to_string (ds : list Z) : string :=
  string_of_list_ascii (map digit_to_ascii ds).

(** Decimal rendering of a non-negative integer. *)
Definition nat_to_string (n : Z) : string :=
  if n <=? 0 then "0" else digits_to_string (digits_of n).

(** Decimal rendering of an integer, as [Number.prototype.toString] and
    [Long.prototype.toString] give it for integers. *)
Definition Z_to_string (n : Z) : string :=
  if n <? 0 then String "-" (nat_to_string (- n)) else nat_to_string n.

(** The longest run of decimal digits at the head of [s] and what follows
    it. *)
Fixpoint span_digits (s : string) : list Z * string :=
  match s with
  | EmptyString => ([], EmptyString)
  | String c rest =>
      match digit_of_ascii c with
      | Some d => let '(ds, r) := span_digits rest in (d :: ds, r)
      | None => ([], s)
      end
  end.

(** The digits after a decimal point at the head of [s], if there is one,
    and what follows them. *)
Definition fraction_part (s : string) : list Z * string :=
  match s with
  | String "." r => span_digits r
  | _ => ([], s)
  end.

Definition zeros (n : Z) : string :=
  string_of_list_ascii (repeat "0"%char (Z.to_nat n)).

End Digits.

(** ** bignumber.js

    The arbitrary-precision decimal of the bignumber.js library (the 4.x
    line, whose [mul], [add], [div] and [greaterThan] the source calls),
    with the default configuration: [DECIMAL_PLACES = 20],
    [ROUNDING_MODE = ROUND_HALF_UP], [EXPONENTIAL_AT = [-7, 20]],
    [RANGE = 1e9], [ERRORS = true].

    A finite value keeps the library's sign [s], the integer written by its
    coefficient digits [c] (no trailing zero) and the exponent of the last of
    those digits; the library's own exponent field, the exponent of the first
    digit, is [exponent].  The constructor is modelled on strings in decimal
    notation, [Infinity] and [NaN]; the prefixed literals ([0x], [0o], [0b])
    and the surrounding white space the library also reads are not. *)

Module BigNumber.

Inductive t : Type :=
| bnNaN
| bnInfinity (neg : bool)
| bnFinite (neg : bool) (c : Z) (e : Z).

Definition MAX_EXP : Z := 1000000000.
Definition MIN_EXP : Z := -1000000000.
Definition DECIMAL_PLACES : Z := 20.
Definition TO_EXP_NEG : Z := -7.
Definition TO_EXP_POS : Z := 21.

(** Number of decimal digits of a positive integer. *)
Definition ndigits (c : Z) : Z := Z.of_nat (List.length (Digits.digits_of c)).

(** Removes the trailing zeros of the coefficient. *)
Fixpoint strip_zeros (fuel : nat) (c e : Z) : Z * Z :=
  match fuel with
  | O => (c, e)
  | S f =>
      if (0 <? c) && (c mod 10 =? 0) then strip_zeros f (c / 10) (e + 1)
      else (c, e)
  end.

(** The library's [normalise]: trailing zeros removed, overflow to
    infinity and underflow to zero at the limits of the exponent range. *)
Definition normalise (neg : bool) (c e : Z) : t :=
  if c <=? 0 then bnFinite neg 0 0
  else
    let '(c', e') := strip_zeros (Digits.fuel_for c) c e in
    let e1 := e' + ndigits c' - 1 in
    if MAX_EXP <? e1 then bnInfinity neg
    else if e1 <? MIN_EXP then bnFinite neg 0 0
    else bnFinite neg c' e'.

Definition of_Z (n : Z) : t := normalise (n <? 0) (Z.abs n) 0.

(** *** The constructor, on strings *)

Definition parse_sign (s : string) : bool * string :=
  match s with
  | String "-" r => (true, r)
  | _ => (false, s)
  end.

(** The exponent part, [e] or [E], an optional sign and digits: [None] when
    what follows the mantissa is neither empty nor an exponent that ends
    the string. *)
Definition parse_exponent (s : string) : option Z :=
  match s with
  | EmptyString => Some 0
  | String c r =>
      if (c =? "e")%char || (c =? "E")%char then
        let '(sgn, r1) :=
          match r with
          | String "+" r' => (1, r')
          | String "-" r' => (-1, r')
          | _ => (1, r)
          end in
        match Digits.span_digits r1 with
        | (d :: ds, EmptyString) => Some (sgn * Digits.of_digits (d :: ds))
        | _ => None
        end
      else None
  end.

(** [new BigNumber(s)]: [None] is the library's "not a number" exception.
    The numeric form of the library: an optional minus sign; digits, then
    optionally a point and maybe more digits, or a point and digits; then
    optionally an exponent. *)
Definition of_string (s : string) : option t :=
  let '(neg, s1) := parse_sign s in
  if (s1 =? "Infinity")%string then Some (bnInfinity neg)
  else if (s1 =? "NaN")%string then Some bnNaN
  else
    let '(ip, s2) := Digits.span_digits s1 in
    let '(fp, s3) := Digits.fraction_part s2 in
    match ip, fp with
    | [], [] => None
    | _, _ =>
        match parse_exponent s3 with
        | Some ex =>
            Some (normalise neg (Digits.of_digits (ip ++ fp)%list)
                            (ex - Z.of_nat (List.length fp)))
        | None => None
        end
    end.

(** *** Predicates *)

Definition isZero (x : t) : bool :=
  match x with bnFinite _ c _ => c =? 0 | _ => false end.

(** The sign field is negative; true of [-0]. *)
Definition isNegative (x : t) : bool :=
  match x with
  | bnFinite neg _ _ | bnInfinity neg => neg
  | bnNaN => false
  end.

Definition isFinite (x : t) : bool :=
  match x with bnFinite _ _ _ => true | _ => false end.

Definition isNaN (x : t) : bool :=
  match x with bnNaN => true | _ => false end.

(** [null] for NaN and the infinities. *)
Definition decimalPlaces (x : t) : option Z :=
  match x with
  | bnFinite _ _ e => Some (Z.max 0 (- e))
  | _ => None
  end.

(** The library's exponent field of a finite non-zero value. *)
Definition exponent (c e : Z) : Z := e + ndigits c - 1.

(** *** Arithmetic *)

Definition times (x y : t) : t :=
  match x, y with
  | bnNaN, _ | _, bnNaN => bnNaN
  | bnInfinity a, bnInfinity b => bnInfinity (xorb a b)
  | bnInfinity a, bnFinite b c _ | bnFinite a c _, bnInfinity b =>
      if c =? 0 then bnNaN else bnInfinity (xorb a b)
  | bnFinite a c1 e1, bnFinite b c2 e2 =>
      if (c1 =? 0) || (c2 =? 0) then bnFinite (xorb a b) 0 0
      else normalise (xorb a b) (c1 * c2) (e1 + e2)
  end.

Definition signed (neg : bool) (c : Z) : Z := if neg then - c else c.

(** The two coefficients brought to the smaller exponent, with their
    signs. *)
Definition align (a : bool) (c1 e1 : Z) (b : bool) (c2 e2 : Z) : Z * Z * Z :=
  let e := Z.min e1 e2 in
  (signed a (c1 * 10 ^ (e1 - e)), signed b (c2 * 10 ^ (e2 - e)), e).

Definition plus (x y : t) : t :=
  match x, y with
  | bnNaN, _ | _, bnNaN => bnNaN
  | bnInfinity a, bnInfinity b => if Bool.eqb a b then bnInfinity a else bnNaN
  | bnInfinity a, bnFinite _ _ _ => bnInfinity a
  | bnFinite _ _ _, bnInfinity b => bnInfinity b
  | bnFinite a c1 e1, bnFinite b c2 e2 =>
      let '(u, v, e) := align a c1 e1 b c2 e2 in
      let s := u + v in
      if s =? 0 then bnFinite (a && b) 0 0
      else normalise (s <? 0) (Z.abs s) e
  end.

(** [compare(x, y)]: [None] when either is NaN; the two zeros are
    equal. *)
Definition compare (x y : t) : option comparison :=
  match x, y with
  | bnNaN, _ | _, bnNaN => None
  | bnInfinity a, bnInfinity b =>
      Some (if Bool.eqb a b then Eq else if a then Lt else Gt)
  | bnInfinity a, bnFinite _ _ _ => Some (if a then Lt else Gt)
  | bnFinite _ _ _, bnInfinity b => Some (if b then Gt else Lt)
  | bnFinite a c1 e1, bnFinite b c2 e2 =>
      let '(u, v, _) := align a c1 e1 b c2 e2 in Some (u ?= v)
  end.

Definition greaterThan (x y : t) : bool :=
  match compare x y with Some Gt => true | _ => false end.

(** Division, rounded half up to [DECIMAL_PLACES] decimal places. *)
Definition div (x y : t) : t :=
  match x, y with
  | bnNaN, _ | _, bnNaN => bnNaN
  | bnInfinity _, bnInfinity _ => bnNaN
  | bnInfinity a, bnFinite b _ _ => bnInfinity (xorb a b)
  | bnFinite a _ _, bnInfinity b => bnFinite (xorb a b) 0 0
  | bnFinite a c1 e1, bnFinite b c2 e2 =>
      if c2 =? 0 then (if c1 =? 0 then bnNaN else bnInfinity (xorb a b))
      else if c1 =? 0 then bnFinite (xorb a b) 0 0
      else
        let k := e1 - e2 + DECIMAL_PLACES in
        let num := if 0 <=? k then c1 * 10 ^ k else c1 in
        let den := if 0 <=? k then c2 else c2 * 10 ^ (- k) in
        normalise (xorb a b) ((2 * num + den) / (2 * den)) (- DECIMAL_PLACES)
  end.

(** *** Rendering *)

Definition toExponential (str : string) (e : Z) : string :=
  let mant :=
    match str with
    | String d (String _ _ as rest) => String d (String "." rest)
    | _ => str
    end in
  mant ++ (if e <? 0 then "e" else "e+") ++ Digits.Z_to_string e.

Definition toFixedPoint (str : string) (e : Z) : string :=
  if e <? 0 then "0." ++ Digits.zeros (- e - 1) ++ str
  else
    let len := Z.of_nat (String.length str) in
    if len <? e + 1 then str ++ Digits.zeros (e + 1 - len)
    else if e + 1 <? len then
      substring 0 (Z.to_nat (e + 1)) str ++ "." ++
      substring (Z.to_nat (e + 1)) (Z.to_nat (len - (e + 1))) str
    else str.

Definition toString (x : t) : string :=
  match x with
  | bnNaN => "NaN"
  | bnInfinity neg => if neg then "-Infinity" else "Infinity"
  | bnFinite neg c e =>
      if c <=? 0 then "0"
      else
        let str := Digits.digits_to_string (Digits.digits_of c) in
        let e1 := exponent c e in
        let body :=
          if (e1 <=? TO_EXP_NEG) || (TO_EXP_POS <=? e1)
          then toExponential str e1 else toFixedPoint str e1 in
        if neg then String "-" body else body
  end.

(** *** Meaning *)

(** The rational a finite value stands for. *)
Definition scaled (c e : Z) : Q :=
  if 0 <=? e then inject_Z (c * 10 ^ e) else Qmake c (Z.to_pos (10 ^ (- e))).

Definition value (x : t) : option Q :=
  match x with
  | bnFinite neg c e => Some (scaled (signed neg c) e)
  | _ => None
  end.

(** The invariant of the values the library builds. *)
Definition wf (x : t) : Prop :=
  match x with
  | bnFinite _ c e =>
      (c = 0 /\ e = 0) \/
      (0 < c /\ c mod 10 <> 0 /\ MIN_EXP <= exponent c e <= MAX_EXP)
  | _ => True
  end.

End BigNumber.

(** ** JavaScript numbers *)

Module Number.

(** A double: an integer, or [m / 2^k] with [m] odd, or an infinity, or
    NaN.  [Frac] is never an integer. *)
Inductive t : Type :=
| NaN
| Infinity (neg : bool)
| Int (z : Z)
| Frac (m : Z) (k : positive).

Definition isNaN (n : t) : bool :=
  match n with NaN => true | _ => false end.

(** The global [isFinite] on a number. *)
Definition isFinite (n : t) : bool :=
  match n with Int _ | Frac _ _ => true | _ => false end.

(** [n % 1 === 0] *)
Definition mod1_is_zero (n : t) : bool :=
  match n with Int _ => true | _ => false end.

(** [n < k], [n <= k], [n >= k] and [n === k] for an integer [k]; all
    false on NaN. *)
Definition ltZ (n : t) (k : Z) : bool :=
  match n with
  | NaN => false
  | Infinity neg => neg
  | Int z => z <? k
  | Frac m p => m <? k * 2 ^ Z.pos p
  end.

Definition leZ (n : t) (k : Z) : bool :=
  match n with
  | NaN => false
  | Infinity neg => neg
  | Int z => z <=? k
  | Frac m p => m <=? k * 2 ^ Z.pos p
  end.

Definition geZ (n : t) (k : Z) : bool :=
  match n with
  | NaN => false
  | Infinity neg => negb neg
  | Int z => k <=? z
  | Frac m p => k * 2 ^ Z.pos p <=? m
  end.

Definition eqZ (n : t) (k : Z) : bool :=
  match n with Int z => z =? k | _ => false end.

(** *** Rounding a decimal to the nearest double *)

(** [n / d] rounded to the nearest integer, ties to even;
    [0 <= n], [0 < d]. *)
Definition div_nearest_even (n d : Z) : Z :=
  let q := n / d in
  let r := n mod d in
  if 2 * r <? d then q
  else if d <? 2 * r then q + 1
  else if Z.even q then q else q + 1.

(** [m / 2^k] in lowest terms. *)
Fixpoint reduce (m : Z) (k : nat) : t :=
  match k with
  | O => Int m
  | S k' => if Z.even m then reduce (m / 2) k' else Frac m (Pos.of_nat k)
  end.

Definition signed (neg : bool) (m : Z) : Z := if neg then - m else m.

(** The double nearest to [n / d], for [0 < n] and [0 < d]: a 53-bit
    significand, exponents from [-1074] to [971]. *)
Definition of_ratio (neg : bool) (n d : Z) : t :=
  let l0 := Z.log2 n - Z.log2 d in
  let below := if 0 <=? l0 then n <? d * 2 ^ l0 else n * 2 ^ (- l0) <? d in
  let l := if below then l0 - 1 else l0 in
  let e := Z.max (l - 52) (-1074) in
  let m :=
    if 0 <=? e then div_nearest_even n (d * 2 ^ e)
    else div_nearest_even (n * 2 ^ (- e)) d in
  if (971 <? e) || ((e =? 971) && (m =? 2 ^ 53)) then Infinity neg
  else if 0 <=? e then Int (signed neg (m * 2 ^ e))
  else reduce (signed neg m) (Z.to_nat (- e)).

(** The double nearest to [c * 10^k], for [0 <= c]. *)
Definition of_decimal (neg : bool) (c k : Z) : t :=
  if c <=? 0 then Int 0
  else if 0 <=? k then of_ratio neg (c * 10 ^ k) 1
  else of_ratio neg c (10 ^ (- k)).

(** *** [parseFloat] on a string *)

(** White space and line terminators, among U+0000..U+00FF. *)
Definition is_whitespace (c : ascii) : bool :=
  let n := N_of_ascii c in
  ((9 <=? n) && (n <=? 13) || (n =? 32) || (n =? 160))%N.

Fixpoint trim_left (s : string) : string :=
  match s with
  | String c r => if is_whitespace c then trim_left r else s
  | EmptyString => s
  end.

(** The exponent part at the head of [s], if there is a whole one. *)
Definition exponent_prefix (s : string) : Z :=
  match s with
  | String c r =>
      if (c =? "e")%char || (c =? "E")%char then
        let '(sgn, r1) :=
          match r with
          | String "+" r' => (1, r')
          | String "-" r' => (-1, r')
          | _ => (1, r)
          end in
        match Digits.span_digits r1 with
        | (d :: ds, _) => sgn * Digits.of_digits (d :: ds)
        | _ => 0
        end
      else 0
  | EmptyString => 0
  end.

Definition parse_sign (s : string) : bool * string :=
  match s with
  | String "-" r => (true, r)
  | String "+" r => (false, r)
  | _ => (false, s)
  end.

(** The value of the longest prefix of the trimmed string that is a
    decimal literal; NaN when there is none. *)
Definition parseFloat (s : string) : t :=
  let '(neg, s1) := parse_sign (trim_left s) in
  if String.prefix "Infinity" s1 then Infinity neg
  else
    let '(ip, s2) := Digits.span_digits s1 in
    let '(fp, s3) := Digits.fraction_part s2 in
    match ip, fp with
    | [], [] => NaN
    | _, _ =>
        of_decimal neg (Digits.of_digits (ip ++ fp)%list)
                   (exponent_prefix s3 - Z.of_nat (List.length fp))
    end.

End Number.

(** ** JavaScript values *)

(** Modelled from the spec: the [Asset] class of [src/asset.js], which is
    not among the sources: "native (the ledger's base currency) or an issued
    asset identified by (code, issuerAccountId)". *)
Inductive Asset : Type :=
| AssetNative
| AssetIssued (code : string) (issuer : string).

#[warnings="-register-all"] Inductive JsValue : Type :=
| JsUndefined
| JsNull
| JsBool (b : bool)
| JsNumber (n : Number.t)
| JsString (s : string)
| JsBuffer (bytes : list byte)
| JsAsset (a : Asset)
| JsObject (props : list (string * JsValue)).

(** A plain object: its own properties, in insertion order. *)
Definition obj : Type := list (string * JsValue).

(** [o.k] *)
Fixpoint get (k : string) (o : obj) : JsValue :=
  match o with
  | [] => JsUndefined
  | (k', v) :: r => if (k =? k')%string then v else get k r
  end.

(** [o.k = v] *)
Fixpoint set (k : string) (v : JsValue) (o : obj) : obj :=
  match o with
  | [] => [(k, v)]
  | (k', v') :: r =>
      if (k =? k')%string then (k, v) :: r else (k', v') :: set k v r
  end.

(** [x.k] on any value: [undefined] on what has no such property. *)
Definition prop (x : JsValue) (k : string) : JsValue :=
  match x with
  | JsObject o => get k o
  | _ => JsUndefined
  end.

(** [x.k = v] on the object [x]. *)
Definition set_prop (x : JsValue) (k : string) (v : JsValue) : JsValue :=
  match x with
  | JsObject o => JsObject (set k v o)
  | _ => x
  end.

(** The value in a condition: [if (x)]. *)
Definition truthy (x : JsValue) : bool :=
  match x with
  | JsUndefined | JsNull => false
  | JsBool b => b
  | JsNumber n => negb (Number.isNaN n || Number.eqZ n 0)
  | JsString s => negb (s =? "")%string
  | JsBuffer _ | JsAsset _ | JsObject _ => true
  end.

(** lodash *)
Definition isUndefined (x : JsValue) : bool :=
  match x with JsUndefined => true | _ => false end.

Definition isString (x : JsValue) : bool :=
  match x with JsString _ => true | _ => false end.

Definition isNumber (x : JsValue) : bool :=
  match x with JsNumber _ => true | _ => false end.

Definition isFinite (x : JsValue) : bool :=
  match x with JsNumber n => Number.isFinite n | _ => false end.

Definition isNull (x : JsValue) : bool :=
  match x with JsNull => true | _ => false end.

(** ** Buffers *)

Module Buffer.

Definition isBuffer (x : JsValue) : bool :=
  match x with JsBuffer _ => true | _ => false end.

Definition byte_of_N (n : N) : byte := byte_of_ascii (ascii_of_N n).

Definition hex_value (c : ascii) : option N :=
  let n := N_of_ascii c in
  (if (48 <=? n) && (n <=? 57) then Some (n - 48)
   else if (97 <=? n) && (n <=? 102) then Some (n - 87)
   else if (65 <=? n) && (n <=? 70) then Some (n - 55)
   else None)%N.

(** [Buffer.from(s, "hex")]: one byte per pair of hexadecimal digits, up to
    the first pair that is not one. *)
Fixpoint from_hex (s : string) : list byte :=
  match s with
  | String a (String b r) =>
      match hex_value a, hex_value b with
      | Some h, Some l => byte_of_N (16 * h + l)%N :: from_hex r
      | _, _ => []
      end
  | _ => []
  end.

(** [new Buffer(s)]: the UTF-8 encoding of the string. *)
Fixpoint from_string (s : string) : list byte :=
  match s with
  | EmptyString => []
  | String c r =>
      let n := N_of_ascii c in
      if n <? 128 then byte_of_ascii c :: from_string r
      else byte_of_N (192 + n / 64) :: byte_of_N (128 + n mod 64)
             :: from_string r
  end%N.

(** [x.length] of a buffer or a string. *)
Definition length (x : JsValue) : Z :=
  match x with
  | JsBuffer b => Z.of_nat (List.length b)
  | JsString s => Z.of_nat (String.length s)
  | _ => 0
  end.

End Buffer.

(** ** StrKey

    [src/strkey.js] is not among the sources.  The codec of account ids is a
    parameter of the development; what the spec says of it is stated as
    [Lossless]. *)

Module StrKey.

Class Codec : Type := {
  (** [StrKey.decodeEd25519PublicKey]: [None] when it throws (bad
      checksum, version byte or length). *)
  decodeEd25519PublicKey : string -> option (list byte);
  (** [StrKey.encodeEd25519PublicKey] *)
  encodeEd25519PublicKey : list byte -> string
}.

(** Modelled from the spec: [StrKey.isValidEd25519PublicKey], "same as
    decode but reports success/failure without throwing". *)
Definition isValidEd25519PublicKey `{Codec} (x : JsValue) : bool :=
  match x with
  | JsString s =>
      match decodeEd25519PublicKey s with Some _ => true | None => false end
  | _ => false
  end.

(** Modelled from the spec: "lossless ... textual encoding": a text that
    decodes is the encoding of what it decodes to. *)
Definition Lossless `{Codec} : Prop :=
  forall s raw,
    decodeEd25519PublicKey s = Some raw -> encodeEd25519PublicKey raw = s.

End StrKey.

Module Keypair.

(** Modelled from the spec: [Keypair.fromPublicKey(x).xdrAccountId()] of
    [src/keypair.js], which is not among the sources: the raw key the
    address decodes to; it throws on what does not decode. *)
Definition xdrAccountId `{StrKey.Codec} (x : JsValue) : Result (list byte) :=
  match x with
  | JsString s =>
      match StrKey.decodeEd25519PublicKey s with
      | Some raw => Ok raw
      | None => Throw "invalid encoded string"
      end
  | _ => Throw "encoded argument must be of type String"
  end.

End Keypair.

(** ** The wire records

    The generated XDR classes are not among the sources.  Their constructors
    store what they are given, without checking it, so a field holds a
    [JsValue] wherever the builder passes one through. *)

Module xdr.

(** The numeric values of the members of the two enumerations the
    builders look up ([xdr.AccountType._byValue],
    [xdr.SignerType._byValue]). *)
Class Enums : Type := {
  AccountType_byValue : list Z;
  SignerType_byValue : list Z
}.

(** [_byValue.has(raw)]: the keys are numbers. *)
Definition has (keys : list Z) (raw : JsValue) : bool :=
  match raw with
  | JsNumber n => existsb (Number.eqZ n) keys
  | _ => false
  end.

(** [_byValue.get(raw)]: the member, named by its value. *)
Definition get_member (keys : list Z) (raw : JsValue) : option Z :=
  match raw with
  | JsNumber n => find (Number.eqZ n) keys
  | _ => None
  end.

Module CreateAccountOp.
Record t : Type := { destination : list byte; startingBalance : Z; body : Z }.
End CreateAccountOp.

Module EmissionOp.
Record t : Type := { destination : list byte; amount : Z }.
End EmissionOp.

Module SettlementOp.
Record t : Type := { amount : Z }.
End SettlementOp.

Module PaymentOp.
Record t : Type := { destination : list byte; asset : Asset; amount : Z }.
End PaymentOp.

Inductive SignerKey : Type :=
| signerKeyTypeEd25519 (ed25519 : list byte)
| signerKeyTypePreAuthTx (preAuthTx : JsValue)
| signerKeyTypeHashX (hashX : JsValue).

Module Signer.
Record t : Type := { key : option SignerKey; weight : JsValue; signerType : JsValue }.
End Signer.

Module SetOptionsOp.
Record t : Type := {
  inflationDest : option (list byte);
  clearFlags : JsValue;
  setFlags : JsValue;
  masterWeight : JsValue;
  lowThreshold : JsValue;
  medThreshold : JsValue;
  highThreshold : JsValue;
  homeDomain : JsValue;
  signer : option Signer.t
}.
End SetOptionsOp.

Module ManageDataOp.
Record t : Type := { dataName : JsValue; dataValue : JsValue }.
End ManageDataOp.

Module SpendFeeOp.
Record t : Type := { destination : list byte; amount : Z }.
End SpendFeeOp.

Module SetFeeOp.
Record t : Type := { baseFee : JsValue }.
End SetFeeOp.

Module RestrictAccountOp.
Record t : Type := { clearFlags : JsValue; setFlags : JsValue; account : list byte }.
End RestrictAccountOp.

(** A price, the ratio of two 32-bit integers. *)
Module Price.
Record t : Type := { n : Z; d : Z }.
End Price.

(** The arms [Operation.fromXDRObject] knows, and any other arm of the
    union, by the name of its switch. *)
Inductive OperationBody : Type :=
| createAccount (v : CreateAccountOp.t)
| emission (v : EmissionOp.t)
| settlement (v : SettlementOp.t)
| payment (v : PaymentOp.t)
| setOption (v : SetOptionsOp.t)
| accountMerge (v : list byte)
| manageDatum (v : ManageDataOp.t)
| setFee (v : SetFeeOp.t)
| spendFee (v : SpendFeeOp.t)
| restrictAccount (v : RestrictAccountOp.t)
| otherArm (name : string).

Module Operation.
Record t : Type := { sourceAccount : option (list byte); body : OperationBody }.
End Operation.

End xdr.

(** js-xdr's [Hyper], a signed 64-bit integer. *)
Module Hyper.

Definition wrap (n : Z) : Z := (n + 2 ^ 63) mod 2 ^ 64 - 2 ^ 63.

(** [Hyper.fromString]: an optional minus sign and digits, or it throws. *)
Definition fromString (s : string) : Result Z :=
  let '(neg, s1) := BigNumber.parse_sign s in
  match Digits.span_digits s1 with
  | (d :: ds, EmptyString) =>
      let n := Digits.of_digits (d :: ds) in
      Ok (wrap (if neg then - n else n))
  | _ => Throw ("Invalid hyper string: " ++ s)
  end.

Definition toString (n : Z) : string := Digits.Z_to_string n.

End Hyper.

(** ** [src/operation.js] *)

Module Operation.

Definition ONE : BigNumber.t := BigNumber.of_Z 10000000.
Definition MAX_INT64 : string := "9223372036854775807".

Definition AuthRequiredFlag : Z := Z.shiftl 1 0.
Definition AuthRevocableFlag : Z := Z.shiftl 1 1.
Definition AuthImmutableFlag : Z := Z.shiftl 1 2.
Definition BlockIncomingFlag : Z := Z.shiftl 1 3.
Definition BlockOutgoingFlag : Z := Z.shiftl 1 4.

(** [new BigNumber(value)].  The callers below reach it with a string only:
    behind [isString], behind [isValidAmount], or on the decimal rendering of
    a [Hyper]; on anything else the model throws. *)
Definition BigNumber_new (value : JsValue) : Result BigNumber.t :=
  match value with
  | JsString s =>
      match BigNumber.of_string s with
      | Some x => Ok x
      | None => Throw ("new BigNumber() not a number: " ++ s)
      end
  | _ => Throw "new BigNumber(): not a string"
  end.

(** [new BigNumber(MAX_INT64).toString()], read back by [greaterThan]. *)
Definition max_int64 : BigNumber.t :=
  match BigNumber.of_string MAX_INT64 with
  | Some m =>
      match BigNumber.of_string (BigNumber.toString m) with
      | Some m' => m'
      | None => BigNumber.bnNaN
      end
  | None => BigNumber.bnNaN
  end.

Definition isValidAmount (value : JsValue) (allowZero : bool) : bool :=
  match value with
  | JsString s =>
      match BigNumber.of_string s with
      | None => false
      | Some amount =>
          (* == 0 *)
          if negb allowZero && BigNumber.isZero amount then false
          (* < 0 *)
          else if BigNumber.isNegative amount then false
          (* > Max value *)
          else if BigNumber.greaterThan (BigNumber.times amount ONE) max_int64
          then false
          (* Decimal places (max 7) *)
          else if match BigNumber.decimalPlaces amount with
                  | Some dp => 7 <? dp
                  | None => false
                  end
          then false
          (* Infinity *)
          else if negb (BigNumber.isFinite amount) then false
          (* NaN *)
          else if BigNumber.isNaN amount then false
          else true
      end
  | _ => false
  end.

Definition constructAmountRequirementsError (arg : string) : string :=
  arg ++ " argument must be of type String, represent a positive number and have at most 7 digits after the decimal".

Definition _toXDRAmount (value : JsValue) : Result Z :=
  let* x := BigNumber_new value in
  let amount := BigNumber.times x ONE in
  Hyper.fromString (BigNumber.toString amount).

Definition _fromXDRAmount (value : Z) : Result JsValue :=
  let* x := BigNumber_new (JsString (Hyper.toString value)) in
  Ok (JsString (BigNumber.toString (BigNumber.div x ONE))).

(** [new BigNumber(k)] on a number [k] that is an integer of at most 15
    digits, as the two fields of a price are. *)
Definition _fromXDRPrice (price : xdr.Price.t) : string :=
  let n := BigNumber.of_Z (xdr.Price.n price) in
  BigNumber.toString (BigNumber.div n (BigNumber.of_Z (xdr.Price.d price))).

(** The value of [isValidFunction]: it answers or throws. *)
Definition check : Type := Number.t -> string -> Result bool.

Definition _checkUnsignedIntValue (name : string) (value : JsValue)
    (isValidFunction : option check) : Result JsValue :=
  if isUndefined value then Ok JsUndefined
  else
    let value :=
      match value with
      | JsString s => JsNumber (Number.parseFloat s)
      | _ => value
      end in
    match value with
    | JsNumber n =>
        if negb (Number.isFinite n) || negb (Number.mod1_is_zero n)
        then Throw (name ++ " value is invalid")
        else if Number.ltZ n 0 then Throw (name ++ " value must be unsigned")
        else
          match isValidFunction with
          | None => Ok value
          | Some f =>
              let* ok := f n name in
              if ok then Ok value else Throw (name ++ " value is invalid")
          end
    | _ => Throw (name ++ " value is invalid")
    end.

(** The [weightCheckFunction] of [setOptions]. *)
Definition weightCheckFunction : check :=
  fun value name =>
    if Number.geZ value 0 && Number.leZ value 255 then Ok true
    else Throw (name ++ " value must be between 0 and 255").

Section Builders.

Context `{StrKey.Codec} `{xdr.Enums}.

Definition _isValidAccountType (rawAccountType : JsValue) : bool :=
  xdr.has xdr.AccountType_byValue rawAccountType.

Definition _accountTypeFromNumber (rawAccountType : JsValue) : Result Z :=
  match xdr.get_member xdr.AccountType_byValue rawAccountType with
  | Some member => Ok member
  | None => Throw "XDR Read Error: Unknown AccountType member"
  end.

Definition _isValidSignerType (rawSignerType : JsValue) : bool :=
  xdr.has xdr.SignerType_byValue rawSignerType.

Definition _signerTypeFromNumber (rawSignerType : JsValue) : Result Z :=
  match xdr.get_member xdr.SignerType_byValue rawSignerType with
  | Some member => Ok member
  | None => Throw "XDR Read Error: Unknown SignerType member"
  end.

(** The source account of the operation, when [opts.source] is given. *)
Definition setSourceAccount (opts : obj) : Result (option (list byte)) :=
  if truthy (get "source" opts) then
    let* _ := guard (StrKey.isValidEd25519PublicKey (get "source" opts))
                    "Source address is invalid" in
    let* raw := Keypair.xdrAccountId (get "source" opts) in
    Ok (Some raw)
  else Ok None.

Definition new_Operation (body : xdr.OperationBody) (opts : obj)
    : Result xdr.Operation.t :=
  let* sourceAccount := setSourceAccount opts in
  Ok {| xdr.Operation.sourceAccount := sourceAccount;
        xdr.Operation.body := body |}.

Definition createAccount (opts : obj) : Result xdr.Operation.t :=
  let* _ := guard (StrKey.isValidEd25519PublicKey (get "destination" opts))
                  "destination is invalid" in
  let* _ := guard (isValidAmount (get "startingBalance" opts) true)
                  (constructAmountRequirementsError "startingBalance") in
  let* _ := guard (negb (isUndefined (get "accountType" opts)
                         || negb (_isValidAccountType (get "accountType" opts))))
                  "Must provide an accountType for a create user operation" in
  let* destination := Keypair.xdrAccountId (get "destination" opts) in
  let* startingBalance := _toXDRAmount (get "startingBalance" opts) in
  let* body := _accountTypeFromNumber (get "accountType" opts) in
  new_Operation
    (xdr.createAccount
       {| xdr.CreateAccountOp.destination := destination;
          xdr.CreateAccountOp.startingBalance := startingBalance;
          xdr.CreateAccountOp.body := body |}) opts.

Definition emission (opts : obj) : Result xdr.Operation.t :=
  let* _ := guard (StrKey.isValidEd25519PublicKey (get "destination" opts))
                  "destination is invalid" in
  let* _ := guard (isValidAmount (get "amount" opts) false)
                  (constructAmountRequirementsError "amount") in
  let* destination := Keypair.xdrAccountId (get "destination" opts) in
  let* amount := _toXDRAmount (get "amount" opts) in
  new_Operation
    (xdr.emission
       {| xdr.EmissionOp.destination := destination;
          xdr.EmissionOp.amount := amount |}) opts.

Definition settlement (opts : obj) : Result xdr.Operation.t :=
  let* _ := guard (isValidAmount (get "amount" opts) false)
                  (constructAmountRequirementsError "amount") in
  let* amount := _toXDRAmount (get "amount" opts) in
  new_Operation (xdr.settlement {| xdr.SettlementOp.amount := amount |}) opts.

Definition payment (opts : obj) : Result xdr.Operation.t :=
  let* _ := guard (StrKey.isValidEd25519PublicKey (get "destination" opts))
                  "destination is invalid" in
  let* _ := guard (isValidAmount (get "amount" opts) false)
                  (constructAmountRequirementsError "amount") in
  let* destination := Keypair.xdrAccountId (get "destination" opts) in
  let asset := AssetNative in
  let* amount := _toXDRAmount (get "amount" opts) in
  new_Operation
    (xdr.payment
       {| xdr.PaymentOp.destination := destination;
          xdr.PaymentOp.asset := asset;
          xdr.PaymentOp.amount := amount |}) opts.

Definition accountMerge (opts : obj) : Result xdr.Operation.t :=
  let* _ := guard (StrKey.isValidEd25519PublicKey (get "destination" opts))
                  "destination is invalid" in
  let* destination := Keypair.xdrAccountId (get "destination" opts) in
  new_Operation (xdr.accountMerge destination) opts.

Definition manageData (opts : obj) : Result xdr.Operation.t :=
  let name := get "name" opts in
  let value := get "value" opts in
  let* _ := guard (isString name && (Buffer.length name <=? 64))
                  "name must be a string, up to 64 characters" in
  let* _ := guard (negb (negb (isString value) && negb (Buffer.isBuffer value)
                         && negb (isNull value)))
                  "value must be a string, Buffer or null" in
  let dataValue :=
    match value with
    | JsString s => JsBuffer (Buffer.from_string s)
    | _ => value
    end in
  let* _ := guard (negb (negb (isNull dataValue)
                         && (64 <? Buffer.length dataValue)))
                  "value cannot be longer that 64 bytes" in
  new_Operation
    (xdr.manageDatum
       {| xdr.ManageDataOp.dataName := name;
          xdr.ManageDataOp.dataValue := dataValue |}) opts.

Definition spendFee (opts : obj) : Result xdr.Operation.t :=
  let* _ := guard (StrKey.isValidEd25519PublicKey (get "destination" opts))
                  "destination is invalid" in
  let* _ := guard (isValidAmount (get "amount" opts) false)
                  (constructAmountRequirementsError "amount") in
  let* destination := Keypair.xdrAccountId (get "destination" opts) in
  let* amount := _toXDRAmount (get "amount" opts) in
  new_Operation
    (xdr.spendFee
       {| xdr.SpendFeeOp.destination := destination;
          xdr.SpendFeeOp.amount := amount |}) opts.

Definition setFee (opts : obj) : Result xdr.Operation.t :=
  new_Operation
    (xdr.setFee {| xdr.SetFeeOp.baseFee := get "baseFee" opts |}) opts.

Definition restrictAccount (opts : obj) : Result xdr.Operation.t :=
  let* clearFlags := _checkUnsignedIntValue "clearFlags" (get "clearFlags" opts) None in
  let* setFlags := _checkUnsignedIntValue "setFlags" (get "setFlags" opts) None in
  let* account := Keypair.xdrAccountId (get "account" opts) in
  new_Operation
    (xdr.restrictAccount
       {| xdr.RestrictAccountOp.clearFlags := clearFlags;
          xdr.RestrictAccountOp.setFlags := setFlags;
          xdr.RestrictAccountOp.account := account |}) opts.

(** [setOptions] assigns to [opts.signer], an object it shares with its
    caller: a computation threads the options object and may throw. *)
Definition M (A : Type) : Type := obj -> obj * Result A.

Definition ret {A : Type} (a : A) : M A := fun o => (o, Ok a).

Definition lift {A : Type} (r : Result A) : M A := fun o => (o, r).

Definition mbind {A B : Type} (m : M A) (k : A -> M B) : M B :=
  fun o =>
    match m o with
    | (o', Ok a) => k a o'
    | (o', Throw msg) => (o', Throw msg)
    end.

Notation "x <- m ;; k" := (mbind m (fun x => k))
  (at level 61, m at next level, right associativity).

(** [opts.k] *)
Definition read (k : string) : M JsValue := fun o => (o, Ok (get k o)).

(** [opts.signer.k] *)
Definition read_signer (k : string) : M JsValue :=
  fun o => (o, Ok (prop (get "signer" o) k)).

(** [opts.signer.k = v] *)
Definition assign_signer (k : string) (v : JsValue) : M unit :=
  fun o => (set "signer" (set_prop (get "signer" o) k v) o, Ok tt).

(** The hash of a signer, [which] being [preAuthTx] or [sha256Hash]: a hex
    string is first replaced, in [opts.signer], by the bytes it decodes
    to. *)
Definition signer_hash (which : string) : M JsValue :=
  h <- read_signer which ;;
  _ <- match h with
       | JsString s => assign_signer which (JsBuffer (Buffer.from_hex s))
       | _ => ret tt
       end ;;
  h <- read_signer which ;;
  _ <- lift (guard (Buffer.isBuffer h && (Buffer.length h =? 32))
                   ("signer." ++ which ++ " must be 32 bytes Buffer.")) ;;
  ret h.

Definition setOptions_signer : M (option xdr.Signer.t) :=
  signer <- read "signer" ;;
  if truthy signer then
    w <- read_signer "weight" ;;
    weight <- lift (_checkUnsignedIntValue "signer.weight" w (Some weightCheckFunction)) ;;
    signerType <- read_signer "signerType" ;;
    _ <- lift (guard (negb (isUndefined signerType
                            || negb (_isValidSignerType signerType)))
                     "Must provide a valid signerType") ;;
    ed <- read_signer "ed25519PublicKey" ;;
    st1 <- (if truthy ed then
              _ <- lift (guard (StrKey.isValidEd25519PublicKey ed)
                               "signer.ed25519PublicKey is invalid.") ;;
              rawKey <- lift (Keypair.xdrAccountId ed) ;;
              ret (Some (xdr.signerKeyTypeEd25519 rawKey), 1)
            else ret (None, 0)) ;;
    pre <- read_signer "preAuthTx" ;;
    st2 <- (if truthy pre then
              h <- signer_hash "preAuthTx" ;;
              ret (Some (xdr.signerKeyTypePreAuthTx h), snd st1 + 1)
            else ret st1) ;;
    sha <- read_signer "sha256Hash" ;;
    st3 <- (if truthy sha then
              h <- signer_hash "sha256Hash" ;;
              ret (Some (xdr.signerKeyTypeHashX h), snd st2 + 1)
            else ret st2) ;;
    _ <- lift (guard (snd st3 =? 1)
                     "Signer object must contain exactly one of signer.ed25519PublicKey, signer.sha256Hash, signer.preAuthTx.") ;;
    ret (Some {| xdr.Signer.key := fst st3;
                 xdr.Signer.weight := weight;
                 xdr.Signer.signerType := signerType |})
  else ret None.

Definition setOptions : M xdr.Operation.t :=
  inflation <- read "inflationDest" ;;
  inflationDest <-
    (if truthy inflation then
       _ <- lift (guard (StrKey.isValidEd25519PublicKey inflation)
                        "inflationDest is invalid") ;;
       raw <- lift (Keypair.xdrAccountId inflation) ;;
       ret (Some raw)
     else ret None) ;;
  v <- read "clearFlags" ;;
  clearFlags <- lift (_checkUnsignedIntValue "clearFlags" v None) ;;
  v <- read "setFlags" ;;
  setFlags <- lift (_checkUnsignedIntValue "setFlags" v None) ;;
  v <- read "masterWeight" ;;
  masterWeight <- lift (_checkUnsignedIntValue "masterWeight" v (Some weightCheckFunction)) ;;
  v <- read "lowThreshold" ;;
  lowThreshold <- lift (_checkUnsignedIntValue "lowThreshold" v (Some weightCheckFunction)) ;;
  v <- read "medThreshold" ;;
  medThreshold <- lift (_checkUnsignedIntValue "medThreshold" v (Some weightCheckFunction)) ;;
  v <- read "highThreshold" ;;
  highThreshold <- lift (_checkUnsignedIntValue "highThreshold" v (Some weightCheckFunction)) ;;
  homeDomain <- read "homeDomain" ;;
  _ <- lift (guard (negb (negb (isUndefined homeDomain)
                          && negb (isString homeDomain)))
                   "homeDomain argument must be of type String") ;;
  signer <- setOptions_signer ;;
  fun opts =>
    (opts,
     new_Operation
       (xdr.setOption
          {| xdr.SetOptionsOp.inflationDest := inflationDest;
             xdr.SetOptionsOp.clearFlags := clearFlags;
             xdr.SetOptionsOp.setFlags := setFlags;
             xdr.SetOptionsOp.masterWeight := masterWeight;
             xdr.SetOptionsOp.lowThreshold := lowThreshold;
             xdr.SetOptionsOp.medThreshold := medThreshold;
             xdr.SetOptionsOp.highThreshold := highThreshold;
             xdr.SetOptionsOp.homeDomain := homeDomain;
             xdr.SetOptionsOp.signer := signer |}) opts).

(** *** Decoding *)

Definition accountIdtoAddress (accountId : list byte) : JsValue :=
  JsString (StrKey.encodeEd25519PublicKey accountId).

Definition signer_object (s : xdr.Signer.t) : Result obj :=
  let* signer :=
    match xdr.Signer.key s with
    | Some (xdr.signerKeyTypeEd25519 raw) =>
        Ok (set "ed25519PublicKey" (accountIdtoAddress raw) [])
    | Some (xdr.signerKeyTypePreAuthTx h) => Ok (set "preAuthTx" h [])
    | Some (xdr.signerKeyTypeHashX h) => Ok (set "sha256Hash" h [])
    | None => Throw "TypeError: Cannot read property 'arm' of undefined"
    end in
  let signer := set "weight" (xdr.Signer.weight s) signer in
  let signer := set "signerType" (xdr.Signer.signerType s) signer in
  Ok signer.

Definition fromXDRObject (operation : xdr.Operation.t) : Result obj :=
  let result : obj :=
    match xdr.Operation.sourceAccount operation with
    | Some a => set "source" (accountIdtoAddress a) []
    | None => []
    end in
  match xdr.Operation.body operation with
  | xdr.createAccount attrs =>
      let result := set "type" (JsString "createAccount") result in
      let result := set "destination" (accountIdtoAddress (xdr.CreateAccountOp.destination attrs)) result in
      let* startingBalance := _fromXDRAmount (xdr.CreateAccountOp.startingBalance attrs) in
      let result := set "startingBalance" startingBalance result in
      let result := set "accountType" (JsNumber (Number.Int (xdr.CreateAccountOp.body attrs))) result in
      Ok result
  | xdr.emission attrs =>
      let result := set "type" (JsString "emission") result in
      let result := set "destination" (accountIdtoAddress (xdr.EmissionOp.destination attrs)) result in
      let* amount := _fromXDRAmount (xdr.EmissionOp.amount attrs) in
      Ok (set "amount" amount result)
  | xdr.settlement attrs =>
      let result := set "type" (JsString "settlement") result in
      let* amount := _fromXDRAmount (xdr.SettlementOp.amount attrs) in
      Ok (set "amount" amount result)
  | xdr.payment attrs =>
      let result := set "type" (JsString "payment") result in
      let result := set "destination" (accountIdtoAddress (xdr.PaymentOp.destination attrs)) result in
      let result := set "asset" (JsAsset (xdr.PaymentOp.asset attrs)) result in
      let* amount := _fromXDRAmount (xdr.PaymentOp.amount attrs) in
      Ok (set "amount" amount result)
  | xdr.setOption attrs =>
      let result := set "type" (JsString "setOptions") result in
      let result :=
        match xdr.SetOptionsOp.inflationDest attrs with
        | Some a => set "inflationDest" (accountIdtoAddress a) result
        | None => result
        end in
      let result := set "clearFlags" (xdr.SetOptionsOp.clearFlags attrs) result in
      let result := set "setFlags" (xdr.SetOptionsOp.setFlags attrs) result in
      let result := set "masterWeight" (xdr.SetOptionsOp.masterWeight attrs) result in
      let result := set "lowThreshold" (xdr.SetOptionsOp.lowThreshold attrs) result in
      let result := set "medThreshold" (xdr.SetOptionsOp.medThreshold attrs) result in
      let result := set "highThreshold" (xdr.SetOptionsOp.highThreshold attrs) result in
      let result := set "homeDomain" (xdr.SetOptionsOp.homeDomain attrs) result in
      match xdr.SetOptionsOp.signer attrs with
      | Some s =>
          let* signer := signer_object s in
          Ok (set "signer" (JsObject signer) result)
      | None => Ok result
      end
  | xdr.accountMerge attrs =>
      let result := set "type" (JsString "accountMerge") result in
      Ok (set "destination" (accountIdtoAddress attrs) result)
  | xdr.manageDatum attrs =>
      let result := set "type" (JsString "manageData") result in
      let result := set "name" (xdr.ManageDataOp.dataName attrs) result in
      Ok (set "value" (xdr.ManageDataOp.dataValue attrs) result)
  | xdr.setFee attrs =>
      let result := set "type" (JsString "setFee") result in
      Ok (set "baseFee" (xdr.SetFeeOp.baseFee attrs) result)
  | xdr.spendFee attrs =>
      let result := set "type" (JsString "spendFee") result in
      let result := set "destination" (accountIdtoAddress (xdr.SpendFeeOp.destination attrs)) result in
      let* amount := _fromXDRAmount (xdr.SpendFeeOp.amount attrs) in
      Ok (set "amount" amount result)
  | xdr.restrictAccount attrs =>
      let result := set "type" (JsString "restrictAccount") result in
      let result := set "account" (accountIdtoAddress (xdr.RestrictAccountOp.account attrs)) result in
      let result := set "clearFlags" (xdr.RestrictAccountOp.clearFlags attrs) result in
      Ok (set "setFlags" (xdr.RestrictAccountOp.setFlags attrs) result)
  | xdr.otherArm _ => Throw "Unknown operation"
  end.

End Builders.

End Operation.

(** ** [src/account.js] *)

Module Account.

(** The two built-ins of the host the class calls on its [baseFee]; what
    they compute plays no part below. *)
Class Builtins : Type := {
  parseInt : JsValue -> Number.t;
  Number_toString : Number.t -> string
}.

Record t : Type := {
  _accountId : JsValue;
  sequence : BigNumber.t;
  baseFee : Number.t
}.

Section Methods.

Context `{StrKey.Codec} `{Builtins}.

Definition constructor (accountId sequence baseFee : JsValue) : Result t :=
  let* _ := guard (StrKey.isValidEd25519PublicKey accountId)
                  "accountId is invalid" in
  let* _ := guard (isString sequence) "sequence must be of type string" in
  let* seq := Operation.BigNumber_new sequence in
  Ok {| _accountId := accountId;
        sequence := seq;
        baseFee := parseInt baseFee |}.

Definition accountId (this : t) : JsValue := _accountId this.

Definition sequenceNumber (this : t) : string :=
  BigNumber.toString (sequence this).

Definition baseFeeValue (this : t) : string :=
  Number_toString (baseFee this).

Definition incrementSequenceNumber (this : t) : t :=
  {| _accountId := _accountId this;
     sequence := BigNumber.plus (sequence this) (BigNumber.of_Z 1);
     baseFee := baseFee this |}.

End Methods.

End Account.

(** ** JavaScript strings and arrays, as the mnemonic code uses them *)

Module Js.

(** [s.split(c)] for a separator of one character. *)
Fixpoint split (c : ascii) (s : string) : list string :=
  match s with
  | EmptyString => [EmptyString]
  | String a r =>
      if (a =? c)%char then EmptyString :: split c r
      else
        match split c r with
        | w :: ws => String a w :: ws
        | [] => [String a EmptyString]
        end
  end.

(** [l.join(sep)] *)
Fixpoint join (sep : string) (l : list string) : string :=
  match l with
  | [] => EmptyString
  | [w] => w
  | w :: r => w ++ sep ++ join sep r
  end.

(** [l.indexOf(w)]: the first index, or -1. *)
Fixpoint indexOf (l : list string) (w : string) : Z :=
  match l with
  | [] => -1
  | x :: r =>
      if (x =? w)%string then 0
      else let i := indexOf r w in if i <? 0 then -1 else i + 1
  end.

(** [s.slice(a, b)] on integers; a negative index counts from the end. *)
Definition slice (s : string) (a b : Z) : string :=
  let len := Z.of_nat (String.length s) in
  let from := if a <? 0 then Z.max (len + a) 0 else Z.min a len in
  let to := if b <? 0 then Z.max (len + b) 0 else Z.min b len in
  substring (Z.to_nat from) (Z.to_nat (to - from)) s.

(** [s.slice(a)] *)
Definition slice_from (s : string) (a : Z) : string :=
  slice s a (Z.of_nat (String.length s)).

(** [n.toString(2)] on a non-negative integer. *)
Fixpoint pos_toString2 (p : positive) (acc : string) : string :=
  match p with
  | xH => String "1" acc
  | xO q => pos_toString2 q (String "0" acc)
  | xI q => pos_toString2 q (String "1" acc)
  end.

Definition toString2 (n : N) : string :=
  match n with
  | N0 => "0"
  | Npos p => pos_toString2 p EmptyString
  end.

(** The binary digits at the head of [s], read onto [acc]. *)
Fixpoint read_bits (s : string) (acc : N) : N :=
  match s with
  | String "0" r => read_bits r (2 * acc)%N
  | String "1" r => read_bits r (2 * acc + 1)%N
  | _ => acc
  end.

(** [parseInt(s, 2)] on a string without sign or leading blanks: the
    integer its leading binary digits write, [None] for NaN when it has
    none. *)
Definition parseInt2 (s : string) : option N :=
  match s with
  | String "0" _ | String "1" _ => Some (read_bits s 0%N)
  | _ => None
  end.

(** [(zeros + s).slice(-width)], [zeros] being [width] zeros. *)
Definition pad (width : nat) (s : string) : string :=
  slice_from (string_of_list_ascii (repeat "0"%char width) ++ s) (- Z.of_nat width).

End Js.

(** ** [lib/util/mnemonic.js]

    The hash function of [../hashing], the normalisation of [unorm] and the
    word lists of [./words] are not among the sources; they are parameters
    of the model.  A phrase is a string, a word list an array of strings or
    absent.  Words are split off at blanks and compared whole, and only the
    strings of binary digits are measured and sliced, so the way a character
    outside ASCII is written in a word plays no part. *)

Module Mnemonic.

Class Env : Type := {
  (** [hash] of [../hashing] *)
  hash : list byte -> list byte;
  (** [unorm.nfkd] *)
  nfkd : string -> string;
  (** [require("./words")], by key, in the order of [Object.keys] *)
  Words : list (string * list string)
}.

Section Functions.

Context `{Env}.

(** [Mnemonic.Words[key]] *)
Definition Words_get (key : string) : option (list string) :=
  option_map snd (find (fun kv => (fst kv =? key)%string) Words).

(** The loop over the words of a phrase that [isValid] and [toSeed] share:
    the bits of the indices, eleven a word; [None] at a word that is not in
    the list. *)
Fixpoint word_bits (wordlist words : list string) (bin : string) : option string :=
  match words with
  | [] => Some bin
  | w :: r =>
      let ind := Js.indexOf wordlist w in
      if ind <? 0 then None
      else word_bits wordlist r (bin ++ Js.pad 11 (Js.toString2 (Z.to_N ind)))
  end.

(** [buf.writeUInt8(value, offset)], [value] being what [parseInt] gave:
    NaN is stored as 0; an offset past the end is a [RangeError]. *)
Definition writeUInt8 (buf : list byte) (value : option N) (offset : nat)
    : Result (list byte) :=
  if (offset <? List.length buf)%nat then
    let b := match value with Some v => Buffer.byte_of_N v | None => Byte.x00 end in
    Ok (firstn offset buf ++ b :: skipn (S offset) buf)%list
  else Throw "RangeError: Index out of range".

(** The loop [for (i = 0; i < nonhash_bits.length / 8; i++)]: [count]
    rounds from [i]. *)
Fixpoint write_bytes (bin : string) (count : nat) (i : nat) (buf : list byte)
    : Result (list byte) :=
  match count with
  | O => Ok buf
  | S k =>
      let value := Js.parseInt2 (Js.slice bin (Z.of_nat i * 8) ((Z.of_nat i + 1) * 8)) in
      let* buf := writeUInt8 buf value i in
      write_bytes bin k (S i) buf
  end.

(** The bits of the words but for the checksum, as bytes.  [cs] is
    [bin.length / 33], a fraction in general, which [slice] truncates;
    [new Buffer(size)] truncates its size as well, and its bytes, which the
    model has at zero, are all written before it is returned. *)
Definition nonhash_buffer (bin : string) : Result (list byte) :=
  let len := Z.of_nat (String.length bin) in
  let nonhash_bits := Js.slice bin 0 (len - (len + 32) / 33) in
  let nl := Z.of_nat (String.length nonhash_bits) in
  let buf := repeat Byte.x00 (Z.to_nat (nl / 8)) in
  write_bytes bin (Z.to_nat ((nl + 7) / 8)) 0 buf.

(** The bits of the first [count] bytes of [hashBuf], from [i]; reading
    past its end is a [TypeError]. *)
Fixpoint hash_bits (hashBuf : list byte) (count : nat) (i : nat) (hashbits : string)
    : Result string :=
  match count with
  | O => Ok hashbits
  | S k =>
      match nth_error hashBuf i with
      | Some b =>
          hash_bits hashBuf k (S i)
            (hashbits ++ Js.pad 8 (Js.toString2 (Byte.to_N b)))
      | None => Throw "TypeError: Cannot read property 'toString' of undefined"
      end
  end.

Definition _entropyChecksum (entropy : list byte) : Result string :=
  let hashBuf := hash entropy in
  let bits := Z.of_nat (List.length entropy) * 8 in
  let* hashbits := hash_bits hashBuf (List.length entropy) 0 EmptyString in
  Ok (Js.slice hashbits 0 (bits / 32)).

Definition _belongsToWordlist (mnemonic : string) (wordlist : list string) : bool :=
  forallb (fun w => negb (Js.indexOf wordlist w <? 0)) (Js.split " " (nfkd mnemonic)).

(** [Mnemonic._getDictionary(mnemonic)] on a phrase, or on [undefined]. *)
Definition _getDictionary (mnemonic : option string) : option (list string) :=
  match mnemonic with
  | None | Some EmptyString => None
  | Some m =>
      option_map snd (find (fun kv => _belongsToWordlist m (snd kv)) Words)
  end.

(** [wordlist || Mnemonic._getDictionary(mnemonic)] *)
Definition wordlist_or_dictionary (wordlist : option (list string))
    (mnemonic : option string) : option (list string) :=
  match wordlist with
  | Some wl => Some wl
  | None => _getDictionary mnemonic
  end.

Definition isValid (mnemonic : string) (wordlist : option (list string))
    : Result bool :=
  match wordlist_or_dictionary wordlist (Some mnemonic) with
  | None => Ok false
  | Some wordlist =>
      match word_bits wordlist (Js.split " " mnemonic) EmptyString with
      | None => Ok false
      | Some bin =>
          let len := Z.of_nat (String.length bin) in
          let hash_bits := Js.slice_from bin (- (len / 33)) in
          let* buf := nonhash_buffer bin in
          let* expected_hash_bits := _entropyChecksum buf in
          Ok (expected_hash_bits =? hash_bits)%string
      end
  end.

Definition toSeed (mnemonic : string) (wordlist : option (list string))
    : Result (list byte) :=
  match wordlist_or_dictionary wordlist (Some mnemonic) with
  | None => Throw "Invalid mnemonic phrase"
  | Some wordlist =>
      match word_bits wordlist (Js.split " " mnemonic) EmptyString with
      | None => Throw "Invalid mnemonic phrase"
      | Some bin => nonhash_buffer bin
      end
  end.

(** The bits of the bytes of a buffer, eight a byte. *)
Fixpoint byte_bits (entropy : list byte) (bin : string) : string :=
  match entropy with
  | [] => bin
  | b :: r => byte_bits r (bin ++ Js.pad 8 (Js.toString2 (Byte.to_N b)))
  end.

(** The words of the groups of eleven bits of [bin], [count] of them from
    the [i]th; a group past the end of the list gives [undefined], which
    [join] writes as the empty string, and so does NaN as an index. *)
Fixpoint bit_words (wordlist : list string) (bin : string) (count : nat) (i : nat)
    : list string :=
  match count with
  | O => []
  | S k =>
      let wi := Js.parseInt2 (Js.slice bin (Z.of_nat i * 11) ((Z.of_nat i + 1) * 11)) in
      let word :=
        match wi with
        | Some n => nth (N.to_nat n) wordlist EmptyString
        | None => EmptyString
        end in
      word :: bit_words wordlist bin k (S i)
  end.

(** [Mnemonic._entropy2mnemonic(entropy, wordlist)]; without a word list,
    reading the first word is a [TypeError]. *)
Definition _entropy2mnemonic (entropy : list byte) (wordlist : option (list string))
    : Result string :=
  let bin := byte_bits entropy EmptyString in
  let* checksum := _entropyChecksum entropy in
  let bin := bin ++ checksum in
  let len := Z.of_nat (String.length bin) in
  if negb (len mod 11 =? 0) then
    Throw ("Entropy length must be an even multiple of 11 bits: " ++ bin)
  else
    let count := Z.to_nat (len / 11) in
    match wordlist, count with
    | None, S _ => Throw "TypeError: Cannot read property of undefined"
    | None, O => Ok EmptyString
    | Some wl, _ => Ok (Js.join " " (bit_words wl bin count 0))
    end.

(** What the constructor is given as [data]. *)
Inductive Data : Type :=
| DArray (wordlist : list string)
| DBuffer (seed : list byte)
| DString (phrase : string)
| DNumber (ent : Number.t)
| DObject
| DAbsent.

Record t : Type := {
  wordlist : option (list string);
  phrase : option string
}.

(** [ent % 32 !== 0 || ent < 128] *)
Definition bad_ent (ent : Number.t) : bool :=
  match ent with
  | Number.Int z => negb (Z.rem z 32 =? 0) || (z <? 128)
  | _ => true
  end.

(** [new Mnemonic(data, wordlist)]; [DObject] stands for any other value
    that is truthy, [DAbsent] for one that is not. *)
Definition constructor (data : Data) (wordlist : option (list string)) : Result t :=
  let '(data, wordlist) :=
    match data with
    | DArray wl => (DAbsent, Some wl)
    | _ => (data, wordlist)
    end in
  let* given :=
    match data with
    | DBuffer b => Ok (None, None, Some b)
    | DString s => Ok (None, Some (nfkd s), None)
    | DNumber n => Ok (Some n, None, None)
    | DObject => Throw "data must be a Buffer, a string or an integer"
    | DArray _ | DAbsent => Ok (None, None, None)
    end in
  let '(ent, phrase, seed) := given in
  let ent :=
    match ent with
    | Some n => if truthy (JsNumber n) then n else Number.Int 128
    | None => Number.Int 128
    end in
  let wordlist := wordlist_or_dictionary wordlist phrase in
  let phrase_given :=
    match phrase with Some (String _ _) => true | _ => false end in
  if phrase_given && match wordlist with None => true | Some _ => false end then
    Throw ("Could not detect the used word list: "
           ++ match phrase with Some p => p | None => EmptyString end)
  else
    let wordlist :=
      match wordlist with Some wl => Some wl | None => Words_get "ENGLISH" end in
    let* phrase :=
      match seed with
      | Some s => let* p := _entropy2mnemonic s wordlist in Ok (Some p)
      | None => Ok phrase
      end in
    let* _ :=
      match phrase with
      | Some (String _ _ as p) =>
          let* ok := isValid p wordlist in
          guard ok ("Mnemonic string is invalid:" ++ p)
      | _ => Ok tt
      end in
    let* _ := guard (negb (bad_ent ent)) "Values must be ENT > 128 and ENT % 32 == 0" in
    Ok {| wordlist := wordlist; phrase := phrase |}.

End Functions.

End Mnemonic.

(** ** [src/mnemonic.js]

    [strkey.encodeCheck] and [strkey.decodeCheck] on seeds are parameters;
    the language is absent or the name of a key of the table of word lists,
    ["eng"] or ["ukr"], or a name that is no property of that table. *)

Module MnemonicApi.

Class SeedCodec : Type := {
  (** [strkey.decodeCheck('ed25519SecretSeed', seed)], with what it
      throws. *)
  decodeSeed : string -> Result (list byte);
  (** [strkey.encodeCheck('ed25519SecretSeed', rawSeed)] *)
  encodeSeed : list byte -> string
}.

Definition SEED_LENGTH : Z := 32.

Section Functions.

Context `{Mnemonic.Env} `{SeedCodec}.

(** [wordlist[lang || "eng"]] *)
Definition wordlist (lang : option string) : option (list string) :=
  let lang :=
    match lang with
    | None | Some EmptyString => "eng"
    | Some l => l
    end in
  if (lang =? "eng")%string then Mnemonic.Words_get "ENGLISH"
  else if (lang =? "ukr")%string then Mnemonic.Words_get "UKRAINIAN"
  else None.

Definition getSeedFromMnemonic (phrase : string) (lang : option string)
    : Result string :=
  let* ok := Mnemonic.isValid phrase (wordlist lang) in
  let* _ := guard ok "Invalid mnemonic phrase" in
  let* rawSeed := Mnemonic.toSeed phrase (wordlist lang) in
  Ok (encodeSeed rawSeed).

Definition getMnemonicFromSeed (seed : string) (lang : option string)
    : Result (option string) :=
  let* rawSeed := decodeSeed seed in
  let* mnemo := Mnemonic.constructor (Mnemonic.DBuffer rawSeed) (wordlist lang) in
  Ok (Mnemonic.phrase mnemo).

(** [getMnemonic(lang)], on the bytes [Random(SEED_LENGTH)] returns. *)
Definition getMnemonic (random : list byte) (lang : option string)
    : Result (option string) :=
  let* mnemo := Mnemonic.constructor (Mnemonic.DBuffer random) (wordlist lang) in
  Ok (Mnemonic.phrase mnemo).

End Functions.

End MnemonicApi.

(** ** A codec and enumerations to run the builders on

    A codec in the format of the spec: a version byte, the payload, a
    CRC-16/XMODEM checksum (low byte first), the whole in unpadded base 32.
    It is strict: a text decodes only when it is the encoding of the bytes it
    decodes to. *)

Module StrictCodec.

Definition versionByte : N := 48.

Definition char_value (c : ascii) : option N :=
  let n := N_of_ascii c in
  (if (65 <=? n) && (n <=? 90) then Some (n - 65)
   else if (50 <=? n) && (n <=? 55) then Some (n - 24)
   else None)%N.

Definition value_char (v : N) : ascii :=
  (if v <? 26 then ascii_of_N (v + 65) else ascii_of_N (v + 24))%N.

(** The [width] low bits of [n], the highest first. *)
Fixpoint bits_of (width : nat) (n : N) : list bool :=
  match width with
  | O => []
  | S w => N.testbit n (N.of_nat w) :: bits_of w n
  end.

Definition N_of_bits (bs : list bool) : N :=
  fold_left (fun acc (b : bool) => 2 * acc + (if b then 1 else 0))%N bs 0%N.

(** The bits cut in groups of [k]; the last group may be shorter. *)
Fixpoint chunks (fuel k : nat) (bs : list bool) : list (list bool) :=
  match fuel, bs with
  | O, _ | _, [] => []
  | S f, _ => firstn k bs :: chunks f k (skipn k bs)
  end.

Fixpoint values_of_string (s : string) : option (list N) :=
  match s with
  | EmptyString => Some []
  | String c r =>
      match char_value c, values_of_string r with
      | Some v, Some vs => Some (v :: vs)
      | _, _ => None
      end
  end.

Definition pad (k : nat) (bs : list bool) : list bool :=
  (bs ++ repeat false (k - List.length bs))%list.

Definition base32_encode (data : list byte) : string :=
  let bits := flat_map (fun b => bits_of 8 (Byte.to_N b)) data in
  string_of_list_ascii
    (map (fun g => value_char (N_of_bits (pad 5 g)))
         (chunks (List.length bits) 5 bits)).

Definition base32_decode (s : string) : option (list byte) :=
  match values_of_string s with
  | Some vs =>
      let bits := flat_map (bits_of 5) vs in
      Some (map (fun g => Buffer.byte_of_N (N_of_bits g))
                (filter (fun g => Nat.eqb (List.length g) 8)
                        (chunks (List.length bits) 8 bits)))
  | None => None
  end.

Definition crc16_bit (crc : N) : N :=
  (if N.testbit crc 15
   then N.lxor (N.shiftl crc 1) 4129 mod 65536
   else N.shiftl crc 1 mod 65536)%N.

Definition crc16_byte (crc : N) (b : byte) : N :=
  Nat.iter 8 crc16_bit (N.lxor crc (N.shiftl (Byte.to_N b) 8)).

Definition crc16 (data : list byte) : N := fold_left crc16_byte data 0%N.

Definition encodeCheck (data : list byte) : string :=
  let payload := Buffer.byte_of_N versionByte :: data in
  let crc := crc16 payload in
  base32_encode
    (payload ++ [Buffer.byte_of_N (crc mod 256); Buffer.byte_of_N (crc / 256)])%list.

Definition decodeCheck (text : string) : option (list byte) :=
  match base32_decode text with
  | Some (v :: rest) =>
      let data := firstn (List.length rest - 2) rest in
      if (Byte.to_N v =? versionByte)%N
         && Nat.eqb (List.length data) 32
         && (encodeCheck data =? text)%string
      then Some data else None
  | _ => None
  end.

Definition codec : StrKey.Codec :=
  {| StrKey.decodeEd25519PublicKey := decodeCheck;
     StrKey.encodeEd25519PublicKey := encodeCheck |}.

(** Two members in each enumeration. *)
Definition enums : xdr.Enums :=
  {| xdr.AccountType_byValue := [0; 1];
     xdr.SignerType_byValue := [0; 1] |}.

(** The built-ins of [Account], on the integers written in decimal. *)
Definition builtins : Account.Builtins :=
  {| Account.parseInt := fun x =>
       match x with
       | JsString s =>
           match Digits.span_digits s with
           | (d :: ds, _) => Number.Int (Digits.of_digits (d :: ds))
           | _ => Number.NaN
           end
       | _ => Number.NaN
       end;
     Account.Number_toString := fun n =>
       match n with
       | Number.Int z => Digits.Z_to_string z
       | _ => "NaN"
       end |}.

End StrictCodec.

(** * The vocabulary of the statements *)

(** ** Digits and numbers *)

(** The value of decimal digits, the lowest first. *)
Definition of_le (ds : list Z) : Z := fold_right (fun d acc => d + 10 * acc) 0 ds.

(** A decimal digit. *)
Definition is_digit (d : Z) : Prop := 0 <= d <= 9.

(** What may follow the digits without being read with them. *)
Definition ends_number (rest : string) : Prop :=
  match rest with
  | EmptyString => True
  | String c _ =>
      Digits.digit_of_ascii c = None
      /\ c <> "."%char /\ c <> "e"%char /\ c <> "E"%char
  end.

(** Read as [_checkUnsignedIntValue] reads it: a number, or a string through
    [parseFloat]. *)
Definition to_number (x : JsValue) : option Number.t :=
  match x with
  | JsNumber n => Some n
  | JsString s => Some (Number.parseFloat s)
  | _ => None
  end.

(** A flag, weight or threshold as [_checkUnsignedIntValue] hands it on: a
    string is replaced by the number [parseFloat] reads in it. *)
Definition read_uint (value : JsValue) : JsValue :=
  match value with
  | JsString s => JsNumber (Number.parseFloat s)
  | _ => value
  end.

(** ** Amounts *)

(** The checks of [isValidAmount], on the decimal the string was read as. *)
Definition amount_checks (amount : BigNumber.t) (allowZero : bool) : bool :=
  if negb allowZero && BigNumber.isZero amount then false
  else if BigNumber.isNegative amount then false
  else if BigNumber.greaterThan (BigNumber.times amount Operation.ONE) Operation.max_int64 then false
  else if match BigNumber.decimalPlaces amount with
          | Some dp => 7 <? dp
          | None => false
          end then false
  else if negb (BigNumber.isFinite amount) then false
  else if BigNumber.isNaN amount then false
  else true.

(** [x] is finite and stands for the rational [q]. *)
Definition denotes (x : BigNumber.t) (q : Q) : Prop :=
  match BigNumber.value x with
  | Some v => v == q
  | None => False
  end.

(** The amounts the spec describes: a string read as a finite decimal
    [n / 10^7] with [0 <= n <= 9223372036854775807], [n] not zero unless
    [allowZero]. *)
Definition described_amount (value : JsValue) (allowZero : bool) : Prop :=
  exists s x n,
    value = JsString s
    /\ BigNumber.of_string s = Some x
    /\ denotes x (n # 10000000)
    /\ 0 <= n <= 9223372036854775807
    /\ (allowZero = true \/ n <> 0).

(** A string read as a finite decimal above zero. *)
Definition positive_amount (value : JsValue) : Prop :=
  exists s x q,
    value = JsString s /\ BigNumber.of_string s = Some x /\ denotes x q /\ (0 < q)%Q.

(** A string read as an integer. *)
Definition decimal_integer (value : JsValue) : Prop :=
  exists s x n,
    value = JsString s /\ BigNumber.of_string s = Some x /\ denotes x (inject_Z n).

(** BigNumber's rendering of the decimal a string is read as. *)
Definition canonical_amount (value : JsValue) : JsValue :=
  match value with
  | JsString s =>
      match BigNumber.of_string s with
      | Some x => JsString (BigNumber.toString x)
      | None => value
      end
  | _ => value
  end.

(** ** Options *)

Section OptionsVocabulary.

Context `{StrKey.Codec} `{xdr.Enums}.

(** The optional source account: absent or empty, or a valid address. *)
Definition source_ok (opts : obj) : Prop :=
  truthy (get "source" opts) = false
  \/ StrKey.isValidEd25519PublicKey (get "source" opts) = true.

(** The checks of [setOptions] that come before the signer. *)
Definition options_pass (opts : obj) : Prop :=
  (truthy (get "inflationDest" opts) = false
   \/ StrKey.isValidEd25519PublicKey (get "inflationDest" opts) = true)
  /\ succeeds (Operation._checkUnsignedIntValue "clearFlags" (get "clearFlags" opts) None)
  /\ succeeds (Operation._checkUnsignedIntValue "setFlags" (get "setFlags" opts) None)
  /\ succeeds (Operation._checkUnsignedIntValue "masterWeight" (get "masterWeight" opts)
                 (Some Operation.weightCheckFunction))
  /\ succeeds (Operation._checkUnsignedIntValue "lowThreshold" (get "lowThreshold" opts)
                 (Some Operation.weightCheckFunction))
  /\ succeeds (Operation._checkUnsignedIntValue "medThreshold" (get "medThreshold" opts)
                 (Some Operation.weightCheckFunction))
  /\ succeeds (Operation._checkUnsignedIntValue "highThreshold" (get "highThreshold" opts)
                 (Some Operation.weightCheckFunction))
  /\ (isUndefined (get "homeDomain" opts) = true \/ isString (get "homeDomain" opts) = true).

(** The checks on the signer that come before its hashes. *)
Definition signer_passes (signer : JsValue) : Prop :=
  succeeds (Operation._checkUnsignedIntValue "signer.weight" (prop signer "weight")
              (Some Operation.weightCheckFunction))
  /\ Operation._isValidSignerType (prop signer "signerType") = true
  /\ (truthy (prop signer "ed25519PublicKey") = false
      \/ StrKey.isValidEd25519PublicKey (prop signer "ed25519PublicKey") = true).

End OptionsVocabulary.

(** The options C4 describes: a name of at most 64 bytes and a value that is
    a string or a buffer of at most 64 bytes, or absent. *)
Definition described_manageData (opts : obj) : Prop :=
  (exists n, get "name" opts = JsString n
             /\ (List.length (Buffer.from_string n) <= 64)%nat)
  /\ (get "value" opts = JsUndefined \/ get "value" opts = JsNull
      \/ (exists b, get "value" opts = JsBuffer b /\ (List.length b <= 64)%nat)
      \/ (exists s, get "value" opts = JsString s
                    /\ (List.length (Buffer.from_string s) <= 64)%nat)).

(** An unsigned integer in 0..255. *)
Definition is_weight (x : JsValue) : Prop :=
  exists z, to_number x = Some (Number.Int z) /\ 0 <= z <= 255.

(** How many of the three key fields of a signer are set. *)
Definition keys_set (signer : JsValue) : nat :=
  (if truthy (prop signer "ed25519PublicKey") then 1 else 0)
  + (if truthy (prop signer "preAuthTx") then 1 else 0)
  + (if truthy (prop signer "sha256Hash") then 1 else 0).

(** The signers C3 describes: exactly one key field set, a weight that is an
    unsigned integer in 0..255, a recognised type. *)
Definition described_signer `{xdr.Enums} (signer : JsValue) : Prop :=
  keys_set signer = 1%nat
  /\ is_weight (prop signer "weight")
  /\ xdr.has xdr.SignerType_byValue (prop signer "signerType") = true.

(** A signer hash as [setOptions] hands it on: a string is replaced by the
    bytes its hexadecimal digits stand for. *)
Definition read_hash (value : JsValue) : JsValue :=
  match value with
  | JsString s => JsBuffer (Buffer.from_hex s)
  | _ => value
  end.

(** A data value as [manageData] hands it on: a string is replaced by its
    UTF-8 bytes. *)
Definition read_data (value : JsValue) : JsValue :=
  match value with
  | JsString s => JsBuffer (Buffer.from_string s)
  | _ => value
  end.

(** ** Decoded records *)

(** The source of a decoded operation: present when the options gave one. *)
Definition decoded_source (opts : obj) : obj :=
  if truthy (get "source" opts) then [("source", get "source" opts)] else [].

(** The signer of a decoded [setOptions] operation. *)
Definition decoded_signer (signer : JsValue) : obj :=
  ((if truthy (prop signer "sha256Hash")
   then [("sha256Hash", read_hash (prop signer "sha256Hash"))]
   else if truthy (prop signer "preAuthTx")
   then [("preAuthTx", read_hash (prop signer "preAuthTx"))]
   else [("ed25519PublicKey", prop signer "ed25519PublicKey")])
  ++ [("weight", read_uint (prop signer "weight"));
      ("signerType", prop signer "signerType")])%list.

Definition decoded_setOptions (opts : obj) : obj :=
  (decoded_source opts
  ++ [("type", JsString "setOptions")]
  ++ (if truthy (get "inflationDest" opts)
      then [("inflationDest", get "inflationDest" opts)] else [])
  ++ [("clearFlags", read_uint (get "clearFlags" opts));
      ("setFlags", read_uint (get "setFlags" opts));
      ("masterWeight", read_uint (get "masterWeight" opts));
      ("lowThreshold", read_uint (get "lowThreshold" opts));
      ("medThreshold", read_uint (get "medThreshold" opts));
      ("highThreshold", read_uint (get "highThreshold" opts));
      ("homeDomain", get "homeDomain" opts)]
  ++ (if truthy (get "signer" opts)
      then [("signer", JsObject (decoded_signer (get "signer" opts)))] else []))%list.

(** The wire integer of an operation that carries one amount. *)
Definition wire_amount (op : xdr.Operation.t) : option Z :=
  match xdr.Operation.body op with
  | xdr.createAccount v => Some (xdr.CreateAccountOp.startingBalance v)
  | xdr.emission v => Some (xdr.EmissionOp.amount v)
  | xdr.settlement v => Some (xdr.SettlementOp.amount v)
  | xdr.payment v => Some (xdr.PaymentOp.amount v)
  | xdr.spendFee v => Some (xdr.SpendFeeOp.amount v)
  | _ => None
  end.

(** ** Inputs of the examples *)

(** The address of the examples. *)
Definition test_address : string :=
  "GCEZWKCA5VLDNRLN3RPRJMRZOX3Z6G5CHCGSNFHEYVXM3XOJMDS674JZ".

(** A signer with a key and a type, and no weight. *)
Definition signer_without_weight : obj :=
  [("signer",
    JsObject
      [("ed25519PublicKey",
        JsString "GDGU5OAPHNPU5UCLE5RDJHG7PXZFQYWKCFOEXSXNMR6KRQRI5T6XXCD7");
       ("signerType", JsNumber (Number.Int 0))])].

(** A signer with a key, a type and a weight. *)
Definition signer_with_weight : obj :=
  [("signer",
    JsObject
      [("ed25519PublicKey",
        JsString "GDGU5OAPHNPU5UCLE5RDJHG7PXZFQYWKCFOEXSXNMR6KRQRI5T6XXCD7");
       ("signerType", JsNumber (Number.Int 0));
       ("weight", JsNumber (Number.Int 1))])].

(** A signer whose hash is given in hexadecimal, two bytes long. *)
Definition signer_with_short_hash : obj :=
  [("signer",
    JsObject
      [("preAuthTx", JsString "abcd");
       ("signerType", JsNumber (Number.Int 0));
       ("weight", JsNumber (Number.Int 1))])].

(** The payment of the example. *)
Definition payment_example : obj :=
  [("destination", JsString test_address); ("amount", JsString "1000")].

(** A payment whose amount is written with a trailing zero. *)
Definition payment_trailing_zero : obj :=
  [("destination", JsString test_address); ("amount", JsString "1.0")].

(** ** Accounts *)

(** The sequence stands for a number that the next call makes one more. *)
Definition increases_by_one (a : Account.t) : Prop :=
  exists q,
    denotes (Account.sequence a) q
    /\ denotes (Account.sequence (Account.incrementSequenceNumber a)) (q + 1).

(** An account as [new Account(address, "Infinity", 100)] builds it. *)
Definition infinite_account : Account.t :=
  {| Account._accountId := JsString test_address;
     Account.sequence := BigNumber.bnInfinity false;
     Account.baseFee := Number.Int 100 |}.

(** An account as [new Account(address, "5", 100)] builds it. *)
Definition account_five : Account.t :=
  {| Account._accountId := JsString test_address;
     Account.sequence := BigNumber.bnFinite false 5 0;
     Account.baseFee := Number.Int 100 |}.

(** ** Further vocabulary *)

(** Read as a non-negative integer. *)
Definition is_unsigned (x : JsValue) : Prop :=
  exists z, to_number x = Some (Number.Int z) /\ 0 <= z.

(** The wire integer [n] is the amount [value] in stroops. *)
Definition in_stroops (value : JsValue) (n : Z) : Prop :=
  exists s x,
    value = JsString s /\ BigNumber.of_string s = Some x /\ denotes x (n # 10000000).

(** What a call of [setOptions] may have done to the options [o], which are
    [o'] after it: nothing outside the signer, and in the signer nothing
    but a hash given as a string replaced by the bytes its hexadecimal
    digits stand for. *)
Definition hashes_decoded (o o' : obj) : Prop :=
  (forall k, k <> "signer" -> get k o' = get k o)
  /\ (forall k,
        prop (get "signer" o') k = prop (get "signer" o) k
        \/ ((k = "preAuthTx" \/ k = "sha256Hash")
            /\ exists s,
                 prop (get "signer" o) k = JsString s
                 /\ prop (get "signer" o') k = JsBuffer (Buffer.from_hex s)))
  /\ (isString (prop (get "signer" o) "preAuthTx") = false ->
      isString (prop (get "signer" o) "sha256Hash") = false ->
      o' = o).

(** The computation [m] takes options to options that [P] relates to
    them, whether it returns or throws. *)
Definition keeps (P : obj -> obj -> Prop) {A : Type} (m : Operation.M A) : Prop :=
  forall o, P o (fst (m o)).

(** The options [setOptions] takes, the signer and the source apart: an
    inflation destination that is absent or a valid address, flags that are
    absent or non-negative integers, a master weight and thresholds that are
    absent or integers in 0..255, a home domain that is absent or a
    string. *)
Definition described_options `{StrKey.Codec} (opts : obj) : Prop :=
  (truthy (get "inflationDest" opts) = false
   \/ StrKey.isValidEd25519PublicKey (get "inflationDest" opts) = true)
  /\ (get "clearFlags" opts = JsUndefined \/ is_unsigned (get "clearFlags" opts))
  /\ (get "setFlags" opts = JsUndefined \/ is_unsigned (get "setFlags" opts))
  /\ (get "masterWeight" opts = JsUndefined \/ is_weight (get "masterWeight" opts))
  /\ (get "lowThreshold" opts = JsUndefined \/ is_weight (get "lowThreshold" opts))
  /\ (get "medThreshold" opts = JsUndefined \/ is_weight (get "medThreshold" opts))
  /\ (get "highThreshold" opts = JsUndefined \/ is_weight (get "highThreshold" opts))
  /\ (get "homeDomain" opts = JsUndefined \/ isString (get "homeDomain" opts) = true).

(** The signers [setOptions] takes: a weight that is absent or an integer in
    0..255, a type of the enumeration, exactly one key field set, and that
    one a valid address or a hash of 32 bytes, given as a buffer or in
    hexadecimal. *)
Definition accepted_signer `{StrKey.Codec} `{xdr.Enums} (signer : JsValue) : Prop :=
  (prop signer "weight" = JsUndefined \/ is_weight (prop signer "weight"))
  /\ xdr.has xdr.SignerType_byValue (prop signer "signerType") = true
  /\ keys_set signer = 1%nat
  /\ (truthy (prop signer "ed25519PublicKey") = true ->
      StrKey.isValidEd25519PublicKey (prop signer "ed25519PublicKey") = true)
  /\ (forall which,
        which = "preAuthTx" \/ which = "sha256Hash" ->
        truthy (prop signer which) = true ->
        exists b, read_hash (prop signer which) = JsBuffer b
                  /\ List.length b = 32%nat).

(** The operations [fromXDRObject] knows how to read: any arm but an
    unknown one, the signer of a [setOption], if there is one, with a
    key. *)
Definition decodable (op : xdr.Operation.t) : Prop :=
  match xdr.Operation.body op with
  | xdr.otherArm _ => False
  | xdr.setOption v =>
      match xdr.SetOptionsOp.signer v with
      | Some s => xdr.Signer.key s <> None
      | None => True
      end
  | _ => True
  end.

(** The [type] field of the record an operation is decoded to. *)
Definition type_name (body : xdr.OperationBody) : string :=
  match body with
  | xdr.createAccount _ => "createAccount"
  | xdr.emission _ => "emission"
  | xdr.settlement _ => "settlement"
  | xdr.payment _ => "payment"
  | xdr.setOption _ => "setOptions"
  | xdr.accountMerge _ => "accountMerge"
  | xdr.manageDatum _ => "manageData"
  | xdr.setFee _ => "setFee"
  | xdr.spendFee _ => "spendFee"
  | xdr.restrictAccount _ => "restrictAccount"
  | xdr.otherArm name => name
  end.

(** A string of binary digits. *)
Definition bit_string (s : string) : Prop :=
  Forall (fun c => c = "0"%char \/ c = "1"%char) (list_ascii_of_string s).

(** The [k]th group of [w] characters of [s]. *)
Definition chunk (w : nat) (s : string) (k : nat) : string :=
  substring (k * w) w s.

(** A word a phrase can hold: it has no blank in it. *)
Definition no_blank (w : string) : Prop :=
  ~ In " "%char (list_ascii_of_string w).

(** The strings of a list, one after the other. *)
Definition flat (l : list string) : string := fold_right append EmptyString l.

(** The eight binary digits of a byte. *)
Definition byte8 (b : byte) : string := Js.pad 8 (Js.toString2 (Byte.to_N b)).

(** The eleven binary digits of the index of a word. *)
Definition word11 (wordlist : list string) (w : string) : string :=
  Js.pad 11 (Js.toString2 (Z.to_N (Js.indexOf wordlist w))).

(** A word list a phrase can be written in and read back from: 2048 words
    or more, no two of them the same, none with a blank in it. *)
Definition usable (wordlist : list string) : Prop :=
  NoDup wordlist /\ (2048 <= List.length wordlist)%nat /\ Forall no_blank wordlist.

(** The bytes the groups of eight bits of [bin] write, the first [n] of
    them. *)
Definition bytes_of (bin : string) (n : nat) : list byte :=
  map (fun j => Buffer.byte_of_N (Js.read_bits (chunk 8 bin j) 0)) (seq 0 n).

(** The words the groups of eleven bits of [bin] choose, the first [n] of
    them. *)
Definition words_of (wordlist : list string) (bin : string) (n : nat) : list string :=
  map (fun j => nth (N.to_nat (Js.read_bits (chunk 11 bin j) 0)) wordlist EmptyString)
      (seq 0 n).

(** Every word of [s] is in the list. *)
Definition known_words (wordlist : list string) (s : string) : Prop :=
  Forall (fun w => In w wordlist) (Js.split " " s).

(** Decoding what [encodeSeed] wrote gives the bytes back. *)
Definition seed_codec_inverse `{MnemonicApi.SeedCodec} : Prop :=
  forall raw, MnemonicApi.decodeSeed (MnemonicApi.encodeSeed raw) = Ok raw.

(** ** A small environment to run the mnemonic code in

    2048 words that are ["w"] and the binary digits of their index, a
    function in the place of the hash that returns 32 bytes, no
    normalisation, and seeds written byte by byte. *)

Module Sample.

Definition word (n : nat) : string := String "w" (Js.toString2 (N.of_nat n)).

Definition words : list string := map word (seq 0 2048).

Definition hash (data : list byte) : list byte :=
  firstn 32 (rev data ++ repeat Byte.x2a 32)%list.

Definition env : Mnemonic.Env :=
  {| Mnemonic.hash := hash;
     Mnemonic.nfkd := fun s => s;
     Mnemonic.Words := [("ENGLISH", words)] |}.

Definition seeds : MnemonicApi.SeedCodec :=
  {| MnemonicApi.decodeSeed := fun s => Ok (list_byte_of_string s);
     MnemonicApi.encodeSeed := string_of_list_byte |}.

Definition entropy : list byte := [Byte.x01; Byte.x02; Byte.x03; Byte.x04].

Definition phrase : string := "w1000 w10000000 w11000001000".

End Sample.

(** * Properties *)

(** ** The model on examples *)

Example of_string_1000 : BigNumber.of_string "1000" = Some (BigNumber.bnFinite false 1 3).
Proof. reflexivity. Qed.
Example of_string_frac : BigNumber.of_string "-0.1250" = Some (BigNumber.bnFinite true 125 (-3)).
Proof. reflexivity. Qed.
Example of_string_exp : BigNumber.of_string "1.5e3" = Some (BigNumber.bnFinite false 15 2).
Proof. reflexivity. Qed.
Example of_string_bad : BigNumber.of_string "1e" = None /\ BigNumber.of_string "." = None /\ BigNumber.of_string "test" = None /\ BigNumber.of_string "" = None /\ BigNumber.of_string "Nan" = None.
Proof. repeat split; reflexivity. Qed.
Example toString_ex : BigNumber.toString (BigNumber.bnFinite false 15 2) = "1500"
  /\ BigNumber.toString (BigNumber.bnFinite true 125 (-3)) = "-0.125"
  /\ BigNumber.toString (BigNumber.bnFinite false 1 (-7)) = "1e-7"
  /\ BigNumber.toString (BigNumber.bnFinite false 12345 (-2)) = "123.45"
  /\ BigNumber.toString (BigNumber.bnFinite false 12 20) = "1.2e+21".
Proof. repeat split; vm_compute; reflexivity. Qed.

Example codec_address :
  StrKey.isValidEd25519PublicKey (H := StrictCodec.codec)
    (JsString "GCEZWKCA5VLDNRLN3RPRJMRZOX3Z6G5CHCGSNFHEYVXM3XOJMDS674JZ") = true
  /\ StrKey.isValidEd25519PublicKey (H := StrictCodec.codec)
    (JsString "GCEZWKCA5VLDNRLN3RPRJMRZOX3Z6G5CHCGSNFHEYVXM3XOJMDS674JA") = false
  /\ StrKey.isValidEd25519PublicKey (H := StrictCodec.codec) (JsString "GCEZW") = false.
Proof. repeat split; vm_compute; reflexivity. Qed.

Example isValidAmount_examples :
  Operation.isValidAmount (JsString "922337203685.4775807") false = true
  /\ Operation.isValidAmount (JsString "922337203685.4775808") false = false
  /\ Operation.isValidAmount (JsString "0") false = false
  /\ Operation.isValidAmount (JsString "0") true = true
  /\ Operation.isValidAmount (JsString "0.12345678") false = false
  /\ Operation.isValidAmount (JsNumber (Number.Int 100)) false = false
  /\ Operation.isValidAmount (JsString "-0") true = false
  /\ Operation.isValidAmount (JsString "10") false = true
  /\ Operation.isValidAmount (JsString "0.10") false = true
  /\ Operation.isValidAmount (JsString "Infinity") false = false
  /\ Operation.isValidAmount (JsString "NaN") false = false
  /\ Operation.isValidAmount (JsString "-10.5") false = false
  /\ Operation.isValidAmount (JsString "test") false = false
  /\ Operation.isValidAmount (JsString "") false = false.
Proof. repeat split; vm_compute; reflexivity. Qed.

(** ** Decimal digits *)

Section DigitFacts.

Import Digits.

Lemma of_le_cons (d : Z) (l : list Z) : of_le (d :: l) = d + 10 * of_le l.
Proof. reflexivity. Qed.

Lemma of_digits_fold (ds : list Z) (a : Z) :
  fold_left (fun acc d => 10 * acc + d) ds a
  = a * 10 ^ Z.of_nat (List.length ds) + of_digits ds.
Proof.
  unfold of_digits. revert a.
  induction ds as [|d ds IH]; intros a; cbn [fold_left List.length].
  - rewrite Z.pow_0_r. lia.
  - rewrite IH. rewrite (IH (10 * 0 + d)).
    rewrite Nat2Z.inj_succ, Z.pow_succ_r by lia. ring.
Qed.

Lemma of_digits_app (xs ys : list Z) :
  of_digits (xs ++ ys) = of_digits xs * 10 ^ Z.of_nat (List.length ys) + of_digits ys.
Proof.
  unfold of_digits at 1. rewrite fold_left_app. rewrite of_digits_fold. reflexivity.
Qed.

Lemma of_digits_rev (l : list Z) : of_digits (rev l) = of_le l.
Proof.
  induction l as [|d l IH]; [reflexivity|].
  simpl rev. rewrite of_digits_app, IH.
  change (10 ^ Z.of_nat (List.length [d])) with 10.
  unfold of_le, of_digits. cbn [fold_left fold_right]. lia.
Qed.

Lemma of_digits_zeros (k : nat) : of_digits (repeat 0 k) = 0.
Proof.
  induction k as [|k IH]; [reflexivity|].
  change (repeat 0 (S k)) with ([0] ++ repeat 0 k)%list.
  rewrite of_digits_app, IH. reflexivity.
Qed.

Lemma div10_lt_pow2 (n : Z) (f : nat) :
  0 < n -> n < 2 ^ Z.of_nat (S f) -> 0 <= n / 10 < 2 ^ Z.of_nat f.
Proof.
  intros Hn Hb. rewrite Nat2Z.inj_succ, Z.pow_succ_r in Hb by lia.
  split; [apply Z.div_pos; lia|].
  apply Z.div_lt_upper_bound; lia.
Qed.

Lemma le_digits_value (fuel : nat) (n : Z) :
  0 <= n < 2 ^ Z.of_nat fuel -> of_le (le_digits fuel n) = n.
Proof.
  revert n. induction fuel as [|f IH]; intros n Hn.
  - simpl in *. lia.
  - simpl le_digits. destruct (Z.leb_spec n 0) as [H0|H0].
    + simpl. lia.
    + rewrite of_le_cons, IH by (apply div10_lt_pow2; lia).
      pose proof (Z.div_mod n 10). lia.
Qed.

Lemma le_digits_range (fuel : nat) (n : Z) :
  Forall is_digit (le_digits fuel n).
Proof.
  revert n. induction fuel as [|f IH]; intros n; simpl.
  - constructor.
  - destruct (n <=? 0); constructor; [|apply IH].
    unfold is_digit. pose proof (Z.mod_pos_bound n 10). lia.
Qed.

Lemma le_digits_fuel (f1 f2 : nat) (n : Z) :
  n < 2 ^ Z.of_nat f1 -> n < 2 ^ Z.of_nat f2 ->
  le_digits f1 n = le_digits f2 n.
Proof.
  revert f2 n. induction f1 as [|f1 IH]; intros f2 n H1 H2.
  - simpl in H1. destruct f2; simpl; [reflexivity|].
    destruct (Z.leb_spec n 0); [reflexivity|lia].
  - destruct f2 as [|f2].
    + simpl in H2. simpl. destruct (Z.leb_spec n 0); [reflexivity|lia].
    + simpl. destruct (Z.leb_spec n 0) as [H0|H0]; [reflexivity|].
      f_equal. apply IH; apply div10_lt_pow2; lia.
Qed.

Lemma fuel_for_enough (n : Z) : n < 2 ^ Z.of_nat (fuel_for n).
Proof.
  unfold fuel_for. destruct (Z.leb_spec n 0) as [H0|H0].
  - pose proof (Z.pow_pos_nonneg 2 (Z.of_nat (S (Z.to_nat (Z.log2 n))))). lia.
  - rewrite Nat2Z.inj_succ, Z2Nat.id by apply Z.log2_nonneg.
    apply Z.log2_spec. lia.
Qed.

Lemma digits_of_value (n : Z) : 0 <= n -> of_digits (digits_of n) = n.
Proof.
  intros Hn. unfold digits_of. rewrite of_digits_rev.
  apply le_digits_value. split; [lia|apply fuel_for_enough].
Qed.

Lemma digits_of_range (n : Z) : Forall is_digit (digits_of n).
Proof.
  unfold digits_of. apply Forall_rev, le_digits_range.
Qed.

Lemma le_digits_times10 (f : nat) (n : Z) :
  0 < n -> le_digits (S f) (10 * n) = 0 :: le_digits f n.
Proof.
  intros Hn. cbn [le_digits]. destruct (Z.leb_spec (10 * n) 0); [lia|].
  replace (10 * n) with (n * 10) by lia.
  rewrite Z.mod_mul, Z.div_mul by lia. reflexivity.
Qed.

Lemma digits_of_times10 (n : Z) :
  0 < n -> digits_of (10 * n) = (digits_of n ++ [0])%list.
Proof.
  intros Hn. unfold digits_of.
  pose proof (fuel_for_enough (10 * n)) as Hf.
  destruct (fuel_for (10 * n)) as [|f] eqn:E;
    [change (2 ^ Z.of_nat 0) with 1 in Hf; lia|].
  rewrite le_digits_times10 by lia. cbn [rev]. f_equal. f_equal.
  apply le_digits_fuel; [|apply fuel_for_enough].
  rewrite Nat2Z.inj_succ, Z.pow_succ_r in Hf by lia. lia.
Qed.

Lemma digits_of_shift (c : Z) (k : nat) :
  0 < c -> digits_of (c * 10 ^ Z.of_nat k) = (digits_of c ++ repeat 0 k)%list.
Proof.
  intros Hc. induction k as [|k IH].
  - simpl. rewrite Z.mul_1_r, app_nil_r. reflexivity.
  - rewrite Nat2Z.inj_succ, Z.pow_succ_r by lia.
    replace (c * (10 * 10 ^ Z.of_nat k)) with (10 * (c * 10 ^ Z.of_nat k)) by ring.
    rewrite digits_of_times10 by (pose proof (Z.pow_pos_nonneg 10 (Z.of_nat k)); nia).
    rewrite IH, <- app_assoc. f_equal.
    change [0] with (repeat 0 1). rewrite <- repeat_app.
    f_equal. lia.
Qed.

(** A positive integer lies between the powers of ten its number of digits
    gives. *)
Lemma le_digits_bounds (fuel : nat) (n : Z) :
  0 < n < 2 ^ Z.of_nat fuel ->
  10 ^ (Z.of_nat (List.length (le_digits fuel n)) - 1) <= n
  < 10 ^ Z.of_nat (List.length (le_digits fuel n)).
Proof.
  revert n. induction fuel as [|f IH]; intros n Hn.
  - simpl in Hn. lia.
  - simpl le_digits. destruct (Z.leb_spec n 0) as [H0|H0]; [lia|].
    simpl List.length. rewrite Nat2Z.inj_succ.
    replace (Z.succ (Z.of_nat (List.length (le_digits f (n / 10)))) - 1)
      with (Z.of_nat (List.length (le_digits f (n / 10)))) by lia.
    rewrite Z.pow_succ_r by lia.
    pose proof (Z.div_mod n 10) as Hdm. pose proof (Z.mod_pos_bound n 10) as Hm.
    destruct (Z.eq_dec (n / 10) 0) as [Hz|Hz].
    + rewrite Hz. destruct f; simpl; lia.
    + assert (Hq : 0 < n / 10 < 2 ^ Z.of_nat f).
      { pose proof (div10_lt_pow2 n f). lia. }
      specialize (IH _ Hq).
      set (len := Z.of_nat (List.length (le_digits f (n / 10)))) in *.
      assert (Hlen : 1 <= len).
      { unfold len. destruct f; [simpl in Hq; lia|]. simpl.
        destruct (Z.leb_spec (n / 10) 0); [lia|]. simpl List.length. lia. }
      replace len with (Z.succ (len - 1)) at 1 by lia.
      rewrite Z.pow_succ_r by lia. lia.
Qed.

Lemma digits_of_bounds (n : Z) :
  0 < n ->
  10 ^ (Z.of_nat (List.length (digits_of n)) - 1) <= n
  < 10 ^ Z.of_nat (List.length (digits_of n)).
Proof.
  intros Hn. unfold digits_of. rewrite length_rev.
  apply le_digits_bounds. split; [lia|apply fuel_for_enough].
Qed.

Lemma digits_of_nonempty (n : Z) : 0 < n -> (1 <= List.length (digits_of n))%nat.
Proof.
  intros Hn. unfold digits_of, fuel_for. rewrite length_rev. simpl.
  destruct (Z.leb_spec n 0); [lia|]. simpl. lia.
Qed.

(** *** Digits as characters *)

Lemma digit_of_to_ascii (d : Z) :
  is_digit d -> digit_of_ascii (digit_to_ascii d) = Some d.
Proof.
  intros [H0 H9].
  assert (E : d = 0 \/ d = 1 \/ d = 2 \/ d = 3 \/ d = 4 \/ d = 5 \/ d = 6
              \/ d = 7 \/ d = 8 \/ d = 9) by lia.
  repeat (destruct E as [E|E]; [subst d; reflexivity|]). subst d; reflexivity.
Qed.

Lemma string_of_list_ascii_app (a b : list ascii) :
  string_of_list_ascii (a ++ b) = (string_of_list_ascii a ++ string_of_list_ascii b)%string.
Proof.
  induction a as [|c a IH]; [reflexivity|]. simpl. now rewrite IH.
Qed.

Lemma digits_to_string_app (xs ys : list Z) :
  digits_to_string (xs ++ ys) = (digits_to_string xs ++ digits_to_string ys)%string.
Proof.
  unfold digits_to_string. now rewrite map_app, string_of_list_ascii_app.
Qed.

Lemma digits_to_string_zeros (k : nat) :
  digits_to_string (repeat 0 k) = zeros (Z.of_nat k).
Proof.
  unfold digits_to_string, zeros. rewrite Nat2Z.id.
  induction k as [|k IH]; [reflexivity|]. simpl. now rewrite IH.
Qed.

Lemma digits_to_string_length (ds : list Z) :
  String.length (digits_to_string ds) = List.length ds.
Proof.
  unfold digits_to_string. induction ds as [|d ds IH]; [reflexivity|].
  simpl. now rewrite IH.
Qed.

Lemma span_digits_string (ds : list Z) :
  Forall is_digit ds -> span_digits (digits_to_string ds) = (ds, EmptyString).
Proof.
  unfold digits_to_string.
  induction 1 as [|d ds Hd _ IH]; [reflexivity|].
  cbn [map string_of_list_ascii span_digits].
  now rewrite digit_of_to_ascii, IH.
Qed.

(** A character that is a digit is none of the letters and signs the
    parsers look for. *)
Lemma digit_char_cases (c : ascii) (d : Z) :
  digit_of_ascii c = Some d ->
  c <> "-"%char /\ c <> "+"%char /\ c <> "I"%char /\ c <> "N"%char
  /\ c <> "."%char /\ c <> "e"%char /\ c <> "E"%char
  /\ Number.is_whitespace c = false.
Proof.
  destruct c as [[] [] [] [] [] [] [] []]; cbv; intros E;
    try discriminate E; repeat split; discriminate.
Qed.

End DigitFacts.

(** ** bignumber.js *)

Section BigNumberFacts.

Import BigNumber.

Lemma pow10_pos (k : Z) : 0 <= k -> 0 < 10 ^ k.
Proof. intros. apply Z.pow_pos_nonneg; lia. Qed.

Lemma pow10_times_mod (c k : Z) : 0 < k -> (c * 10 ^ k) mod 10 = 0.
Proof.
  intros Hk. replace k with (Z.succ (k - 1)) by lia.
  rewrite Z.pow_succ_r by lia.
  replace (c * (10 * 10 ^ (k - 1))) with (c * 10 ^ (k - 1) * 10) by ring.
  apply Z.mod_mul. lia.
Qed.

(** A positive integer is in one way only a multiple of a power of ten by
    an integer that ten does not divide. *)
Lemma strip_unique (c1 k1 c2 k2 : Z) :
  0 <= k1 -> 0 <= k2 -> c1 mod 10 <> 0 -> c2 mod 10 <> 0 ->
  c1 * 10 ^ k1 = c2 * 10 ^ k2 -> c1 = c2 /\ k1 = k2.
Proof.
  assert (W : forall a i b j, 0 <= i <= j -> a mod 10 <> 0 -> b mod 10 <> 0 ->
              a * 10 ^ i = b * 10 ^ j -> a = b /\ i = j).
  { intros a i b j Hij Ha Hb E.
    replace j with ((j - i) + i) in E by lia.
    rewrite Z.pow_add_r in E by lia.
    assert (E' : a = b * 10 ^ (j - i)).
    { pose proof (pow10_pos i). nia. }
    destruct (Z.eq_dec i j) as [->|Hne].
    - rewrite Z.sub_diag, Z.pow_0_r in E'. lia.
    - exfalso. apply Ha. rewrite E'. apply pow10_times_mod. lia. }
  intros H1 H2 Hc1 Hc2 E.
  destruct (Z.le_ge_cases k1 k2) as [Hle|Hle].
  - apply W; auto.
  - destruct (W c2 k2 c1 k1) as [-> ->]; auto; lia.
Qed.

Lemma strip_zeros_spec (fuel : nat) (c e : Z) :
  0 < c < 2 ^ Z.of_nat fuel ->
  exists c' k,
    strip_zeros fuel c e = (c', e + k)
    /\ 0 <= k /\ 0 < c' /\ c' mod 10 <> 0 /\ c = c' * 10 ^ k.
Proof.
  revert c e. induction fuel as [|f IH]; intros c e Hc.
  - change (2 ^ Z.of_nat 0) with 1 in Hc. lia.
  - cbn [strip_zeros]. destruct (Z.ltb_spec 0 c) as [_|]; [|lia].
    destruct (Z.eqb_spec (c mod 10) 0) as [Hm|Hm]; cbn [andb].
    + pose proof (Z.div_mod c 10) as Hdm.
      assert (Hq : 0 < c / 10 < 2 ^ Z.of_nat f).
      { pose proof (div10_lt_pow2 c f). lia. }
      destruct (IH (c / 10) (e + 1) Hq) as (c' & k & E & Hk & Hc' & Hm' & Hv).
      exists c', (k + 1). rewrite E. repeat split; try lia.
      * f_equal. lia.
      * rewrite Z.pow_add_r, Z.pow_1_r by lia. lia.
    + exists c, 0. rewrite Z.add_0_r, Z.pow_0_r. repeat split; lia.
Qed.

Lemma strip_zeros_shift (c k e : Z) :
  0 < c -> c mod 10 <> 0 -> 0 <= k ->
  strip_zeros (Digits.fuel_for (c * 10 ^ k)) (c * 10 ^ k) e = (c, e + k).
Proof.
  intros Hc Hm Hk.
  destruct (strip_zeros_spec (Digits.fuel_for (c * 10 ^ k)) (c * 10 ^ k) e)
    as (c' & k' & E & Hk' & Hc' & Hm' & Hv).
  { split; [pose proof (pow10_pos k); nia|apply fuel_for_enough]. }
  destruct (strip_unique c k c' k') as [-> ->]; auto.
Qed.

(** What [normalise] returns. *)
Lemma normalise_cases (neg : bool) (n e : Z) :
  (n <= 0 /\ normalise neg n e = bnFinite neg 0 0)
  \/ exists c k,
       0 < c /\ c mod 10 <> 0 /\ 0 <= k /\ n = c * 10 ^ k
       /\ ((MAX_EXP < exponent c (e + k) /\ normalise neg n e = bnInfinity neg)
           \/ (exponent c (e + k) < MIN_EXP /\ normalise neg n e = bnFinite neg 0 0)
           \/ (MIN_EXP <= exponent c (e + k) <= MAX_EXP
               /\ normalise neg n e = bnFinite neg c (e + k))).
Proof.
  unfold normalise. destruct (Z.leb_spec n 0) as [Hn|Hn]; [left; auto|right].
  destruct (strip_zeros_spec (Digits.fuel_for n) n e)
    as (c & k & E & Hk & Hc & Hm & Hv).
  { split; [lia|apply fuel_for_enough]. }
  exists c, k. rewrite E. repeat (split; [assumption|]).
  fold (exponent c (e + k)).
  destruct (Z.ltb_spec MAX_EXP (exponent c (e + k))); [left; auto|].
  destruct (Z.ltb_spec (exponent c (e + k)) MIN_EXP); [right; left; auto|].
  right; right; split; [lia|reflexivity].
Qed.

Lemma normalise_wf (neg : bool) (n e : Z) : wf (normalise neg n e).
Proof.
  destruct (normalise_cases neg n e)
    as [[_ ->]|(c & k & Hc & Hm & Hk & Hv & [[_ ->]|[[_ ->]|[Hr ->]]])];
    simpl; auto.
Qed.

(** [normalise] on a multiple of a power of ten. *)
Lemma normalise_shift (neg : bool) (c k e : Z) :
  0 < c -> c mod 10 <> 0 -> 0 <= k ->
  MIN_EXP <= exponent c (e + k) <= MAX_EXP ->
  normalise neg (c * 10 ^ k) e = bnFinite neg c (e + k).
Proof.
  intros Hc Hm Hk Hr. unfold normalise.
  destruct (Z.leb_spec (c * 10 ^ k) 0) as [Hn|Hn];
    [pose proof (pow10_pos k); nia|].
  rewrite strip_zeros_shift by assumption.
  fold (exponent c (e + k)).
  destruct (Z.ltb_spec MAX_EXP (exponent c (e + k))); [lia|].
  destruct (Z.ltb_spec (exponent c (e + k)) MIN_EXP); [lia|]. reflexivity.
Qed.

Lemma normalise_stripped (neg : bool) (c e : Z) :
  0 < c -> c mod 10 <> 0 -> MIN_EXP <= exponent c e <= MAX_EXP ->
  normalise neg c e = bnFinite neg c e.
Proof.
  intros Hc Hm Hr.
  pose proof (normalise_shift neg c 0 e Hc Hm (Z.le_refl 0)) as E.
  rewrite Z.pow_0_r, Z.mul_1_r, Z.add_0_r in E. auto.
Qed.

Lemma ndigits_pos (c : Z) : 0 < c -> 1 <= ndigits c.
Proof.
  intros Hc. unfold ndigits. pose proof (digits_of_nonempty c Hc). lia.
Qed.

Lemma ndigits_bounds (c : Z) :
  0 < c -> 10 ^ (ndigits c - 1) <= c < 10 ^ ndigits c.
Proof. apply digits_of_bounds. Qed.

Lemma ndigits_upper (c b : Z) : 0 < c -> 0 <= b -> c < 10 ^ b -> ndigits c <= b.
Proof.
  intros Hc Hb Hlt. pose proof (ndigits_bounds c Hc) as [Hlo _].
  pose proof (ndigits_pos c Hc).
  destruct (Z.le_gt_cases (ndigits c) b) as [|Hgt]; [assumption|exfalso].
  assert (10 ^ b <= 10 ^ (ndigits c - 1)) by (apply Z.pow_le_mono_r; lia).
  lia.
Qed.

Lemma normalise_stripped_cases (neg : bool) (c e : Z) :
  0 < c -> c mod 10 <> 0 ->
  normalise neg c e =
    if MAX_EXP <? exponent c e then bnInfinity neg
    else if exponent c e <? MIN_EXP then bnFinite neg 0 0
    else bnFinite neg c e.
Proof.
  intros Hc Hm. unfold normalise.
  destruct (Z.leb_spec c 0); [lia|].
  pose proof (strip_zeros_shift c 0 e Hc Hm (Z.le_refl 0)) as E.
  rewrite Z.pow_0_r, Z.mul_1_r, Z.add_0_r in E. rewrite E. reflexivity.
Qed.

Lemma of_string_wf (s : string) (x : t) : of_string s = Some x -> wf x.
Proof.
  unfold of_string. destruct (parse_sign s) as [neg s1].
  destruct (s1 =? "Infinity")%string; [intros [= <-]; exact I|].
  destruct (s1 =? "NaN")%string; [intros [= <-]; exact I|].
  destruct (Digits.span_digits s1) as [ip s2].
  destruct (Digits.fraction_part s2) as [fp s3].
  destruct ip, fp; try discriminate;
    (destruct (parse_exponent s3); [intros [= <-]; apply normalise_wf|discriminate]).
Qed.

(** The exponent of a coefficient below [10^b]. *)
Lemma exponent_upper (c e b : Z) :
  0 < c -> 0 <= e -> 0 <= b -> c * 10 ^ e < 10 ^ b -> exponent c e < b.
Proof.
  intros Hc He Hb Hlt. unfold exponent.
  pose proof (ndigits_bounds c Hc) as [Hlo _].
  pose proof (ndigits_pos c Hc) as Hn.
  destruct (Z.lt_ge_cases (e + ndigits c - 1) b) as [|Hge]; [assumption|exfalso].
  assert (H1 : 10 ^ b <= 10 ^ (e + (ndigits c - 1))) by (apply Z.pow_le_mono_r; lia).
  rewrite Z.pow_add_r in H1 by lia.
  pose proof (pow10_pos e He). nia.
Qed.

Lemma exponent_lower (c e : Z) : 0 < c -> e <= exponent c e.
Proof. intros Hc. unfold exponent. pose proof (ndigits_pos c Hc). lia. Qed.

End BigNumberFacts.

(** ** Amounts *)

Section AmountFacts.

Import BigNumber.

Lemma ONE_eq : Operation.ONE = bnFinite false 1 7.
Proof. reflexivity. Qed.

Lemma max_int64_eq : Operation.max_int64 = bnFinite false 9223372036854775807 0.
Proof. vm_compute. reflexivity. Qed.

Lemma isValidAmount_string (s : string) (allowZero : bool) :
  Operation.isValidAmount (JsString s) allowZero =
    match of_string s with
    | Some amount => amount_checks amount allowZero
    | None => false
    end.
Proof. reflexivity. Qed.

Lemma isValidAmount_is_string (value : JsValue) (allowZero : bool) :
  Operation.isValidAmount value allowZero = true -> exists s, value = JsString s.
Proof. destruct value; try discriminate. eauto. Qed.

(** An accepted amount is a whole number of stroops within the range of a
    signed 64-bit integer, and conversely. *)
Lemma amount_checks_finite (c e : Z) (neg allowZero : bool) :
  wf (bnFinite neg c e) ->
  amount_checks (bnFinite neg c e) allowZero = true <->
  neg = false /\ (allowZero = true \/ c <> 0) /\ -7 <= e
  /\ c * 10 ^ (e + 7) <= 9223372036854775807.
Proof.
  intros Hwf. unfold amount_checks. rewrite ONE_eq, max_int64_eq.
  cbn [isZero isNegative isFinite isNaN decimalPlaces negb].
  destruct Hwf as [[-> ->]|(Hc & Hm & Hr)].
  - (* zero *)
    destruct allowZero, neg; cbn; split; intros H; try discriminate; try reflexivity;
      try (repeat split; auto; lia);
      try (destruct H as (H1 & H2 & _); try discriminate; destruct H2; congruence).
  - destruct (Z.eqb_spec c 0) as [|_]; [lia|].
    rewrite andb_false_r.
    destruct neg.
    { split; [discriminate|intros [H _]; discriminate]. }
    cbn [times xorb]. destruct (Z.eqb_spec c 0) as [|_]; [lia|]. cbn [orb Z.eqb].
    rewrite Z.mul_1_r, normalise_stripped_cases by assumption.
    assert (Hx : exponent c (e + 7) = exponent c e + 7) by (unfold exponent; lia).
    rewrite Hx.
    destruct (Z.ltb_spec MAX_EXP (exponent c e + 7)) as [Hov|Hov].
    { (* the product overflows *)
      cbn. split; [discriminate|]. intros (_ & _ & He & Hle). exfalso.
      assert (exponent c (e + 7) < 19).
      { apply exponent_upper; lia. }
      unfold MAX_EXP in Hov. lia. }
    destruct (Z.ltb_spec (exponent c e + 7) MIN_EXP) as [Hun|_]; [lia|].
    unfold greaterThan, compare, align, signed.
    destruct (Z.ltb_spec 7 (Z.max 0 (- e))) as [Hdp|Hdp].
    { (* more than seven decimal places *)
      destruct (_ ?= _); (split; [discriminate|intros (_ & _ & He & _); lia]). }
    assert (He : -7 <= e) by lia.
    rewrite Z.min_r by lia.
    rewrite !Z.sub_0_r, Z.pow_0_r, Z.mul_1_r.
    destruct (Z.compare_spec (c * 10 ^ (e + 7)) 9223372036854775807) as [E|E|E];
      (split;
       [intros H; try discriminate H; repeat split; try lia; right; lia
       |intros (_ & _ & _ & Hle); try reflexivity; lia]).
Qed.

(** *** The rational read *)

Lemma scaled_stroops (c e n : Z) :
  (c = 0 /\ e = 0) \/ (0 < c /\ c mod 10 <> 0) ->
  scaled c e == n # 10000000 <-> -7 <= e /\ n = c * 10 ^ (e + 7).
Proof.
  intros Hwf. unfold scaled, Qeq.
  destruct (Z.leb_spec 0 e) as [He|He]; cbn [Qnum Qden inject_Z].
  - rewrite Z.pow_add_r by lia. change (10 ^ 7) with 10000000.
    change (Z.pos 10000000) with 10000000. lia.
  - rewrite Z2Pos.id by (apply pow10_pos; lia).
    change (Z.pos 10000000) with (10 ^ 7).
    destruct Hwf as [[-> ->]|[Hc Hm]]; [lia|].
    destruct (Z.le_gt_cases (-7) e) as [H7|H7].
    + replace 7 with ((e + 7) + (- e)) at 1 by lia.
      rewrite Z.pow_add_r by lia.
      pose proof (pow10_pos (- e)). split.
      * intros E. split; [assumption|]. nia.
      * intros [_ ->]. ring.
    + split; [|lia]. intros E. exfalso. apply Hm.
      replace (- e) with ((- e - 7) + 7) in E by lia.
      rewrite Z.pow_add_r in E by lia.
      assert (E' : c = n * 10 ^ (- e - 7)) by (pose proof (pow10_pos 7); nia).
      rewrite E'. apply pow10_times_mod. lia.
Qed.

Lemma amount_checks_not_finite (x : t) (allowZero : bool) :
  isFinite x = false -> amount_checks x allowZero = false.
Proof.
  destruct x as [|neg|neg c e]; [destruct allowZero; reflexivity| |discriminate].
  intros _. unfold amount_checks. rewrite ONE_eq, max_int64_eq.
  destruct allowZero, neg; reflexivity.
Qed.

End AmountFacts.

(** The amounts [isValidAmount] accepts. *)
Lemma isValidAmount_accepts (value : JsValue) (allowZero : bool) :
  Operation.isValidAmount value allowZero = true <->
  exists s x n,
    value = JsString s
    /\ BigNumber.of_string s = Some x
    /\ BigNumber.isNegative x = false
    /\ denotes x (n # 10000000)
    /\ 0 <= n <= 9223372036854775807
    /\ (allowZero = true \/ n <> 0).
Proof.
  split.
  - intros Hv. destruct (isValidAmount_is_string _ _ Hv) as [s ->].
    rewrite isValidAmount_string in Hv.
    destruct (BigNumber.of_string s) as [x|] eqn:Es; [|discriminate].
    pose proof (of_string_wf _ _ Es) as Hwf.
    destruct x as [|neg|neg c e];
      try (rewrite amount_checks_not_finite in Hv by reflexivity; discriminate).
    apply amount_checks_finite in Hv; [|assumption].
    destruct Hv as (-> & Hz & He & Hle).
    exists s, (BigNumber.bnFinite false c e), (c * 10 ^ (e + 7)).
    assert (Hc : 0 <= c) by (destruct Hwf as [[-> _]|[? _]]; lia).
    assert (Hw : (c = 0 /\ e = 0) \/ (0 < c /\ c mod 10 <> 0))
      by (destruct Hwf as [?|(? & ? & _)]; auto).
    repeat split; auto.
    + unfold denotes. cbn [BigNumber.value BigNumber.signed].
      apply scaled_stroops; auto.
    + pose proof (pow10_pos (e + 7)). nia.
    + destruct Hz as [Hz|Hz]; [left; assumption|right].
      pose proof (pow10_pos (e + 7)). nia.
  - intros (s & x & n & -> & Es & Hneg & Hd & Hn & Hz).
    rewrite isValidAmount_string, Es.
    pose proof (of_string_wf _ _ Es) as Hwf.
    destruct x as [|neg|neg c e]; try contradiction.
    cbn [BigNumber.isNegative] in Hneg. subst neg.
    unfold denotes in Hd. cbn [BigNumber.value BigNumber.signed] in Hd.
    assert (Hw : (c = 0 /\ e = 0) \/ (0 < c /\ c mod 10 <> 0))
      by (destruct Hwf as [?|(? & ? & _)]; auto).
    apply scaled_stroops in Hd; [|assumption]. destruct Hd as [He ->].
    apply amount_checks_finite; [assumption|].
    repeat split; auto; try lia.
    destruct Hz as [Hz|Hz]; [left; assumption|right].
    intros ->. apply Hz. ring.
Qed.



(** ** Accounts *)

(** C10: [incrementSequenceNumber] leaves the account id and the base fee
    as they are, however often it is called. *)
Theorem incrementSequenceNumber_frame `{Account.Builtins} (a : Account.t) (k : nat) :
  Account.accountId (Nat.iter k Account.incrementSequenceNumber a) = Account.accountId a
  /\ Account.baseFeeValue (Nat.iter k Account.incrementSequenceNumber a)
     = Account.baseFeeValue a
  /\ Account.baseFee (Nat.iter k Account.incrementSequenceNumber a) = Account.baseFee a.
Proof.
  induction k as [|k (IH1 & IH2 & IH3)]; [repeat split|].
  cbn [Nat.iter]. unfold Account.accountId, Account.baseFeeValue in *.
  cbn [Account.incrementSequenceNumber Account._accountId Account.baseFee].
  auto.
Qed.

(** ** Unsigned integers *)

Section NumberFacts.

Import Number.

Lemma div_nearest_even_one (n : Z) : div_nearest_even n 1 = n.
Proof.
  unfold div_nearest_even. rewrite Z.mod_1_r, Z.div_1_r. reflexivity.
Qed.

Lemma reduce_times_pow2 (a : Z) (k : nat) : reduce (a * 2 ^ Z.of_nat k) k = Int a.
Proof.
  induction k as [|k IH].
  - cbn [reduce]. now rewrite Z.pow_0_r, Z.mul_1_r.
  - cbn [reduce]. rewrite Nat2Z.inj_succ, Z.pow_succ_r by lia.
    replace (a * (2 * 2 ^ Z.of_nat k)) with (2 * (a * 2 ^ Z.of_nat k)) by ring.
    rewrite Z.even_mul. cbn [Z.even orb].
    replace (2 * (a * 2 ^ Z.of_nat k)) with (a * 2 ^ Z.of_nat k * 2) by ring.
    rewrite Z.div_mul by lia. exact IH.
Qed.

(** An integer below [2^53] is a double. *)
Lemma of_decimal_exact (n : Z) :
  0 <= n < 2 ^ 53 -> of_decimal false n 0 = Int n.
Proof.
  intros [H0 Hb]. unfold of_decimal.
  destruct (Z.leb_spec n 0) as [|Hn]; [f_equal; lia|].
  cbn [Z.leb]. rewrite Z.pow_0_r, Z.mul_1_r. unfold of_ratio.
  change (Z.log2 1) with 0. rewrite Z.sub_0_r.
  pose proof (Z.log2_nonneg n) as HL.
  pose proof (Z.log2_spec n Hn) as [Hlo Hhi].
  assert (HL52 : Z.log2 n < 53).
  { apply Z.log2_lt_pow2; lia. }
  destruct (Z.leb_spec 0 (Z.log2 n)) as [_|]; [|lia].
  rewrite Z.mul_1_l. destruct (Z.ltb_spec n (2 ^ Z.log2 n)) as [|_]; [lia|].
  rewrite Z.max_l by lia.
  destruct (Z.leb_spec 0 (Z.log2 n - 52)) as [He|He].
  - assert (E : Z.log2 n - 52 = 0) by lia. rewrite E.
    rewrite Z.pow_0_r, Z.mul_1_l, div_nearest_even_one, Z.mul_1_r.
    cbn [Z.ltb Z.eqb orb andb signed]. reflexivity.
  - rewrite Z.mul_1_l, div_nearest_even_one.
    destruct (Z.ltb_spec 971 (Z.log2 n - 52)) as [|_]; [lia|].
    destruct (Z.eqb_spec (Z.log2 n - 52) 971) as [|_]; [lia|].
    cbn [orb andb signed].
    replace (- (Z.log2 n - 52)) with (Z.of_nat (Z.to_nat (- (Z.log2 n - 52)))) at 1
      by (rewrite Z2Nat.id; lia).
    apply reduce_times_pow2.
Qed.

Lemma trim_left_digit (c : ascii) (d : Z) (r : string) :
  Digits.digit_of_ascii c = Some d -> trim_left (String c r) = String c r.
Proof.
  intros H. cbn [trim_left].
  now destruct (digit_char_cases c d H) as (_ & _ & _ & _ & _ & _ & _ & ->).
Qed.

Lemma span_digits_app (ds : list Z) (rest : string) :
  Forall is_digit ds -> ends_number rest ->
  Digits.span_digits (Digits.digits_to_string ds ++ rest) = (ds, rest).
Proof.
  intros Hds Hrest. unfold Digits.digits_to_string.
  induction Hds as [|d ds Hd _ IH].
  - cbn. destruct rest as [|c r]; [reflexivity|].
    cbn [Digits.span_digits]. destruct Hrest as [-> _]. reflexivity.
  - cbn [map string_of_list_ascii append Digits.span_digits].
    now rewrite digit_of_to_ascii, IH.
Qed.

Lemma parse_sign_digit (c : ascii) (d : Z) (r : string) :
  Digits.digit_of_ascii c = Some d -> parse_sign (String c r) = (false, String c r).
Proof.
  intros H. destruct (digit_char_cases c d H) as (Hm & Hp & _).
  destruct c as [[] [] [] [] [] [] [] []]; try reflexivity; congruence.
Qed.

Lemma prefix_Infinity_digit (c : ascii) (d : Z) (r : string) :
  Digits.digit_of_ascii c = Some d -> String.prefix "Infinity" (String c r) = false.
Proof.
  intros H. destruct (digit_char_cases c d H) as (_ & _ & HI & _).
  cbn [String.prefix]. destruct (ascii_dec "I" c) as [e|_]; [congruence|reflexivity].
Qed.

Lemma fraction_part_end (rest : string) :
  ends_number rest -> Digits.fraction_part rest = ([], rest).
Proof.
  destruct rest as [|c r]; [reflexivity|]. intros (_ & Hdot & _).
  destruct c as [[] [] [] [] [] [] [] []]; try reflexivity; congruence.
Qed.

Lemma exponent_prefix_end (rest : string) :
  ends_number rest -> exponent_prefix rest = 0.
Proof.
  destruct rest as [|c r]; [reflexivity|]. intros (_ & _ & He1 & He2).
  cbn [exponent_prefix].
  destruct (Ascii.eqb_spec c "e"); [congruence|].
  destruct (Ascii.eqb_spec c "E"); [congruence|]. reflexivity.
Qed.

(** [parseFloat] reads the digits at the head of a string and stops at what
    is not part of a number. *)
Lemma parseFloat_prefix (n : Z) (rest : string) :
  0 <= n < 2 ^ 53 -> ends_number rest ->
  parseFloat (Digits.nat_to_string n ++ rest) = Int n.
Proof.
  intros Hn Hrest.
  assert (Hds : exists d ds,
             Digits.nat_to_string n = Digits.digits_to_string (d :: ds)
             /\ Forall is_digit (d :: ds) /\ Digits.of_digits (d :: ds) = n).
  { unfold Digits.nat_to_string. destruct (Z.leb_spec n 0) as [H0|H0].
    - exists 0, []. repeat split; [repeat constructor; unfold is_digit; lia|].
      assert (n = 0) by lia. subst. reflexivity.
    - pose proof (digits_of_nonempty n H0) as Hne.
      pose proof (digits_of_range n) as Hr.
      pose proof (digits_of_value n (Z.lt_le_incl _ _ H0)) as Hv.
      destruct (Digits.digits_of n) as [|d ds]; [simpl in Hne; lia|].
      exists d, ds. auto. }
  destruct Hds as (d & ds & E & Hr & Hv). rewrite E.
  unfold parseFloat.
  assert (Hd : Digits.digit_of_ascii (Digits.digit_to_ascii d) = Some d)
    by (apply digit_of_to_ascii; now inversion Hr).
  change (Digits.digits_to_string (d :: ds) ++ rest)%string
    with (String (Digits.digit_to_ascii d) (Digits.digits_to_string ds ++ rest)).
  rewrite (trim_left_digit _ d), (parse_sign_digit _ d), (prefix_Infinity_digit _ d)
    by assumption.
  change (String (Digits.digit_to_ascii d) (Digits.digits_to_string ds ++ rest))
    with (Digits.digits_to_string (d :: ds) ++ rest)%string.
  rewrite span_digits_app, fraction_part_end, exponent_prefix_end by assumption.
  rewrite app_nil_r, Hv. cbn [List.length Z.of_nat Z.sub].
  apply of_decimal_exact. assumption.
Qed.

End NumberFacts.

(** C8: [_checkUnsignedIntValue] answers [undefined] on [undefined] and the
    integer on a non-negative integer, given as a number or as a string of
    digits; it throws on a negative, fractional or non-finite number; a
    string is what [parseFloat] reads in it, so digits followed by other
    characters are taken for the digits. *)
Theorem checkUnsignedIntValue_spec `{StrKey.Codec} `{xdr.Enums} :
  (forall name f, Operation._checkUnsignedIntValue name JsUndefined f = Ok JsUndefined)
  /\ (forall name z, 0 <= z ->
        Operation._checkUnsignedIntValue name (JsNumber (Number.Int z)) None
        = Ok (JsNumber (Number.Int z)))
  /\ (forall name z, 0 <= z < 2 ^ 53 ->
        Operation._checkUnsignedIntValue name (JsString (Digits.nat_to_string z)) None
        = Ok (JsNumber (Number.Int z)))
  /\ (exists op,
        snd (Operation.setOptions [("setFlags", JsString "4")]) = Ok op
        /\ exists v, xdr.Operation.body op = xdr.setOption v
                     /\ xdr.SetOptionsOp.setFlags v = JsNumber (Number.Int 4))
  /\ (forall name s f,
        Operation._checkUnsignedIntValue name (JsString s) f
        = Operation._checkUnsignedIntValue name (JsNumber (Number.parseFloat s)) f)
  /\ (forall name n f,
        Number.ltZ n 0 = true \/ Number.mod1_is_zero n = false
        \/ Number.isFinite n = false ->
        fails (Operation._checkUnsignedIntValue name (JsNumber n) f))
  /\ fails (Operation._checkUnsignedIntValue "setFlags" (JsString "-10") None)
  /\ fails (Operation._checkUnsignedIntValue "setFlags" (JsString "0.5") None)
  /\ fails (Operation._checkUnsignedIntValue "setFlags" (JsString "Infinity") None)
  /\ (forall name z rest, 0 <= z < 2 ^ 53 -> ends_number rest ->
        Operation._checkUnsignedIntValue name
          (JsString (Digits.nat_to_string z ++ rest)) None
        = Ok (JsNumber (Number.Int z)))
  /\ Operation._checkUnsignedIntValue "setFlags" (JsString "4x") None
     = Ok (JsNumber (Number.Int 4)).
Proof.
  assert (Hint : forall name z, 0 <= z ->
            Operation._checkUnsignedIntValue name (JsNumber (Number.Int z)) None
            = Ok (JsNumber (Number.Int z))).
  { intros name z Hz. unfold Operation._checkUnsignedIntValue.
    cbn [isUndefined Number.isFinite Number.mod1_is_zero negb orb Number.ltZ].
    destruct (Z.ltb_spec z 0); [lia|reflexivity]. }
  assert (Hpre : forall name z rest, 0 <= z < 2 ^ 53 -> ends_number rest ->
            Operation._checkUnsignedIntValue name
              (JsString (Digits.nat_to_string z ++ rest)) None
            = Ok (JsNumber (Number.Int z))).
  { intros name z rest Hz Hrest.
    change (Operation._checkUnsignedIntValue name
              (JsString (Digits.nat_to_string z ++ rest)) None)
      with (Operation._checkUnsignedIntValue name
              (JsNumber (Number.parseFloat (Digits.nat_to_string z ++ rest))) None).
    rewrite parseFloat_prefix by assumption. apply Hint. lia. }
  split; [reflexivity|].
  split; [exact Hint|].
  split.
  { intros name z Hz. specialize (Hpre name z EmptyString Hz I).
    rewrite <- Hpre. f_equal. f_equal.
    clear. induction (Digits.nat_to_string z); [reflexivity|]. simpl. now f_equal. }
  split.
  { eexists. split; [reflexivity|]. eexists. split; reflexivity. }
  split; [reflexivity|].
  split.
  { intros name n f [Hn|[Hn|Hn]]; unfold Operation._checkUnsignedIntValue;
      cbn [isUndefined]; destruct n; cbn in Hn |- *; try discriminate Hn;
      try (eexists; reflexivity); rewrite ?Hn; eexists; reflexivity. }
  split; [eexists; vm_compute; reflexivity|].
  split; [eexists; vm_compute; reflexivity|].
  split; [eexists; vm_compute; reflexivity|].
  split; [exact Hpre|vm_compute; reflexivity].
Qed.

(** ** The builders *)

Lemma bind_Ok {A B : Type} (r : Result A) (k : A -> Result B) (b : B) :
  bind r k = Ok b <-> exists a, r = Ok a /\ k a = Ok b.
Proof.
  destruct r as [a|msg]; cbn [bind]; split.
  - eauto.
  - now intros (a' & [= <-] & E).
  - discriminate.
  - now intros (a' & [=] & _).
Qed.

Lemma guard_Ok (b : bool) (msg : string) (u : unit) : guard b msg = Ok u <-> b = true.
Proof. destruct b, u; cbn; split; congruence. Qed.

Lemma succeeds_bind {A B : Type} (r : Result A) (k : A -> Result B) :
  succeeds (bind r k) <-> exists a, r = Ok a /\ succeeds (k a).
Proof.
  unfold succeeds. split.
  - intros [b E]. apply bind_Ok in E. destruct E as (a & Ea & Eb). eauto.
  - intros (a & Ea & b & Eb). exists b. apply bind_Ok. eauto.
Qed.

Lemma succeeds_guard (b : bool) (msg : string) {B : Type} (k : unit -> Result B) :
  succeeds (bind (guard b msg) k) <-> b = true /\ succeeds (k tt).
Proof.
  destruct b; cbn; [tauto|]. split; [intros [? [=]]|intros [[=] _]].
Qed.

Lemma not_succeeds_fails {A : Type} (r : Result A) : fails r <-> ~ succeeds r.
Proof.
  unfold fails, succeeds. destruct r as [a|msg]; split.
  - intros [? [=]].
  - intros Hn. exfalso. apply Hn. eauto.
  - intros _ [? [=]].
  - eauto.
Qed.

Section BuilderFacts.

Context `{StrKey.Codec} `{xdr.Enums}.

Lemma isValid_xdrAccountId (x : JsValue) :
  StrKey.isValidEd25519PublicKey x = true ->
  exists s raw, x = JsString s /\ StrKey.decodeEd25519PublicKey s = Some raw
                /\ Keypair.xdrAccountId x = Ok raw.
Proof.
  unfold StrKey.isValidEd25519PublicKey, Keypair.xdrAccountId.
  destruct x as [| | | |s| | |]; try discriminate.
  destruct (StrKey.decodeEd25519PublicKey s) as [raw|] eqn:E; [|discriminate].
  intros _. exists s, raw. auto.
Qed.

Lemma setSourceAccount_succeeds (opts : obj) :
  succeeds (Operation.setSourceAccount opts) <-> source_ok opts.
Proof.
  unfold Operation.setSourceAccount, source_ok.
  destruct (truthy (get "source" opts)).
  - rewrite succeeds_guard. split.
    + intros [Hv _]. auto.
    + intros [[=]|Hv]. split; [assumption|].
      destruct (isValid_xdrAccountId _ Hv) as (s & raw & _ & _ & ->).
      cbn. eexists; reflexivity.
  - split; [auto|]. intros _. eexists; reflexivity.
Qed.

Lemma new_Operation_succeeds (body : xdr.OperationBody) (opts : obj) :
  succeeds (Operation.new_Operation body opts) <-> source_ok opts.
Proof.
  unfold Operation.new_Operation. rewrite succeeds_bind, <- setSourceAccount_succeeds.
  split.
  - intros (a & -> & _). eexists; reflexivity.
  - intros [a ->]. exists a. split; [reflexivity|eexists; reflexivity].
Qed.

Lemma new_Operation_body (body : xdr.OperationBody) (opts : obj) (op : xdr.Operation.t) :
  Operation.new_Operation body opts = Ok op -> xdr.Operation.body op = body.
Proof.
  unfold Operation.new_Operation. intros E. apply bind_Ok in E.
  destruct E as (src & _ & [= <-]). reflexivity.
Qed.

End BuilderFacts.

(** *** [manageData] *)

(** C4, as stated, fails on options with no value: the builder throws. *)
Lemma manageData_absent_value :
  ~ (succeeds (Operation.manageData (H := StrictCodec.codec) [("name", JsString "name")])
     <-> described_manageData [("name", JsString "name")]).
Proof.
  intros [_ Hs].
  assert (Hd : described_manageData [("name", JsString "name")]).
  { split; [exists "name"; split; [reflexivity|cbn; lia]|left; reflexivity]. }
  destruct (Hs Hd) as [op E]. discriminate E.
Qed.

Lemma manageData_name_ok (name : JsValue) :
  isString name && (Buffer.length name <=? 64) = true
  <-> exists n, name = JsString n /\ (String.length n <= 64)%nat.
Proof.
  destruct name as [| | | |n| | |]; cbn [isString andb Buffer.length];
    try solve [split; [discriminate|intros (n' & [=] & _)]].
  destruct (Z.leb_spec (Z.of_nat (String.length n)) 64); split; try discriminate.
  - intros _. exists n. split; [reflexivity|lia].
  - reflexivity.
  - intros (n' & [= <-] & Hn). lia.
Qed.

Lemma manageData_value_ok (value : JsValue) :
  (value = JsNull
   \/ (exists b, value = JsBuffer b /\ (List.length b <= 64)%nat)
   \/ (exists s, value = JsString s
                 /\ (List.length (Buffer.from_string s) <= 64)%nat))
  <->
  negb (negb (isString value) && negb (Buffer.isBuffer value) && negb (isNull value))
  = true
  /\ negb (negb (isNull match value with
                        | JsString s => JsBuffer (Buffer.from_string s)
                        | _ => value
                        end)
           && (64 <? Buffer.length match value with
                                   | JsString s => JsBuffer (Buffer.from_string s)
                                   | _ => value
                                   end)) = true.
Proof.
  destruct value as [| | | |s|b| |];
    cbn [isString Buffer.isBuffer isNull negb andb Buffer.length];
    try solve [split; [intros [[=]|[(? & [=] & _)|(? & [=] & _)]]|intros [[=] _]]].
  - split; auto.
  - destruct (Z.ltb_spec 64 (Z.of_nat (List.length (Buffer.from_string s)))); split.
    + intros [[=]|[(? & [=] & _)|(s' & [= <-] & Hs)]]. lia.
    + intros [_ [=]].
    + auto.
    + intros _. right; right. exists s. split; [reflexivity|lia].
  - destruct (Z.ltb_spec 64 (Z.of_nat (List.length b))); split.
    + intros [[=]|[(b' & [= <-] & Hb)|(? & [=] & _)]]. lia.
    + intros [_ [=]].
    + auto.
    + intros _. right; left. exists b. split; [reflexivity|lia].
Qed.

(** C4, amended: [manageData] succeeds exactly when the name is a string of
    at most 64 characters, the value is [null], a buffer of at most 64 bytes
    or a string of at most 64 bytes in UTF-8, and the source, when given, is
    a valid address; a [null] value is kept as the data value and an omitted
    one is refused. *)
Theorem manageData_spec `{StrKey.Codec} (opts : obj) :
  (succeeds (Operation.manageData opts) <->
   (exists n, get "name" opts = JsString n /\ (String.length n <= 64)%nat)
   /\ (get "value" opts = JsNull
       \/ (exists b, get "value" opts = JsBuffer b /\ (List.length b <= 64)%nat)
       \/ (exists s, get "value" opts = JsString s
                     /\ (List.length (Buffer.from_string s) <= 64)%nat))
   /\ source_ok opts)
  /\ (forall op, Operation.manageData opts = Ok op -> get "value" opts = JsNull ->
        exists v, xdr.Operation.body op = xdr.manageDatum v
                  /\ xdr.ManageDataOp.dataValue v = JsNull)
  /\ (get "value" opts = JsUndefined -> fails (Operation.manageData opts))
  /\ (fails (Operation.manageData opts) <-> ~ succeeds (Operation.manageData opts)).
Proof.
  split; [|split; [|split]].
  - unfold Operation.manageData.
    rewrite succeeds_guard, succeeds_guard, succeeds_guard, new_Operation_succeeds.
    pose proof (manageData_name_ok (get "name" opts)) as Hn.
    pose proof (manageData_value_ok (get "value" opts)) as Hv.
    tauto.
  - intros op E Hnull. unfold Operation.manageData in E.
    repeat (apply bind_Ok in E; destruct E as (? & _ & E)).
    rewrite Hnull in E. injection E as <-.
    eexists. split; reflexivity.
  - intros Hu. unfold Operation.manageData. rewrite Hu.
    destruct (guard _ _); cbn; eexists; reflexivity.
  - apply not_succeeds_fails.
Qed.

(** ** [setOptions] *)

Lemma get_set_same (k : string) (v : JsValue) (o : obj) : get k (set k v o) = v.
Proof.
  induction o as [|[k' v'] o IH]; cbn [set get].
  - now rewrite String.eqb_refl.
  - destruct (String.eqb_spec k k') as [->|Hne]; cbn [get].
    + now rewrite String.eqb_refl.
    + destruct (String.eqb_spec k k'); [contradiction|assumption].
Qed.

Lemma get_set_other (k k' : string) (v : JsValue) (o : obj) :
  k <> k' -> get k' (set k v o) = get k' o.
Proof.
  intros Hne. induction o as [|[k0 v0] o IH]; cbn [set get].
  - destruct (String.eqb_spec k' k); [congruence|reflexivity].
  - destruct (String.eqb_spec k k0) as [->|Hk]; cbn [get].
    + destruct (String.eqb_spec k' k0); [congruence|reflexivity].
    + destruct (String.eqb_spec k' k0); [reflexivity|assumption].
Qed.

Lemma prop_set_prop_same (x : JsValue) (k : string) (v : JsValue) :
  prop x k <> JsUndefined -> prop (set_prop x k v) k = v.
Proof.
  destruct x; cbn [prop set_prop]; intros Hp; try congruence.
  apply get_set_same.
Qed.

Lemma prop_set_prop_other (x : JsValue) (k k' : string) (v : JsValue) :
  k <> k' -> prop (set_prop x k v) k' = prop x k'.
Proof.
  intros Hne. destruct x; cbn [prop set_prop]; try reflexivity.
  now apply get_set_other.
Qed.

Section SetOptionsFacts.

Context `{StrKey.Codec} `{xdr.Enums}.

Lemma mbind_inv {A B : Type} (m : Operation.M A) (k : A -> Operation.M B) (o o2 : obj) (b : B) :
  Operation.mbind m k o = (o2, Ok b) ->
  exists a o1, m o = (o1, Ok a) /\ k a o1 = (o2, Ok b).
Proof.
  unfold Operation.mbind. destruct (m o) as [o1 [a|msg]]; [eauto|discriminate].
Qed.

Lemma read_inv (k : string) (o o1 : obj) (a : JsValue) :
  Operation.read k o = (o1, Ok a) -> o1 = o /\ a = get k o.
Proof. now intros [= <- <-]. Qed.

Lemma read_signer_inv (k : string) (o o1 : obj) (a : JsValue) :
  Operation.read_signer k o = (o1, Ok a) -> o1 = o /\ a = prop (get "signer" o) k.
Proof. now intros [= <- <-]. Qed.

Lemma lift_inv {A : Type} (r : Result A) (o o1 : obj) (a : A) :
  Operation.lift r o = (o1, Ok a) -> o1 = o /\ r = Ok a.
Proof. unfold Operation.lift. now intros [= <- ->]. Qed.

Lemma ret_inv {A : Type} (x : A) (o o1 : obj) (a : A) :
  Operation.ret x o = (o1, Ok a) -> o1 = o /\ a = x.
Proof. now intros [= <- <-]. Qed.

Ltac minv E :=
  let a := fresh "a" in
  let o := fresh "o" in
  let E1 := fresh "E" in
  apply mbind_inv in E; destruct E as (a & o & E1 & E);
  first [ apply read_inv in E1; destruct E1 as [-> ->]
        | apply read_signer_inv in E1; destruct E1 as [-> ->]
        | apply lift_inv in E1; destruct E1 as [-> E1]
        | idtac ].

(** The part of the options [signer_hash] leaves as it is. *)
Lemma signer_hash_inv (which : string) (o o1 : obj) (h : JsValue) :
  Operation.signer_hash which o = (o1, Ok h) ->
  (forall k, k <> "signer" -> get k o1 = get k o)
  /\ (forall k, k <> which -> prop (get "signer" o1) k = prop (get "signer" o) k)
  /\ exists b, h = JsBuffer b /\ List.length b = 32%nat.
Proof.
  unfold Operation.signer_hash. intros E.
  minv E.
  apply mbind_inv in E. destruct E as (u & o2 & E1 & E).
  minv E. minv E. apply ret_inv in E. destruct E as [-> ->].
  apply guard_Ok in E0. apply andb_prop in E0. destruct E0 as [Hb Hl].
  assert (Ho2 : (forall k, k <> "signer" -> get k o2 = get k o)
                /\ (forall k, k <> which -> prop (get "signer" o2) k = prop (get "signer" o) k)).
  { destruct (prop (get "signer" o) which) eqn:Ep;
      try (apply ret_inv in E1; destruct E1 as [-> _]; split; reflexivity).
    unfold Operation.assign_signer in E1. injection E1 as <- _. split.
    - intros k Hk. apply get_set_other. congruence.
    - intros k Hk. rewrite get_set_same. apply prop_set_prop_other. congruence. }
  destruct Ho2 as [Hg Hp]. repeat split; auto.
  destruct (prop (get "signer" o2) which); try discriminate Hb.
  exists bytes. split; [reflexivity|]. cbn [Buffer.length] in Hl.
  apply Z.eqb_eq in Hl. lia.
Qed.

Lemma check_weight_inv (name : string) (w r : JsValue) :
  Operation._checkUnsignedIntValue name w (Some Operation.weightCheckFunction) = Ok r ->
  w = JsUndefined \/ is_weight w.
Proof.
  unfold Operation._checkUnsignedIntValue, is_weight.
  destruct w as [| | |n|s| | |]; cbn [isUndefined]; try discriminate; auto; intros E; right.
  - destruct n as [|neg|z|m k]; try discriminate E.
    cbn [Number.isFinite Number.mod1_is_zero negb orb Number.ltZ] in E.
    destruct (Z.ltb_spec z 0); [discriminate|].
    unfold Operation.weightCheckFunction in E. cbn [Number.geZ Number.leZ] in E.
    destruct (Z.leb_spec 0 z); [|discriminate].
    destruct (Z.leb_spec z 255); [|discriminate].
    exists z. split; [reflexivity|lia].
  - cbn [to_number]. destruct (Number.parseFloat s) as [|neg|z|m k]; try discriminate E.
    cbn [Number.isFinite Number.mod1_is_zero negb orb Number.ltZ] in E.
    destruct (Z.ltb_spec z 0); [discriminate|].
    unfold Operation.weightCheckFunction in E. cbn [Number.geZ Number.leZ] in E.
    destruct (Z.leb_spec 0 z); [|discriminate].
    destruct (Z.leb_spec z 255); [|discriminate].
    exists z. split; [reflexivity|lia].
Qed.

Lemma setOptions_signer_inv (opts o1 : obj) (sg : option xdr.Signer.t) :
  truthy (get "signer" opts) = true ->
  Operation.setOptions_signer opts = (o1, Ok sg) ->
  keys_set (get "signer" opts) = 1%nat
  /\ (prop (get "signer" opts) "weight" = JsUndefined
      \/ is_weight (prop (get "signer" opts) "weight"))
  /\ xdr.has xdr.SignerType_byValue (prop (get "signer" opts) "signerType") = true.
Proof.
  intros Hs E. unfold Operation.setOptions_signer in E.
  minv E. rewrite Hs in E.
  minv E. minv E. apply check_weight_inv in E0. rename E0 into Hw.
  minv E. minv E. apply guard_Ok in E0.
  apply negb_true_iff, orb_false_iff in E0. destruct E0 as [_ Hty].
  apply negb_false_iff in Hty.
  minv E.
  apply mbind_inv in E. destruct E as (st1 & oa & Ea & E).
  assert (H1 : oa = opts
               /\ snd st1 = if truthy (prop (get "signer" opts) "ed25519PublicKey")
                            then 1 else 0).
  { destruct (truthy (prop (get "signer" opts) "ed25519PublicKey")).
    - minv Ea. minv Ea. apply ret_inv in Ea. destruct Ea as [-> ->]. auto.
    - apply ret_inv in Ea. destruct Ea as [-> ->]. auto. }
  destruct H1 as [-> H1]. clear Ea.
  minv E.
  apply mbind_inv in E. destruct E as (st2 & ob & Eb & E).
  assert (H2 : (forall k, k <> "preAuthTx" ->
                  prop (get "signer" ob) k = prop (get "signer" opts) k)
               /\ snd st2 = snd st1 + if truthy (prop (get "signer" opts) "preAuthTx")
                                      then 1 else 0).
  { destruct (truthy (prop (get "signer" opts) "preAuthTx")).
    - apply mbind_inv in Eb. destruct Eb as (h & o' & Eh & Eb).
      apply ret_inv in Eb. destruct Eb as [-> ->].
      apply signer_hash_inv in Eh. destruct Eh as (_ & Hp & _). split; [exact Hp|reflexivity].
    - apply ret_inv in Eb. destruct Eb as [-> ->]. split; [reflexivity|lia]. }
  destruct H2 as [Hp H2]. clear Eb.
  minv E.
  apply mbind_inv in E. destruct E as (st3 & oc & Ec & E).
  rewrite (Hp "sha256Hash") in Ec by discriminate.
  assert (H3 : snd st3 = snd st2 + if truthy (prop (get "signer" opts) "sha256Hash")
                                   then 1 else 0).
  { destruct (truthy (prop (get "signer" opts) "sha256Hash")).
    - apply mbind_inv in Ec. destruct Ec as (h & o' & Eh & Ec).
      apply ret_inv in Ec. destruct Ec as [_ ->]. reflexivity.
    - apply ret_inv in Ec. destruct Ec as [_ ->]. lia. }
  minv E. apply guard_Ok, Z.eqb_eq in E0.
  split; [|split; assumption].
  unfold keys_set.
  destruct (truthy (prop (get "signer" opts) "ed25519PublicKey"));
    destruct (truthy (prop (get "signer" opts) "preAuthTx"));
    destruct (truthy (prop (get "signer" opts) "sha256Hash")); cbn; lia.
Qed.

(** A call of [setOptions] that returns has gone through [setOptions_signer]
    on the options it was given. *)
Lemma setOptions_inv (opts o2 : obj) (op : xdr.Operation.t) :
  Operation.setOptions opts = (o2, Ok op) ->
  exists sg, Operation.setOptions_signer opts = (o2, Ok sg).
Proof.
  intros E. unfold Operation.setOptions in E.
  minv E. minv E.
  assert (o = opts).
  { destruct (truthy (get "inflationDest" opts)).
    - minv E0. minv E0. apply ret_inv in E0. now destruct E0.
    - apply ret_inv in E0. now destruct E0. }
  subst o. clear E0.
  do 6 (minv E; minv E).
  minv E. minv E. minv E.
  injection E as <- _. eauto.
Qed.

(** *** The options after the call *)

Lemma mbind_step {A B : Type} (m : Operation.M A) (k : A -> Operation.M B)
    (o o1 : obj) (a : A) :
  m o = (o1, Ok a) -> Operation.mbind m k o = k a o1.
Proof. unfold Operation.mbind. now intros ->. Qed.

Lemma mbind_throw {A B : Type} (m : Operation.M A) (k : A -> Operation.M B)
    (o o1 : obj) (msg : string) :
  m o = (o1, Throw msg) -> Operation.mbind m k o = (o1, Throw msg).
Proof. unfold Operation.mbind. now intros ->. Qed.

Lemma lift_step {A : Type} (r : Result A) (a : A) (o : obj) :
  r = Ok a -> Operation.lift r o = (o, Ok a).
Proof. now intros ->. Qed.

(** What [signer_hash] does to the options, whether it returns or throws. *)
Lemma signer_hash_state (which : string) (o : obj) :
  fst (Operation.signer_hash which o) =
    match prop (get "signer" o) which with
    | JsString s =>
        set "signer" (set_prop (get "signer" o) which (JsBuffer (Buffer.from_hex s))) o
    | _ => o
    end.
Proof.
  unfold Operation.signer_hash, Operation.mbind, Operation.read_signer,
    Operation.assign_signer, Operation.lift, Operation.ret.
  destruct (prop (get "signer" o) which) eqn:Ep; cbn [fst snd];
    match goal with |- context [guard ?b ?m] => destruct (guard b m) end; reflexivity.
Qed.

Lemma signer_hash_string (which : string) (o : obj) (s : string) :
  prop (get "signer" o) which = JsString s ->
  prop (get "signer" (fst (Operation.signer_hash which o))) which
  = JsBuffer (Buffer.from_hex s)
  /\ (forall k, k <> which ->
        prop (get "signer" (fst (Operation.signer_hash which o))) k
        = prop (get "signer" o) k)
  /\ (List.length (Buffer.from_hex s) <> 32%nat ->
      fails (snd (Operation.signer_hash which o))).
Proof.
  intros Ep. rewrite signer_hash_state, Ep, get_set_same.
  split; [|split].
  - apply prop_set_prop_same. rewrite Ep. discriminate.
  - intros k Hk. apply prop_set_prop_other. congruence.
  - intros Hlen.
    unfold Operation.signer_hash, Operation.mbind, Operation.read_signer,
      Operation.assign_signer, Operation.lift, Operation.ret.
    rewrite Ep. cbn [fst snd]. rewrite get_set_same, prop_set_prop_same
      by (rewrite Ep; discriminate).
    cbn [Buffer.isBuffer Buffer.length andb].
    destruct (Z.eqb_spec (Z.of_nat (List.length (Buffer.from_hex s))) 32); [lia|].
    cbn. eexists; reflexivity.
Qed.

Lemma signer_hash_other (which : string) (o : obj) (k : string) :
  k <> which ->
  prop (get "signer" (fst (Operation.signer_hash which o))) k = prop (get "signer" o) k.
Proof.
  intros Hk. rewrite signer_hash_state.
  destruct (prop (get "signer" o) which); try reflexivity.
  rewrite get_set_same. apply prop_set_prop_other. congruence.
Qed.

(** With options that pass, [setOptions] is [setOptions_signer] followed by
    the construction of the operation. *)
Lemma setOptions_run (opts : obj) :
  options_pass opts ->
  fst (Operation.setOptions opts) = fst (Operation.setOptions_signer opts)
  /\ (fails (snd (Operation.setOptions_signer opts)) ->
      fails (snd (Operation.setOptions opts))).
Proof.
  intros (Hi & [c Hc] & [sf Hsf] & [mw Hmw] & [lt Hlt] & [mt Hmt] & [ht Hht] & Hd).
  unfold Operation.setOptions.
  rewrite (mbind_step _ _ opts opts (get "inflationDest" opts)) by reflexivity.
  assert (Hinf : exists a,
    (if truthy (get "inflationDest" opts)
     then
       Operation.mbind
         (Operation.lift (guard (StrKey.isValidEd25519PublicKey (get "inflationDest" opts))
                                "inflationDest is invalid"))
         (fun _ => Operation.mbind
                     (Operation.lift (Keypair.xdrAccountId (get "inflationDest" opts)))
                     (fun raw => Operation.ret (Some raw)))
     else Operation.ret None) opts = (opts, Ok a)).
  { destruct (truthy (get "inflationDest" opts)); [|eexists; reflexivity].
    destruct Hi as [[=]|Hv].
    destruct (isValid_xdrAccountId _ Hv) as (s & raw & _ & _ & Ex).
    exists (Some raw). unfold Operation.mbind, Operation.lift, Operation.ret.
    rewrite Hv, Ex. reflexivity. }
  destruct Hinf as [inf Hinf]. rewrite (mbind_step _ _ _ _ _ Hinf).
  rewrite (mbind_step _ _ opts opts (get "clearFlags" opts)) by reflexivity.
  rewrite (mbind_step _ _ _ _ _ (lift_step _ _ opts Hc)).
  rewrite (mbind_step _ _ opts opts (get "setFlags" opts)) by reflexivity.
  rewrite (mbind_step _ _ _ _ _ (lift_step _ _ opts Hsf)).
  rewrite (mbind_step _ _ opts opts (get "masterWeight" opts)) by reflexivity.
  rewrite (mbind_step _ _ _ _ _ (lift_step _ _ opts Hmw)).
  rewrite (mbind_step _ _ opts opts (get "lowThreshold" opts)) by reflexivity.
  rewrite (mbind_step _ _ _ _ _ (lift_step _ _ opts Hlt)).
  rewrite (mbind_step _ _ opts opts (get "medThreshold" opts)) by reflexivity.
  rewrite (mbind_step _ _ _ _ _ (lift_step _ _ opts Hmt)).
  rewrite (mbind_step _ _ opts opts (get "highThreshold" opts)) by reflexivity.
  rewrite (mbind_step _ _ _ _ _ (lift_step _ _ opts Hht)).
  rewrite (mbind_step _ _ opts opts (get "homeDomain" opts)) by reflexivity.
  assert (Hg : guard (negb (negb (isUndefined (get "homeDomain" opts))
                            && negb (isString (get "homeDomain" opts))))
                     "homeDomain argument must be of type String" = Ok tt).
  { destruct Hd as [-> | ->]; [reflexivity|].
    now destruct (isUndefined (get "homeDomain" opts)). }
  rewrite (mbind_step _ _ _ _ _ (lift_step _ _ opts Hg)).
  destruct (Operation.setOptions_signer opts) as [o1 [sg|msg]] eqn:Es.
  - rewrite (mbind_step _ _ _ _ _ Es). cbn [fst snd].
    split; [reflexivity|]. intros [m [=]].
  - rewrite (mbind_throw _ _ _ _ _ Es). cbn [fst snd].
    split; [reflexivity|]. intros _. eexists; reflexivity.
Qed.

Lemma truthy_string (s : string) : s <> "" -> truthy (JsString s) = true.
Proof.
  intros Hs. cbn [truthy]. destruct (String.eqb_spec s ""); [contradiction|reflexivity].
Qed.

(** The signer's checks up to the key of type ed25519 done, the hashes
    remain. *)
Lemma setOptions_signer_run (opts : obj) :
  truthy (get "signer" opts) = true ->
  signer_passes (get "signer" opts) ->
  exists weight st1,
    Operation.setOptions_signer opts =
    Operation.mbind
      (if truthy (prop (get "signer" opts) "preAuthTx")
       then Operation.mbind (Operation.signer_hash "preAuthTx")
              (fun h => Operation.ret (Some (xdr.signerKeyTypePreAuthTx h), snd st1 + 1))
       else Operation.ret st1)
      (fun st2 =>
         Operation.mbind (Operation.read_signer "sha256Hash")
           (fun sha =>
              Operation.mbind
                (if truthy sha
                 then Operation.mbind (Operation.signer_hash "sha256Hash")
                        (fun h => Operation.ret (Some (xdr.signerKeyTypeHashX h), snd st2 + 1))
                 else Operation.ret st2)
                (fun st3 =>
                   Operation.mbind
                     (Operation.lift
                        (guard (snd st3 =? 1)
                           "Signer object must contain exactly one of signer.ed25519PublicKey, signer.sha256Hash, signer.preAuthTx."))
                     (fun _ =>
                        Operation.ret
                          (Some {| xdr.Signer.key := fst st3;
                                   xdr.Signer.weight := weight;
                                   xdr.Signer.signerType :=
                                     prop (get "signer" opts) "signerType" |})))))
      opts.
Proof.
  intros Hs ([w Hw] & Hty & Hed).
  unfold Operation.setOptions_signer.
  rewrite (mbind_step _ _ opts opts (get "signer" opts)) by reflexivity.
  rewrite Hs.
  rewrite (mbind_step _ _ opts opts (prop (get "signer" opts) "weight")) by reflexivity.
  rewrite (mbind_step _ _ _ _ _ (lift_step _ _ opts Hw)).
  rewrite (mbind_step _ _ opts opts (prop (get "signer" opts) "signerType")) by reflexivity.
  assert (Hg : guard (negb (isUndefined (prop (get "signer" opts) "signerType")
                            || negb (Operation._isValidSignerType
                                       (prop (get "signer" opts) "signerType"))))
                     "Must provide a valid signerType" = Ok tt).
  { rewrite Hty. destruct (prop (get "signer" opts) "signerType"); try reflexivity.
    discriminate Hty. }
  rewrite (mbind_step _ _ _ _ _ (lift_step _ _ opts Hg)).
  rewrite (mbind_step _ _ opts opts (prop (get "signer" opts) "ed25519PublicKey"))
    by reflexivity.
  assert (Hst : exists st1,
    (if truthy (prop (get "signer" opts) "ed25519PublicKey")
     then
       Operation.mbind
         (Operation.lift
            (guard (StrKey.isValidEd25519PublicKey
                      (prop (get "signer" opts) "ed25519PublicKey"))
                   "signer.ed25519PublicKey is invalid."))
         (fun _ =>
            Operation.mbind
              (Operation.lift
                 (Keypair.xdrAccountId (prop (get "signer" opts) "ed25519PublicKey")))
              (fun rawKey => Operation.ret (Some (xdr.signerKeyTypeEd25519 rawKey), 1)))
     else Operation.ret (None, 0)) opts = (opts, Ok st1)).
  { destruct (truthy (prop (get "signer" opts) "ed25519PublicKey"));
      [|eexists; reflexivity].
    destruct Hed as [[=]|Hv].
    destruct (isValid_xdrAccountId _ Hv) as (s & raw & _ & _ & Ex).
    eexists. unfold Operation.mbind, Operation.lift, Operation.ret.
    rewrite Hv, Ex. reflexivity. }
  destruct Hst as [st1 Hst]. rewrite (mbind_step _ _ _ _ _ Hst).
  rewrite (mbind_step _ _ opts opts (prop (get "signer" opts) "preAuthTx")) by reflexivity.
  exists w, st1. reflexivity.
Qed.

(** The options after the hashes of the signer: each hash given as a string
    has been replaced, whether the call returns or throws. *)
Lemma hashes_state (opts : obj) (st1 : option xdr.SignerKey * Z)
    (K : option xdr.SignerKey * Z -> Operation.M (option xdr.Signer.t)) (o' : obj)
    (r : Result (option xdr.Signer.t)) :
  (forall st o, fst (K st o) = o) ->
  Operation.mbind
    (if truthy (prop (get "signer" opts) "preAuthTx")
     then Operation.mbind (Operation.signer_hash "preAuthTx")
            (fun h => Operation.ret (Some (xdr.signerKeyTypePreAuthTx h), snd st1 + 1))
     else Operation.ret st1)
    (fun st2 =>
       Operation.mbind (Operation.read_signer "sha256Hash")
         (fun sha =>
            Operation.mbind
              (if truthy sha
               then Operation.mbind (Operation.signer_hash "sha256Hash")
                      (fun h => Operation.ret (Some (xdr.signerKeyTypeHashX h), snd st2 + 1))
               else Operation.ret st2)
              K))
    opts = (o', r) ->
  (forall h, prop (get "signer" opts) "preAuthTx" = JsString h -> h <> "" ->
     prop (get "signer" o') "preAuthTx" = JsBuffer (Buffer.from_hex h)
     /\ (List.length (Buffer.from_hex h) <> 32%nat -> fails r))
  /\ (forall h, prop (get "signer" opts) "sha256Hash" = JsString h -> h <> "" ->
        truthy (prop (get "signer" opts) "preAuthTx") = false
        \/ succeeds (snd (Operation.signer_hash "preAuthTx" opts)) ->
        prop (get "signer" o') "sha256Hash" = JsBuffer (Buffer.from_hex h)
        /\ (List.length (Buffer.from_hex h) <> 32%nat -> fails r)).
Proof.
  intros HK E.
  (* the state and the outcome after the first hash *)
  set (o1 := if truthy (prop (get "signer" opts) "preAuthTx")
             then fst (Operation.signer_hash "preAuthTx" opts) else opts).
  assert (Hsha : prop (get "signer" o1) "sha256Hash" = prop (get "signer" opts) "sha256Hash").
  { unfold o1. destruct (truthy _); [|reflexivity].
    apply signer_hash_other. discriminate. }
  assert (Hpre : forall h, prop (get "signer" opts) "preAuthTx" = JsString h -> h <> "" ->
                   prop (get "signer" o1) "preAuthTx" = JsBuffer (Buffer.from_hex h)).
  { intros h Eh Hh. unfold o1. rewrite Eh, truthy_string by assumption.
    now apply signer_hash_string. }
  (* the second hash, from [o1] *)
  assert (Htail : forall st2,
    Operation.mbind (Operation.read_signer "sha256Hash")
      (fun sha =>
         Operation.mbind
           (if truthy sha
            then Operation.mbind (Operation.signer_hash "sha256Hash")
                   (fun h => Operation.ret (Some (xdr.signerKeyTypeHashX h), snd st2 + 1))
            else Operation.ret st2)
           K) o1 = (o', r) ->
    (forall k, k <> "sha256Hash" -> prop (get "signer" o') k = prop (get "signer" o1) k)
    /\ (forall h, prop (get "signer" opts) "sha256Hash" = JsString h -> h <> "" ->
          prop (get "signer" o') "sha256Hash" = JsBuffer (Buffer.from_hex h)
          /\ (List.length (Buffer.from_hex h) <> 32%nat -> fails r))).
  { intros st2 Et.
    rewrite (mbind_step _ _ o1 o1 (prop (get "signer" o1) "sha256Hash")) in Et by reflexivity.
    rewrite Hsha in Et.
    destruct (truthy (prop (get "signer" opts) "sha256Hash")) eqn:Etr.
    - destruct (Operation.signer_hash "sha256Hash" o1) as [o2 [hb|msg]] eqn:Eh.
      + rewrite (mbind_step _ _ o1 o2 (Some (xdr.signerKeyTypeHashX hb), snd st2 + 1)) in Et
          by (rewrite (mbind_step _ _ _ _ _ Eh); reflexivity).
        assert (o' = o2) by (pose proof (HK (Some (xdr.signerKeyTypeHashX hb), snd st2 + 1) o2) as HK2;
                             rewrite Et in HK2; exact HK2).
        subst o'. replace o2 with (fst (Operation.signer_hash "sha256Hash" o1))
          by (now rewrite Eh).
        split.
        * intros k Hk. now apply signer_hash_other.
        * intros h Eh' Hh. rewrite <- Hsha in Eh'.
          destruct (signer_hash_string _ _ _ Eh') as (Hb & _ & Hf).
          split; [exact Hb|]. intros Hlen. specialize (Hf Hlen).
          rewrite Eh in Hf. destruct Hf as [m [=]].
      + rewrite (mbind_throw _ _ o1 o2 msg) in Et
          by (rewrite (mbind_throw _ _ _ _ _ Eh); reflexivity).
        injection Et as <- <-.
        replace o2 with (fst (Operation.signer_hash "sha256Hash" o1)) by (now rewrite Eh).
        split.
        * intros k Hk. now apply signer_hash_other.
        * intros h Eh' Hh. rewrite <- Hsha in Eh'.
          destruct (signer_hash_string _ _ _ Eh') as (Hb & _ & _).
          split; [exact Hb|]. intros _. eexists; reflexivity.
    - rewrite (mbind_step _ _ o1 o1 st2) in Et by reflexivity.
      assert (o' = o1) by (pose proof (HK st2 o1) as HK2; rewrite Et in HK2; exact HK2).
      subst o'. split; [reflexivity|].
      intros h Eh' Hh. rewrite Eh', truthy_string in Etr by assumption. discriminate. }
  destruct (truthy (prop (get "signer" opts) "preAuthTx")) eqn:Etp.
  - destruct (Operation.signer_hash "preAuthTx" opts) as [oa [hb|msg]] eqn:Eh.
    + rewrite (mbind_step _ _ opts oa (Some (xdr.signerKeyTypePreAuthTx hb), snd st1 + 1)) in E
        by (rewrite (mbind_step _ _ _ _ _ Eh); reflexivity).
      assert (Eo : o1 = oa) by (unfold o1; reflexivity).
      rewrite <- Eo in E. destruct (Htail _ E) as [Hk Hs2].
      split.
      * intros h Eh' Hh. rewrite (Hk "preAuthTx") by discriminate.
        split; [now apply Hpre|]. intros Hlen.
        destruct (signer_hash_string _ _ _ Eh') as (_ & _ & Hf).
        specialize (Hf Hlen). rewrite Eh in Hf. destruct Hf as [m [=]].
      * intros h Eh' Hh _. now apply Hs2.
    + rewrite (mbind_throw _ _ opts oa msg) in E
        by (rewrite (mbind_throw _ _ _ _ _ Eh); reflexivity).
      injection E as <- <-. split.
      * intros h Eh' Hh. assert (Eo : o1 = oa) by (unfold o1; reflexivity).
        rewrite <- Eo. split; [now apply Hpre|]. intros _. eexists; reflexivity.
      * intros h Eh' Hh [[=]|[x Hx]]. discriminate Hx.
  - rewrite (mbind_step _ _ opts opts st1) in E by reflexivity.
    assert (Eo : o1 = opts) by (unfold o1; reflexivity).
    rewrite <- Eo in E. destruct (Htail _ E) as [Hk Hs2].
    split.
    + intros h Eh' Hh. rewrite Eh', truthy_string in Etp by assumption. discriminate.
    + intros h Eh' Hh _. now apply Hs2.
Qed.

End SetOptionsFacts.





(** *** Amounts and destinations *)

Lemma valid_amount_positive (value : JsValue) :
  Operation.isValidAmount value false = true -> positive_amount value.
Proof.
  intros Hv. apply isValidAmount_accepts in Hv.
  destruct Hv as (s & x & n & -> & Es & _ & Hd & Hn & Hz).
  exists s, x, (n # 10000000). repeat split; auto.
  destruct Hz as [[=]|Hz]. unfold Qlt. cbn. lia.
Qed.

Section AmountBuilders.

Context `{StrKey.Codec} `{xdr.Enums}.

Lemma has_get_member (keys : list Z) (raw : JsValue) :
  xdr.has keys raw = true -> exists member, xdr.get_member keys raw = Some member.
Proof.
  unfold xdr.has, xdr.get_member. destruct raw; try discriminate.
  intros E. apply existsb_exists in E. destruct E as (k & Hin & Hk).
  destruct (find (Number.eqZ n) keys) as [m|] eqn:Ef; [eauto|].
  apply (find_none _ _ Ef) in Hin. congruence.
Qed.


End AmountBuilders.
(** ** Integers in decimal *)

Section IntegerStrings.

Import BigNumber.

Lemma nat_to_string_digits (n : Z) :
  0 <= n ->
  exists d ds,
    Digits.nat_to_string n = Digits.digits_to_string (d :: ds)
    /\ Forall is_digit (d :: ds) /\ Digits.of_digits (d :: ds) = n.
Proof.
  intros Hn. unfold Digits.nat_to_string. destruct (Z.leb_spec n 0) as [H0|H0].
  - exists 0, []. repeat split; [repeat constructor; unfold is_digit; lia|].
    assert (n = 0) by lia. subst. reflexivity.
  - pose proof (digits_of_nonempty n H0) as Hne.
    pose proof (digits_of_range n) as Hr.
    pose proof (digits_of_value n (Z.lt_le_incl _ _ H0)) as Hv.
    destruct (Digits.digits_of n) as [|d ds]; [simpl in Hne; lia|].
    exists d, ds. auto.
Qed.

Lemma nat_to_string_head (n : Z) :
  0 <= n ->
  exists c r d, Digits.nat_to_string n = String c r /\ Digits.digit_of_ascii c = Some d.
Proof.
  intros Hn. destruct (nat_to_string_digits n Hn) as (d & ds & E & Hr & _).
  exists (Digits.digit_to_ascii d), (Digits.digits_to_string ds), d.
  split; [exact E|]. apply digit_of_to_ascii. now inversion Hr.
Qed.

(** A string that starts with a digit carries no sign and is neither of the
    two words the constructor knows. *)
Lemma digit_head (s : string) (c : ascii) (r : string) (d : Z) :
  s = String c r -> Digits.digit_of_ascii c = Some d ->
  parse_sign s = (false, s)
  /\ (s =? "Infinity")%string = false /\ (s =? "NaN")%string = false.
Proof.
  intros -> Hd. destruct (digit_char_cases c d Hd) as (Hm & _ & HI & HN & _).
  split; [|split].
  - destruct c as [[] [] [] [] [] [] [] []]; try reflexivity; congruence.
  - cbn [String.eqb]. destruct (Ascii.eqb_spec c "I"); [congruence|reflexivity].
  - cbn [String.eqb]. destruct (Ascii.eqb_spec c "N"); [congruence|reflexivity].
Qed.

Lemma parse_sign_minus (s : string) : parse_sign (String "-" s) = (true, s).
Proof. reflexivity. Qed.

(** The constructor on the digits of a non-negative integer. *)
Lemma of_string_digits (neg : bool) (n : Z) :
  0 <= n ->
  (let '(ip, s2) := Digits.span_digits (Digits.nat_to_string n) in
   let '(fp, s3) := Digits.fraction_part s2 in
   match ip, fp with
   | [], [] => None
   | _, _ =>
       match parse_exponent s3 with
       | Some ex =>
           Some (normalise neg (Digits.of_digits (ip ++ fp)%list)
                           (ex - Z.of_nat (List.length fp)))
       | None => None
       end
   end) = Some (normalise neg n 0).
Proof.
  intros Hn. destruct (nat_to_string_digits n Hn) as (d & ds & -> & Hr & Hv).
  rewrite span_digits_string by assumption.
  cbn [Digits.fraction_part parse_exponent List.length Z.of_nat Z.sub].
  now rewrite app_nil_r, Hv.
Qed.

Lemma of_string_Z_to_string (n : Z) :
  of_string (Digits.Z_to_string n) = Some (of_Z n).
Proof.
  unfold Digits.Z_to_string, of_Z, of_string.
  destruct (Z.ltb_spec n 0) as [Hneg|Hpos].
  - rewrite parse_sign_minus.
    destruct (nat_to_string_head (- n)) as (c & r & d & E & Hd); [lia|].
    destruct (digit_head _ _ _ _ E Hd) as (_ & -> & ->).
    rewrite (of_string_digits true (- n)) by lia.
    do 2 f_equal. lia.
  - destruct (nat_to_string_head n Hpos) as (c & r & d & E & Hd).
    destruct (digit_head _ _ _ _ E Hd) as (-> & -> & ->).
    rewrite (of_string_digits false n) by lia.
    do 2 f_equal. lia.
Qed.

(** The form of [of_Z] on an integer that is not zero. *)
Lemma of_Z_cases (n b : Z) :
  n <> 0 -> 0 <= b <= MAX_EXP -> Z.abs n < 10 ^ b ->
  exists c k,
    0 < c /\ c mod 10 <> 0 /\ 0 <= k /\ Z.abs n = c * 10 ^ k
    /\ 0 <= exponent c k < b
    /\ of_Z n = bnFinite (n <? 0) c k.
Proof.
  intros Hn Hb Hlt. unfold of_Z.
  destruct (normalise_cases (n <? 0) (Z.abs n) 0)
    as [[Hz _]|(c & k & Hc & Hm & Hk & Hv & Hcases)]; [lia|].
  rewrite Z.add_0_l in Hcases.
  assert (Hx : exponent c k < b).
  { apply exponent_upper; try lia. }
  pose proof (exponent_lower c k Hc) as Hlo.
  exists c, k. repeat (split; [assumption || lia|]).
  destruct Hcases as [[Hov _]|[[Hun _]|[_ E]]];
    [lia|unfold MIN_EXP in Hun; lia|exact E].
Qed.

Lemma append_empty_r (s : string) : (s ++ "")%string = s.
Proof. induction s; [reflexivity|]. cbn. now f_equal. Qed.

Lemma nat_to_string_shift (c k : Z) :
  0 < c -> 0 <= k ->
  Digits.nat_to_string (c * 10 ^ k)
  = (Digits.digits_to_string (Digits.digits_of c) ++ Digits.zeros k)%string.
Proof.
  intros Hc Hk. unfold Digits.nat_to_string.
  destruct (Z.leb_spec (c * 10 ^ k) 0) as [Hz|_];
    [pose proof (pow10_pos k Hk); nia|].
  replace k with (Z.of_nat (Z.to_nat k)) at 1 by lia.
  rewrite digits_of_shift, digits_to_string_app, digits_to_string_zeros, Z2Nat.id
    by lia.
  reflexivity.
Qed.

Lemma toString_finite_integer (neg : bool) (c k : Z) :
  0 < c -> 0 <= k -> exponent c k < 21 ->
  toString (bnFinite neg c k) =
    ((if neg then "-" else "") ++ Digits.nat_to_string (c * 10 ^ k))%string.
Proof.
  intros Hc Hk Hx. pose proof (exponent_lower c k Hc) as Hlo.
  rewrite nat_to_string_shift by assumption.
  unfold toString. destruct (Z.leb_spec c 0) as [|_]; [lia|].
  unfold TO_EXP_NEG, TO_EXP_POS.
  destruct (Z.leb_spec (exponent c k) (-7)) as [|_]; [lia|].
  destruct (Z.leb_spec 21 (exponent c k)) as [|_]; [lia|].
  cbn [orb]. unfold toFixedPoint.
  destruct (Z.ltb_spec (exponent c k) 0) as [|_]; [lia|].
  rewrite digits_to_string_length. fold (ndigits c).
  unfold exponent.
  destruct (Z.ltb_spec (ndigits c) (k + ndigits c - 1 + 1)) as [Hl|Hl].
  - replace (k + ndigits c - 1 + 1 - ndigits c) with k by lia.
    destruct neg; reflexivity.
  - assert (k = 0) by lia. subst k.
    destruct (Z.ltb_spec (0 + ndigits c - 1 + 1) (ndigits c)); [lia|].
    change (Digits.zeros 0) with EmptyString. rewrite append_empty_r.
    destruct neg; reflexivity.
Qed.

Lemma toString_of_Z (n : Z) :
  Z.abs n < 10 ^ 21 -> toString (of_Z n) = Digits.Z_to_string n.
Proof.
  intros Hb. destruct (Z.eq_dec n 0) as [->|Hn]; [reflexivity|].
  destruct (of_Z_cases n 21 Hn) as (c & k & Hc & Hm & Hk & Hv & Hx & ->);
    [unfold MAX_EXP; lia|assumption|].
  rewrite toString_finite_integer by (assumption || lia).
  rewrite <- Hv. unfold Digits.Z_to_string.
  destruct (Z.ltb_spec n 0).
  - cbn [append]. do 2 f_equal. lia.
  - cbn [append]. f_equal. lia.
Qed.

Lemma of_Z_one : of_Z 1 = bnFinite false 1 0.
Proof. reflexivity. Qed.

Lemma plus_one (n : Z) :
  Z.abs n < 10 ^ 21 -> plus (of_Z n) (of_Z 1) = of_Z (n + 1).
Proof.
  intros Hb. destruct (Z.eq_dec n 0) as [->|Hn]; [reflexivity|].
  destruct (of_Z_cases n 21 Hn) as (c & k & Hc & Hm & Hk & Hv & Hx & ->);
    [unfold MAX_EXP; lia|assumption|].
  rewrite of_Z_one. unfold plus, align.
  rewrite Z.min_r, !Z.sub_0_r, Z.pow_0_r, Z.mul_1_r by lia.
  rewrite <- Hv. unfold signed at 2.
  assert (Hs : signed (n <? 0) (Z.abs n) = n).
  { unfold signed. destruct (Z.ltb_spec n 0); lia. }
  rewrite Hs.
  destruct (Z.eqb_spec (n + 1) 0) as [E|E].
  - rewrite E, andb_false_r. reflexivity.
  - reflexivity.
Qed.

Lemma isNegative_of_Z (n : Z) : 0 <= n -> isNegative (of_Z n) = false.
Proof.
  intros Hn. unfold of_Z.
  destruct (Z.ltb_spec n 0) as [|_]; [lia|].
  destruct (normalise_cases false (Z.abs n) 0)
    as [[_ ->]|(c & k & _ & _ & _ & _ & [[_ ->]|[[_ ->]|[_ ->]]])]; reflexivity.
Qed.

End IntegerStrings.

(** ** [Account] *)




Lemma denotes_of_Z (n : Z) : Z.abs n < 10 ^ 21 -> denotes (BigNumber.of_Z n) (inject_Z n).
Proof.
  intros Hb. destruct (Z.eq_dec n 0) as [->|Hn]; [reflexivity|].
  destruct (of_Z_cases n 21 Hn) as (c & k & Hc & Hm & Hk & Hv & Hx & ->);
    [unfold BigNumber.MAX_EXP; lia|assumption|].
  unfold denotes. cbn [BigNumber.value]. unfold BigNumber.scaled.
  destruct (Z.leb_spec 0 k); [|lia].
  assert (E : BigNumber.signed (n <? 0) c * 10 ^ k = n).
  { unfold BigNumber.signed. destruct (Z.ltb_spec n 0); lia. }
  rewrite E. reflexivity.
Qed.

Lemma iter_increment_sequence (a : Account.t) (n : Z) (k : nat) :
  Account.sequence a = BigNumber.of_Z n ->
  - 10 ^ 21 < n -> n + Z.of_nat k < 10 ^ 21 ->
  Account.sequence (Nat.iter k Account.incrementSequenceNumber a)
  = BigNumber.of_Z (n + Z.of_nat k).
Proof.
  intros Ha Hlo. induction k as [|k IH]; intros Hhi.
  - change (Nat.iter 0 Account.incrementSequenceNumber a) with a. rewrite Ha. f_equal. lia.
  - rewrite Nat.iter_succ. cbn [Account.incrementSequenceNumber Account.sequence].
    rewrite IH by lia. rewrite plus_one by lia. f_equal. lia.
Qed.



(** ** Encoding and decoding *)

Section AmountCodec.

Import BigNumber.

Lemma wrap_small (n : Z) : 0 <= n <= 9223372036854775807 -> Hyper.wrap n = n.
Proof.
  intros Hn. unfold Hyper.wrap. rewrite Z.mod_small; lia.
Qed.

Lemma Hyper_fromString_digits (n : Z) :
  0 <= n <= 9223372036854775807 ->
  Hyper.fromString (Digits.nat_to_string n) = Ok n.
Proof.
  intros Hn. unfold Hyper.fromString.
  destruct (nat_to_string_head n) as (c & r & d & E & Hd); [lia|].
  destruct (digit_head _ _ _ _ E Hd) as (-> & _).
  destruct (nat_to_string_digits n) as (d' & ds & -> & Hr & Hv); [lia|].
  rewrite span_digits_string by assumption.
  rewrite Hv, wrap_small by assumption. reflexivity.
Qed.

Lemma half_up_exact (m : Z) : (2 * m + 1) / (2 * 1) = m.
Proof.
  change (2 * 1) with 2. rewrite Z.add_comm, Z.mul_comm, Z.div_add by lia.
  reflexivity.
Qed.

(** An accepted amount goes to the wire as its number of stroops and comes
    back as the decimal it was read as. *)
Lemma amount_roundtrip (s : string) (x : t) (allowZero : bool) :
  of_string s = Some x ->
  Operation.isValidAmount (JsString s) allowZero = true ->
  exists n,
    Operation._toXDRAmount (JsString s) = Ok n
    /\ Operation._fromXDRAmount n = Ok (JsString (toString x))
    /\ 0 <= n <= 9223372036854775807
    /\ denotes x (n # 10000000).
Proof.
  intros Es Hv. rewrite isValidAmount_string, Es in Hv.
  pose proof (of_string_wf _ _ Es) as Hwf.
  destruct x as [|neg|neg c e];
    try (rewrite amount_checks_not_finite in Hv by reflexivity; discriminate).
  apply amount_checks_finite in Hv; [|assumption].
  destruct Hv as (-> & Hz & He & Hle).
  unfold Operation._toXDRAmount, Operation._fromXDRAmount, Operation.BigNumber_new.
  rewrite Es. cbn [bind]. unfold Hyper.toString.
  destruct Hwf as [[-> ->]|(Hc & Hm & Hr)].
  - exists 0. repeat split; try reflexivity; lia.
  - exists (c * 10 ^ (e + 7)).
    assert (Hpos : 0 < c * 10 ^ (e + 7)) by (pose proof (pow10_pos (e + 7)); nia).
    assert (Hx : exponent c (e + 7) < 19) by (apply exponent_upper; lia).
    pose proof (exponent_lower c (e + 7) Hc) as Hlo.
    assert (Hr7 : MIN_EXP <= exponent c (e + 7) <= MAX_EXP)
      by (unfold MIN_EXP, MAX_EXP; lia).
    split; [|split; [|split]].
    + rewrite ONE_eq. cbn [times xorb].
      destruct (Z.eqb_spec c 0) as [|_]; [lia|]. cbn [orb Z.eqb].
      rewrite Z.mul_1_r, normalise_stripped by assumption.
      rewrite toString_finite_integer by lia.
      cbn [append]. apply Hyper_fromString_digits. lia.
    + rewrite of_string_Z_to_string. cbn [bind].
      unfold of_Z. destruct (Z.ltb_spec (c * 10 ^ (e + 7)) 0) as [|_]; [lia|].
      rewrite Z.abs_eq by lia.
      rewrite normalise_shift by (rewrite ?Z.add_0_l; assumption || lia).
      rewrite Z.add_0_l, ONE_eq. cbn [div xorb].
      destruct (Z.eqb_spec c 0) as [|_]; [lia|]. cbn [Z.eqb].
      unfold DECIMAL_PLACES.
      replace (e + 7 - 7 + 20) with (e + 20) by lia.
      destruct (Z.leb_spec 0 (e + 20)); [|lia].
      rewrite half_up_exact.
      assert (E20 : - (20) + (e + 20) = e) by lia.
      rewrite normalise_shift by (rewrite ?E20; assumption || lia).
      now rewrite E20.
    + lia.
    + unfold denotes. cbn [value signed]. apply scaled_stroops; auto.
Qed.

Lemma canonical_amount_integer (n : Z) :
  Z.abs n < 10 ^ 21 ->
  canonical_amount (JsString (Digits.Z_to_string n)) = JsString (Digits.Z_to_string n).
Proof.
  intros Hn. unfold canonical_amount.
  now rewrite of_string_Z_to_string, toString_of_Z.
Qed.

End AmountCodec.

Lemma check_value (name : string) (value : JsValue) (f : option Operation.check)
    (r : JsValue) :
  Operation._checkUnsignedIntValue name value f = Ok r -> r = read_uint value.
Proof.
  unfold Operation._checkUnsignedIntValue, read_uint.
  destruct value as [| | |n|s| | |]; cbn [isUndefined]; try discriminate.
  - now intros [= <-].
  - destruct (negb (Number.isFinite n) || negb (Number.mod1_is_zero n));
      [discriminate|].
    destruct (Number.ltZ n 0); [discriminate|].
    destruct f as [f|]; [|now intros [= <-]].
    destruct (f n name) as [[]|]; cbn [bind]; try discriminate. now intros [= <-].
  - set (n := Number.parseFloat s).
    destruct (negb (Number.isFinite n) || negb (Number.mod1_is_zero n));
      [discriminate|].
    destruct (Number.ltZ n 0); [discriminate|].
    destruct f as [f|]; [|now intros [= <-]].
    destruct (f n name) as [[]|]; cbn [bind]; try discriminate. now intros [= <-].
Qed.

Lemma get_member_value (keys : list Z) (raw : JsValue) (member : Z) :
  xdr.get_member keys raw = Some member -> raw = JsNumber (Number.Int member).
Proof.
  unfold xdr.get_member. destruct raw as [| | |n| | | |]; try discriminate.
  intros E. apply find_some in E. destruct E as [_ E].
  destruct n as [| |z|]; try discriminate. cbn [Number.eqZ] in E.
  apply Z.eqb_eq in E. now subst.
Qed.

Section RoundTrip.

Context `{StrKey.Codec} `{xdr.Enums}.

Hypothesis lossless : StrKey.Lossless.

Lemma address_roundtrip (x : JsValue) (raw : list byte) :
  Keypair.xdrAccountId x = Ok raw -> Operation.accountIdtoAddress raw = x.
Proof.
  unfold Keypair.xdrAccountId, Operation.accountIdtoAddress.
  destruct x as [| | | |s| | |]; try discriminate.
  destruct (StrKey.decodeEd25519PublicKey s) as [raw'|] eqn:E; [|discriminate].
  intros [= <-]. now rewrite (lossless _ _ E).
Qed.

Lemma source_roundtrip (opts : obj) (src : option (list byte)) :
  Operation.setSourceAccount opts = Ok src ->
  match src with
  | Some a => set "source" (Operation.accountIdtoAddress a) []
  | None => []
  end = decoded_source opts.
Proof.
  unfold Operation.setSourceAccount, decoded_source.
  destruct (truthy (get "source" opts)).
  - intros E. apply bind_Ok in E. destruct E as (u & _ & E).
    apply bind_Ok in E. destruct E as (raw & Hraw & [= <-]).
    now rewrite (address_roundtrip _ _ Hraw).
  - now intros [= <-].
Qed.

Lemma new_Operation_inv (body : xdr.OperationBody) (opts : obj) (op : xdr.Operation.t) :
  Operation.new_Operation body opts = Ok op ->
  exists src,
    Operation.setSourceAccount opts = Ok src
    /\ op = {| xdr.Operation.sourceAccount := src; xdr.Operation.body := body |}.
Proof.
  unfold Operation.new_Operation. intros E. apply bind_Ok in E.
  destruct E as (src & Hsrc & [= <-]). eauto.
Qed.

Lemma amount_field (value : JsValue) (allowZero : bool) (n : Z) :
  Operation.isValidAmount value allowZero = true ->
  Operation._toXDRAmount value = Ok n ->
  Operation._fromXDRAmount n = Ok (canonical_amount value).
Proof.
  intros Hv Hn. destruct (isValidAmount_is_string _ _ Hv) as [s ->].
  pose proof Hv as Hv'. rewrite isValidAmount_string in Hv'.
  destruct (BigNumber.of_string s) as [x|] eqn:Es; [|discriminate].
  destruct (amount_roundtrip s x allowZero Es Hv) as (n' & Hn' & Hback & _).
  rewrite Hn in Hn'. injection Hn' as <-.
  unfold canonical_amount. now rewrite Es.
Qed.

Ltac builder_inv E a Ea :=
  apply bind_Ok in E; destruct E as (a & Ea & E).

Ltac decode_source :=
  unfold decoded_source;
  match goal with
  | |- context [truthy ?x] => destruct (truthy x); reflexivity
  end.

Lemma createAccount_decoded (opts : obj) (op : xdr.Operation.t) :
  Operation.createAccount opts = Ok op ->
  Operation.fromXDRObject op =
    Ok (decoded_source opts
        ++ [("type", JsString "createAccount");
            ("destination", get "destination" opts);
            ("startingBalance", canonical_amount (get "startingBalance" opts));
            ("accountType", get "accountType" opts)])%list.
Proof.
  unfold Operation.createAccount. intros E.
  builder_inv E u1 Hd. builder_inv E u2 Ha. builder_inv E u3 Ht.
  builder_inv E raw Hraw. builder_inv E n Hn. builder_inv E member Hm.
  apply guard_Ok in Ha.
  apply new_Operation_inv in E. destruct E as (src & Hsrc & ->).
  unfold Operation._accountTypeFromNumber in Hm.
  destruct (xdr.get_member xdr.AccountType_byValue (get "accountType" opts))
    as [m|] eqn:Em; [|discriminate].
  injection Hm as <-. apply get_member_value in Em.
  unfold Operation.fromXDRObject.
  cbn [xdr.Operation.sourceAccount xdr.Operation.body
       xdr.CreateAccountOp.destination xdr.CreateAccountOp.startingBalance
       xdr.CreateAccountOp.body].
  rewrite (source_roundtrip _ _ Hsrc), (address_roundtrip _ _ Hraw),
    (amount_field _ _ _ Ha Hn), <- Em.
  cbn [bind]. decode_source.
Qed.

Lemma emission_decoded (opts : obj) (op : xdr.Operation.t) :
  Operation.emission opts = Ok op ->
  Operation.fromXDRObject op =
    Ok (decoded_source opts
        ++ [("type", JsString "emission");
            ("destination", get "destination" opts);
            ("amount", canonical_amount (get "amount" opts))])%list.
Proof.
  unfold Operation.emission. intros E.
  builder_inv E u1 Hd. builder_inv E u2 Ha.
  builder_inv E raw Hraw. builder_inv E n Hn.
  apply guard_Ok in Ha.
  apply new_Operation_inv in E. destruct E as (src & Hsrc & ->).
  unfold Operation.fromXDRObject.
  cbn [xdr.Operation.sourceAccount xdr.Operation.body
       xdr.EmissionOp.destination xdr.EmissionOp.amount].
  rewrite (source_roundtrip _ _ Hsrc), (address_roundtrip _ _ Hraw),
    (amount_field _ _ _ Ha Hn).
  cbn [bind]. decode_source.
Qed.

Lemma settlement_decoded (opts : obj) (op : xdr.Operation.t) :
  Operation.settlement opts = Ok op ->
  Operation.fromXDRObject op =
    Ok (decoded_source opts
        ++ [("type", JsString "settlement");
            ("amount", canonical_amount (get "amount" opts))])%list.
Proof.
  unfold Operation.settlement. intros E.
  builder_inv E u2 Ha. builder_inv E n Hn.
  apply guard_Ok in Ha.
  apply new_Operation_inv in E. destruct E as (src & Hsrc & ->).
  unfold Operation.fromXDRObject.
  cbn [xdr.Operation.sourceAccount xdr.Operation.body xdr.SettlementOp.amount].
  rewrite (source_roundtrip _ _ Hsrc), (amount_field _ _ _ Ha Hn).
  cbn [bind]. decode_source.
Qed.

Lemma payment_decoded (opts : obj) (op : xdr.Operation.t) :
  Operation.payment opts = Ok op ->
  Operation.fromXDRObject op =
    Ok (decoded_source opts
        ++ [("type", JsString "payment");
            ("destination", get "destination" opts);
            ("asset", JsAsset AssetNative);
            ("amount", canonical_amount (get "amount" opts))])%list.
Proof.
  unfold Operation.payment. intros E.
  builder_inv E u1 Hd. builder_inv E u2 Ha.
  builder_inv E raw Hraw. builder_inv E n Hn.
  apply guard_Ok in Ha.
  apply new_Operation_inv in E. destruct E as (src & Hsrc & ->).
  unfold Operation.fromXDRObject.
  cbn [xdr.Operation.sourceAccount xdr.Operation.body
       xdr.PaymentOp.destination xdr.PaymentOp.asset xdr.PaymentOp.amount].
  rewrite (source_roundtrip _ _ Hsrc), (address_roundtrip _ _ Hraw),
    (amount_field _ _ _ Ha Hn).
  cbn [bind]. decode_source.
Qed.

Lemma spendFee_decoded (opts : obj) (op : xdr.Operation.t) :
  Operation.spendFee opts = Ok op ->
  Operation.fromXDRObject op =
    Ok (decoded_source opts
        ++ [("type", JsString "spendFee");
            ("destination", get "destination" opts);
            ("amount", canonical_amount (get "amount" opts))])%list.
Proof.
  unfold Operation.spendFee. intros E.
  builder_inv E u1 Hd. builder_inv E u2 Ha.
  builder_inv E raw Hraw. builder_inv E n Hn.
  apply guard_Ok in Ha.
  apply new_Operation_inv in E. destruct E as (src & Hsrc & ->).
  unfold Operation.fromXDRObject.
  cbn [xdr.Operation.sourceAccount xdr.Operation.body
       xdr.SpendFeeOp.destination xdr.SpendFeeOp.amount].
  rewrite (source_roundtrip _ _ Hsrc), (address_roundtrip _ _ Hraw),
    (amount_field _ _ _ Ha Hn).
  cbn [bind]. decode_source.
Qed.

Lemma accountMerge_decoded (opts : obj) (op : xdr.Operation.t) :
  Operation.accountMerge opts = Ok op ->
  Operation.fromXDRObject op =
    Ok (decoded_source opts
        ++ [("type", JsString "accountMerge");
            ("destination", get "destination" opts)])%list.
Proof.
  unfold Operation.accountMerge. intros E.
  builder_inv E u1 Hd. builder_inv E raw Hraw.
  apply new_Operation_inv in E. destruct E as (src & Hsrc & ->).
  unfold Operation.fromXDRObject.
  cbn [xdr.Operation.sourceAccount xdr.Operation.body].
  rewrite (source_roundtrip _ _ Hsrc), (address_roundtrip _ _ Hraw).
  decode_source.
Qed.

Lemma manageData_decoded (opts : obj) (op : xdr.Operation.t) :
  Operation.manageData opts = Ok op ->
  Operation.fromXDRObject op =
    Ok (decoded_source opts
        ++ [("type", JsString "manageData");
            ("name", get "name" opts);
            ("value", read_data (get "value" opts))])%list.
Proof.
  unfold Operation.manageData. intros E.
  builder_inv E u1 Hn. builder_inv E u2 Hv. builder_inv E u3 Hl.
  apply new_Operation_inv in E. destruct E as (src & Hsrc & ->).
  unfold Operation.fromXDRObject.
  cbn [xdr.Operation.sourceAccount xdr.Operation.body
       xdr.ManageDataOp.dataName xdr.ManageDataOp.dataValue].
  rewrite (source_roundtrip _ _ Hsrc).
  fold (read_data (get "value" opts)).
  decode_source.
Qed.

Lemma setFee_decoded (opts : obj) (op : xdr.Operation.t) :
  Operation.setFee opts = Ok op ->
  Operation.fromXDRObject op =
    Ok (decoded_source opts
        ++ [("type", JsString "setFee"); ("baseFee", get "baseFee" opts)])%list.
Proof.
  unfold Operation.setFee. intros E.
  apply new_Operation_inv in E. destruct E as (src & Hsrc & ->).
  unfold Operation.fromXDRObject.
  cbn [xdr.Operation.sourceAccount xdr.Operation.body xdr.SetFeeOp.baseFee].
  rewrite (source_roundtrip _ _ Hsrc).
  decode_source.
Qed.

Lemma restrictAccount_decoded (opts : obj) (op : xdr.Operation.t) :
  Operation.restrictAccount opts = Ok op ->
  Operation.fromXDRObject op =
    Ok (decoded_source opts
        ++ [("type", JsString "restrictAccount");
            ("account", get "account" opts);
            ("clearFlags", read_uint (get "clearFlags" opts));
            ("setFlags", read_uint (get "setFlags" opts))])%list.
Proof.
  unfold Operation.restrictAccount. intros E.
  builder_inv E cf Hcf. builder_inv E sf Hsf. builder_inv E raw Hraw.
  apply check_value in Hcf, Hsf. subst cf sf.
  apply new_Operation_inv in E. destruct E as (src & Hsrc & ->).
  unfold Operation.fromXDRObject.
  cbn [xdr.Operation.sourceAccount xdr.Operation.body
       xdr.RestrictAccountOp.clearFlags xdr.RestrictAccountOp.setFlags
       xdr.RestrictAccountOp.account].
  rewrite (source_roundtrip _ _ Hsrc), (address_roundtrip _ _ Hraw).
  decode_source.
Qed.

(** *** [setOptions] *)

Ltac step E :=
  let a := fresh "a" in
  let o := fresh "o" in
  let E1 := fresh "E" in
  apply mbind_inv in E; destruct E as (a & o & E1 & E);
  first [ apply read_inv in E1; destruct E1 as [-> ->]
        | apply read_signer_inv in E1; destruct E1 as [-> ->]
        | apply lift_inv in E1; destruct E1 as [-> E1]
        | idtac ].

Lemma signer_hash_value (which : string) (o o1 : obj) (h : JsValue) :
  Operation.signer_hash which o = (o1, Ok h) ->
  h = read_hash (prop (get "signer" o) which)
  /\ (forall k, k <> "signer" -> get k o1 = get k o)
  /\ (forall k, k <> which -> prop (get "signer" o1) k = prop (get "signer" o) k).
Proof.
  unfold Operation.signer_hash. intros E.
  step E.
  apply mbind_inv in E. destruct E as (u & o2 & E1 & E).
  step E. step E. apply ret_inv in E. destruct E as [-> ->].
  destruct (prop (get "signer" o) which) as [| | | |s| | |] eqn:Ep;
    try (apply ret_inv in E1; destruct E1 as [-> _]; rewrite Ep;
         repeat split; reflexivity).
  unfold Operation.assign_signer in E1. injection E1 as <- _.
  rewrite get_set_same. split; [|split].
  - apply prop_set_prop_same. congruence.
  - intros k Hk. apply get_set_other. congruence.
  - intros k Hk. apply prop_set_prop_other. congruence.
Qed.

Lemma setOptions_signer_absent (opts o1 : obj) (sg : option xdr.Signer.t) :
  truthy (get "signer" opts) = false ->
  Operation.setOptions_signer opts = (o1, Ok sg) -> o1 = opts /\ sg = None.
Proof.
  intros Hs E. unfold Operation.setOptions_signer in E.
  step E. rewrite Hs in E. apply ret_inv in E. now destruct E.
Qed.

Lemma setOptions_signer_value (opts o1 : obj) (sg : option xdr.Signer.t) :
  truthy (get "signer" opts) = true ->
  Operation.setOptions_signer opts = (o1, Ok sg) ->
  (forall k, k <> "signer" -> get k o1 = get k opts)
  /\ exists s,
       sg = Some s
       /\ Operation.signer_object s = Ok (decoded_signer (get "signer" opts)).
Proof.
  intros Hs E. unfold Operation.setOptions_signer in E.
  step E. rewrite Hs in E.
  step E. step E. apply check_value in E0. subst a.
  step E. step E. clear E0.
  step E.
  set (signer := get "signer" opts) in *.
  apply mbind_inv in E. destruct E as (st1 & oa & Ea & E).
  assert (H1 : oa = opts
               /\ if truthy (prop signer "ed25519PublicKey")
                  then exists raw,
                         Keypair.xdrAccountId (prop signer "ed25519PublicKey") = Ok raw
                         /\ st1 = (Some (xdr.signerKeyTypeEd25519 raw), 1)
                  else st1 = (None, 0)).
  { destruct (truthy (prop signer "ed25519PublicKey")).
    - step Ea. step Ea. apply ret_inv in Ea. destruct Ea as [-> ->]. eauto.
    - apply ret_inv in Ea. destruct Ea as [-> ->]. auto. }
  destruct H1 as [-> H1]. clear Ea.
  step E. fold signer in E.
  apply mbind_inv in E. destruct E as (st2 & ob & Eb & E).
  assert (H2 : (forall k, k <> "signer" -> get k ob = get k opts)
               /\ (forall k, k <> "preAuthTx" -> prop (get "signer" ob) k = prop signer k)
               /\ st2 = if truthy (prop signer "preAuthTx")
                        then (Some (xdr.signerKeyTypePreAuthTx
                                      (read_hash (prop signer "preAuthTx"))),
                              snd st1 + 1)
                        else st1).
  { destruct (truthy (prop signer "preAuthTx")).
    - apply mbind_inv in Eb. destruct Eb as (h & o' & Eh & Eb).
      apply ret_inv in Eb. destruct Eb as [-> ->].
      apply signer_hash_value in Eh. destruct Eh as (-> & Hg & Hp). auto.
    - apply ret_inv in Eb. destruct Eb as [-> ->]. auto. }
  destruct H2 as (Hg & Hp & H2). clear Eb.
  step E.
  apply mbind_inv in E. destruct E as (st3 & oc & Ec & E).
  rewrite (Hp "sha256Hash") in Ec by discriminate.
  assert (H3 : (forall k, k <> "signer" -> get k oc = get k opts)
               /\ st3 = if truthy (prop signer "sha256Hash")
                        then (Some (xdr.signerKeyTypeHashX
                                      (read_hash (prop signer "sha256Hash"))),
                              snd st2 + 1)
                        else st2).
  { destruct (truthy (prop signer "sha256Hash")).
    - apply mbind_inv in Ec. destruct Ec as (h & o' & Eh & Ec).
      apply ret_inv in Ec. destruct Ec as [-> ->].
      apply signer_hash_value in Eh. destruct Eh as (-> & Hg' & Hp').
      rewrite (Hp "sha256Hash") by discriminate. split; [|reflexivity].
      intros k Hk. now rewrite Hg', Hg.
    - apply ret_inv in Ec. destruct Ec as [-> ->]. auto. }
  destruct H3 as (Hg3 & H3). clear Ec.
  step E. apply guard_Ok, Z.eqb_eq in E0.
  apply ret_inv in E. destruct E as [-> ->].
  split; [exact Hg3|].
  eexists. split; [reflexivity|].
  unfold Operation.signer_object, decoded_signer.
  cbn [xdr.Signer.key xdr.Signer.weight xdr.Signer.signerType].
  fold signer.
  destruct (truthy (prop signer "ed25519PublicKey"));
    destruct (truthy (prop signer "preAuthTx"));
    destruct (truthy (prop signer "sha256Hash"));
    try destruct H1 as (raw & Hraw & H1); subst st1 st2 st3;
    cbn [fst snd] in E0 |- *; try lia; try reflexivity.
  rewrite (address_roundtrip _ _ Hraw). reflexivity.
Qed.

Lemma setOptions_decoded (opts o2 : obj) (op : xdr.Operation.t) :
  Operation.setOptions opts = (o2, Ok op) ->
  Operation.fromXDRObject op = Ok (decoded_setOptions opts).
Proof.
  intros E. unfold Operation.setOptions in E.
  step E.
  apply mbind_inv in E. destruct E as (infl & oi & Ei & E).
  assert (Hi : oi = opts
               /\ forall r,
                    match infl with
                    | Some a => set "inflationDest" (Operation.accountIdtoAddress a) r
                    | None => r
                    end
                    = if truthy (get "inflationDest" opts)
                      then set "inflationDest" (get "inflationDest" opts) r
                      else r).
  { destruct (truthy (get "inflationDest" opts)).
    - step Ei. step Ei. apply ret_inv in Ei. destruct Ei as [-> ->].
      now rewrite (address_roundtrip _ _ E1).
    - apply ret_inv in Ei. destruct Ei as [-> ->]. auto. }
  destruct Hi as [-> Hinfl]. clear Ei.
  step E. step E. apply check_value in E0. subst a.
  step E. step E. apply check_value in E0. subst a.
  step E. step E. apply check_value in E0. subst a.
  step E. step E. apply check_value in E0. subst a.
  step E. step E. apply check_value in E0. subst a.
  step E. step E. apply check_value in E0. subst a.
  step E. step E. clear E0.
  apply mbind_inv in E. destruct E as (sg & os & Es & E).
  injection E as -> E.
  apply new_Operation_inv in E. destruct E as (src & Hsrc & ->).
  apply source_roundtrip in Hsrc.
  assert (Hsg : decoded_source o2 = decoded_source opts
                /\ match sg with
                   | Some s =>
                       Operation.signer_object s
                       = Ok (decoded_signer (get "signer" opts))
                       /\ truthy (get "signer" opts) = true
                   | None => truthy (get "signer" opts) = false
                   end).
  { destruct (truthy (get "signer" opts)) eqn:Hs.
    - destruct (setOptions_signer_value _ _ _ Hs Es) as (Hg & s & -> & Hobj).
      split; [|auto]. unfold decoded_source. now rewrite Hg by discriminate.
    - destruct (setOptions_signer_absent _ _ _ Hs Es) as [-> ->]. auto. }
  destruct Hsg as [Hsource Hsg]. rewrite Hsource in Hsrc.
  unfold Operation.fromXDRObject.
  cbn [xdr.Operation.sourceAccount xdr.Operation.body
       xdr.SetOptionsOp.inflationDest xdr.SetOptionsOp.clearFlags
       xdr.SetOptionsOp.setFlags xdr.SetOptionsOp.masterWeight
       xdr.SetOptionsOp.lowThreshold xdr.SetOptionsOp.medThreshold
       xdr.SetOptionsOp.highThreshold xdr.SetOptionsOp.homeDomain
       xdr.SetOptionsOp.signer].
  rewrite Hsrc.
  rewrite Hinfl. unfold decoded_setOptions, decoded_source.
  destruct sg as [s|].
  - destruct Hsg as [-> ->]. cbn [bind].
    destruct (truthy (get "source" opts)), (truthy (get "inflationDest" opts));
      reflexivity.
  - rewrite Hsg.
    destruct (truthy (get "source" opts)), (truthy (get "inflationDest" opts));
      reflexivity.
Qed.

End RoundTrip.

Lemma strict_codec_lossless : @StrKey.Lossless StrictCodec.codec.
Proof.
  intros s raw. cbn [StrKey.decodeEd25519PublicKey StrKey.encodeEd25519PublicKey
                     StrictCodec.codec].
  unfold StrictCodec.decodeCheck.
  destruct (StrictCodec.base32_decode s) as [[|v rest]|]; try discriminate.
  set (data := firstn (List.length rest - 2) rest).
  destruct ((Byte.to_N v =? StrictCodec.versionByte)%N
            && Nat.eqb (List.length data) 32
            && (StrictCodec.encodeCheck data =? s)%string) eqn:E; [|discriminate].
  intros [= <-]. apply andb_prop in E. destruct E as [_ E].
  now apply String.eqb_eq in E.
Qed.

(** Every builder accepts some options: the statements on what a builder
    accepts are about calls that exist. *)
Example builders_accept :
  succeeds (Operation.createAccount (H := StrictCodec.codec) (H0 := StrictCodec.enums)
              [("destination", JsString test_address);
               ("startingBalance", JsString "0");
               ("accountType", JsNumber (Number.Int 1))])
  /\ succeeds (Operation.emission (H := StrictCodec.codec)
                 [("destination", JsString test_address); ("amount", JsString "10.5")])
  /\ succeeds (Operation.settlement (H := StrictCodec.codec)
                 [("amount", JsString "0.0000001"); ("source", JsString test_address)])
  /\ succeeds (Operation.payment (H := StrictCodec.codec) payment_example)
  /\ succeeds (snd (Operation.setOptions (H := StrictCodec.codec) (H0 := StrictCodec.enums)
                      (("setFlags", JsString "4") :: signer_with_weight)))
  /\ succeeds (Operation.accountMerge (H := StrictCodec.codec)
                 [("destination", JsString test_address)])
  /\ succeeds (Operation.manageData (H := StrictCodec.codec)
                 [("name", JsString "name"); ("value", JsString "value")])
  /\ succeeds (Operation.spendFee (H := StrictCodec.codec)
                 [("destination", JsString test_address);
                  ("amount", JsString "922337203685.4775807")])
  /\ succeeds (Operation.setFee (H := StrictCodec.codec)
                 [("baseFee", JsNumber (Number.Int 100))])
  /\ succeeds (Operation.restrictAccount (H := StrictCodec.codec)
                 [("account", JsString test_address);
                  ("setFlags", JsNumber (Number.Int 8))]).
Proof. repeat split; eexists; vm_compute; reflexivity. Qed.




(** ** Amounts read back from the wire *)

Section WireAmounts.

Import BigNumber.

Lemma substring_list (l : list ascii) (k m : nat) :
  substring k m (string_of_list_ascii l)
  = string_of_list_ascii (firstn m (skipn k l)).
Proof.
  revert l m. induction k as [|k IH]; intros l m.
  - cbn [skipn]. revert l. induction m as [|m IHm]; intros [|a l];
      cbn [string_of_list_ascii substring firstn]; try reflexivity.
    now rewrite IHm.
  - destruct l as [|a l]; cbn [string_of_list_ascii substring skipn].
    + destruct m; reflexivity.
    + apply IH.
Qed.

Lemma substring_digits (ds : list Z) (k m : nat) :
  substring k m (Digits.digits_to_string ds)
  = Digits.digits_to_string (firstn m (skipn k ds)).
Proof.
  unfold Digits.digits_to_string.
  now rewrite substring_list, skipn_map, firstn_map.
Qed.

(** The digits at the head of a string stop at a character that is not
    one. *)
Lemma span_digits_stop (ds : list Z) (rest : string) :
  Forall is_digit ds ->
  match rest with
  | String c _ => Digits.digit_of_ascii c = None
  | EmptyString => True
  end ->
  Digits.span_digits (Digits.digits_to_string ds ++ rest) = (ds, rest).
Proof.
  intros Hds Hrest. unfold Digits.digits_to_string.
  induction Hds as [|d ds Hd _ IH].
  - cbn [map string_of_list_ascii append].
    destruct rest as [|c r]; [reflexivity|].
    cbn [Digits.span_digits]. now rewrite Hrest.
  - cbn [map string_of_list_ascii append Digits.span_digits].
    now rewrite digit_of_to_ascii, IH.
Qed.

Lemma repeat_digits (k : nat) : Forall is_digit (repeat 0 k).
Proof. apply Forall_forall. intros x Hx. apply repeat_spec in Hx. subst. unfold is_digit. lia. Qed.

(** A positive decimal with a fractional part, written in fixed-point
    notation, is read back as it was. *)
Lemma of_string_toString_fraction (c e : Z) :
  0 < c -> c mod 10 <> 0 -> e < 0 -> -7 < exponent c e < 21 ->
  of_string (toString (bnFinite false c e)) = Some (bnFinite false c e).
Proof.
  intros Hc Hm He Hx.
  assert (Hr : MIN_EXP <= exponent c e <= MAX_EXP) by (unfold MIN_EXP, MAX_EXP; lia).
  pose proof (digits_of_range c) as Hds.
  pose proof (digits_of_value c (Z.lt_le_incl _ _ Hc)) as Hv.
  pose proof (ndigits_pos c Hc) as Hn.
  unfold toString. destruct (Z.leb_spec c 0) as [|_]; [lia|].
  unfold TO_EXP_NEG, TO_EXP_POS.
  destruct (Z.leb_spec (exponent c e) (-7)) as [|_]; [lia|].
  destruct (Z.leb_spec 21 (exponent c e)) as [|_]; [lia|].
  cbn [orb]. unfold toFixedPoint.
  destruct (Z.ltb_spec (exponent c e) 0) as [Hneg|Hpos].
  - (* 0.000ddd *)
    set (m := Z.to_nat (- exponent c e - 1)).
    replace (- exponent c e - 1) with (Z.of_nat m) by (unfold m; lia).
    rewrite <- digits_to_string_zeros, <- digits_to_string_app.
    set (fp := (repeat 0 m ++ Digits.digits_of c)%list).
    assert (Hfp : Forall is_digit fp)
      by (apply Forall_app; split; [apply repeat_digits|assumption]).
    unfold of_string.
    change ("0." ++ Digits.digits_to_string fp)%string
      with (String "0" (String "." (Digits.digits_to_string fp))).
    cbn [parse_sign String.eqb Ascii.eqb Bool.eqb Digits.span_digits].
    change (Digits.digit_of_ascii "0") with (Some 0).
    change (Digits.digit_of_ascii ".") with (@None Z).
    cbn [Digits.fraction_part].
    rewrite span_digits_string by assumption.
    cbn [parse_exponent app].
    assert (Hlen : Z.of_nat (List.length fp) = - e).
    { unfold fp. rewrite length_app, repeat_length. unfold m, exponent, ndigits in *. lia. }
    assert (Hval : Digits.of_digits (0 :: fp) = c).
    { change (0 :: fp) with ([0] ++ fp)%list. rewrite of_digits_app.
      unfold fp. rewrite of_digits_app, of_digits_zeros, Hv.
      change (Digits.of_digits [0]) with 0. lia. }
    destruct fp as [|d fp']; [cbn in Hlen; lia|].
    rewrite Hval, Hlen. replace (0 - - e) with e by lia.
    now rewrite normalise_stripped.
  - (* ddd.ddd *)
    rewrite digits_to_string_length. fold (ndigits c).
    destruct (Z.ltb_spec (ndigits c) (exponent c e + 1)) as [Hl|_];
      [unfold exponent in Hl; lia|].
    destruct (Z.ltb_spec (exponent c e + 1) (ndigits c)) as [_|Hl];
      [|unfold exponent in Hl; lia].
    rewrite !substring_digits. cbn [skipn].
    set (k := Z.to_nat (exponent c e + 1)).
    set (ip := firstn k (Digits.digits_of c)).
    assert (Hk : (1 <= k)%nat /\ Z.of_nat k = exponent c e + 1) by (unfold k; lia).
    assert (Hfull : firstn (Z.to_nat (ndigits c - (exponent c e + 1)))
                      (skipn k (Digits.digits_of c)) = skipn k (Digits.digits_of c)).
    { apply firstn_all2. rewrite length_skipn. unfold exponent, ndigits in *. lia. }
    rewrite Hfull. clear Hfull. clearbody k.
    set (fp := skipn k (Digits.digits_of c)).
    assert (Happ : (ip ++ fp)%list = Digits.digits_of c) by apply firstn_skipn.
    assert (Hip : Forall is_digit ip /\ Forall is_digit fp)
      by (apply Forall_app; now rewrite Happ).
    destruct Hip as [Hip Hfp].
    assert (Hlen : Z.of_nat (List.length fp) = - e).
    { unfold fp. rewrite length_skipn. unfold exponent, ndigits in *. lia. }
    assert (Hne : ip <> []).
    { intros E. assert (List.length ip = 0%nat) by now rewrite E.
      unfold ip in *. rewrite length_firstn in *. unfold exponent, ndigits in *. lia. }
    destruct ip as [|d ip'] eqn:Eip; [congruence|].
    assert (Hd : is_digit d) by now inversion Hip.
    unfold of_string.
    destruct (digit_head (Digits.digits_to_string (d :: ip') ++ "." ++ Digits.digits_to_string fp)
                (Digits.digit_to_ascii d)
                (Digits.digits_to_string ip' ++ "." ++ Digits.digits_to_string fp) d)
      as (-> & -> & ->); [reflexivity|now apply digit_of_to_ascii|].
    rewrite span_digits_stop by (assumption || reflexivity).
    cbn [append Digits.fraction_part].
    rewrite span_digits_string by assumption.
    cbn [parse_exponent].
    rewrite Happ, Hv, Hlen. replace (0 - - e) with e by lia.
    destruct fp; now rewrite normalise_stripped.
Qed.

Lemma exponent_two_digits (c k : Z) :
  0 < c -> 0 <= k -> 10 <= c * 10 ^ k -> 1 <= exponent c k.
Proof.
  intros Hc Hk Hn. unfold exponent. pose proof (ndigits_pos c Hc) as Hp.
  destruct (Z.eq_dec k 0) as [->|]; [|lia].
  rewrite Z.pow_0_r, Z.mul_1_r in Hn.
  pose proof (ndigits_bounds c Hc) as [_ Hhi].
  destruct (Z.eq_dec (ndigits c) 1) as [E|]; [|lia].
  rewrite E in Hhi. change (10 ^ 1) with 10 in Hhi. lia.
Qed.

(** What [_fromXDRAmount] makes of a wire integer of ten or more. *)
Lemma fromXDRAmount_value (n : Z) :
  10 <= n <= 9223372036854775807 ->
  exists c e,
    0 < c /\ c mod 10 <> 0 /\ -7 <= e /\ n = c * 10 ^ (e + 7)
    /\ -7 < exponent c e < 12
    /\ Operation._fromXDRAmount n
       = Ok (JsString (toString (bnFinite false c e)))
    /\ of_string (toString (bnFinite false c e)) = Some (bnFinite false c e).
Proof.
  intros Hn.
  destruct (of_Z_cases n 19) as (c & k & Hc & Hm & Hk & Hv & Hx & E);
    [lia|unfold MAX_EXP; lia|rewrite Z.abs_eq by lia; lia|].
  rewrite Z.abs_eq in Hv by lia.
  destruct (Z.ltb_spec n 0) as [|_]; [lia|].
  pose proof (exponent_two_digits c k Hc Hk ltac:(lia)) as H1.
  assert (Hshift : exponent c (k - 7) = exponent c k - 7) by (unfold exponent; lia).
  exists c, (k - 7). replace (k - 7 + 7) with k by lia.
  split; [assumption|]. split; [assumption|]. split; [lia|]. split; [assumption|].
  split; [lia|]. split.
  - unfold Operation._fromXDRAmount, Operation.BigNumber_new, Hyper.toString.
    rewrite of_string_Z_to_string, E. cbn [bind]. rewrite ONE_eq. cbn [div xorb].
    destruct (Z.eqb_spec c 0) as [|_]; [lia|]. cbn [Z.eqb].
    unfold DECIMAL_PLACES. replace (k - 7 + 20) with (k + 13) by lia.
    destruct (Z.leb_spec 0 (k + 13)); [|lia].
    rewrite half_up_exact.
    assert (E20 : - (20) + (k + 13) = k - 7) by lia.
    rewrite normalise_shift
      by (rewrite ?E20, ?Hshift; unfold MIN_EXP, MAX_EXP; assumption || lia).
    now rewrite E20.
  - destruct (Z.ltb_spec (k - 7) 0) as [Hneg|Hpos].
    + apply of_string_toString_fraction; lia.
    + rewrite toString_finite_integer by lia.
      cbn [append].
      assert (Ez : Digits.nat_to_string (c * 10 ^ (k - 7))
                   = Digits.Z_to_string (c * 10 ^ (k - 7))).
      { unfold Digits.Z_to_string.
        destruct (Z.ltb_spec (c * 10 ^ (k - 7)) 0) as [Hlt|]; [|reflexivity].
        pose proof (pow10_pos (k - 7)). nia. }
      rewrite Ez, of_string_Z_to_string. unfold of_Z.
      pose proof (pow10_pos (k - 7) Hpos).
      destruct (Z.ltb_spec (c * 10 ^ (k - 7)) 0) as [|_]; [nia|].
      rewrite Z.abs_eq by nia.
      rewrite normalise_shift
        by (rewrite ?Z.add_0_l, ?Hshift; unfold MIN_EXP, MAX_EXP; assumption || lia).
      now rewrite Z.add_0_l.
Qed.

(** Every amount the wire can hold, from zero to the largest signed 64-bit
    integer, is decoded to a string that [isValidAmount] accepts (with
    [allowZero], and without it when the integer is not zero) and that
    [_toXDRAmount] encodes to the same integer. *)
Theorem fromXDRAmount_toXDRAmount (n : Z) :
  0 <= n <= 9223372036854775807 ->
  exists s,
    Operation._fromXDRAmount n = Ok (JsString s)
    /\ Operation.isValidAmount (JsString s) true = true
    /\ (0 < n -> Operation.isValidAmount (JsString s) false = true)
    /\ Operation._toXDRAmount (JsString s) = Ok n.
Proof.
  intros Hn. destruct (Z.lt_ge_cases n 10) as [Hsmall|Hbig].
  - (* below ten the rendering is exponential, or [0] *)
    assert (En : n = Z.of_nat (Z.to_nat n)) by lia.
    assert (Hk : (Z.to_nat n < 10)%nat) by lia.
    rewrite En. revert Hk. generalize (Z.to_nat n). intros k Hk.
    do 10 (destruct k as [|k];
           [eexists; split; [vm_compute; reflexivity|];
            split; [vm_compute; reflexivity|];
            split; [intros H0; try lia; vm_compute; reflexivity
                   |vm_compute; reflexivity]|]).
    lia.
  - destruct (fromXDRAmount_value n) as (c & e & Hc & Hm & He & Hv & Hx & Hfrom & Hread);
      [lia|].
    exists (toString (bnFinite false c e)). split; [assumption|].
    assert (Hwf : wf (bnFinite false c e)).
    { right. repeat split; try assumption; unfold MIN_EXP, MAX_EXP; lia. }
    assert (Hvalid : forall allowZero,
               Operation.isValidAmount (JsString (toString (bnFinite false c e)))
                 allowZero = true).
    { intros allowZero. rewrite isValidAmount_string, Hread.
      apply amount_checks_finite; [assumption|].
      split; [reflexivity|]. split; [right; lia|]. split; lia. }
    split; [apply Hvalid|]. split; [intros _; apply Hvalid|].
    destruct (amount_roundtrip _ _ true Hread (Hvalid true)) as (n' & Hto & _ & _ & Hd).
    rewrite Hto. f_equal.
    unfold denotes in Hd. cbn [value signed] in Hd.
    apply scaled_stroops in Hd; [|right; auto]. lia.
Qed.

Lemma fromXDRAmount_toXDRAmount_witness :
  Operation._fromXDRAmount 15000000 = Ok (JsString "1.5")
  /\ Operation._toXDRAmount (JsString "1.5") = Ok 15000000.
Proof.
  destruct (fromXDRAmount_toXDRAmount 15000000) as (s & H1 & _ & _ & H2); [lia|].
  assert (E : s = "1.5") by (vm_compute in H1; congruence).
  subst s. split; assumption.
Defined.

End WireAmounts.

(** ** What the builders accept *)

Lemma denotes_stroops_unique (x : BigNumber.t) (n m : Z) :
  denotes x (n # 10000000) -> denotes x (m # 10000000) -> n = m.
Proof.
  unfold denotes. destruct (BigNumber.value x) as [v|]; [|contradiction].
  intros Hn Hm. rewrite Hn in Hm. unfold Qeq in Hm. cbn in Hm. lia.
Qed.

(** An accepted amount is encoded, without wrapping, to its number of
    stroops. *)
Lemma toXDRAmount_valid (value : JsValue) (allowZero : bool) :
  Operation.isValidAmount value allowZero = true ->
  exists n,
    Operation._toXDRAmount value = Ok n
    /\ in_stroops value n
    /\ 0 <= n <= 9223372036854775807
    /\ (allowZero = false -> 0 < n).
Proof.
  intros Hv. pose proof Hv as Hacc. apply isValidAmount_accepts in Hacc.
  destruct Hacc as (s & x & m & -> & Es & _ & Hd & Hm & Hz).
  destruct (amount_roundtrip s x allowZero Es Hv) as (n & Hn & _ & Hr & Hd').
  pose proof (denotes_stroops_unique _ _ _ Hd Hd') as ->.
  exists n. split; [assumption|]. split; [exists s, x; auto|]. split; [assumption|].
  intros ->. destruct Hz as [[=]|Hz]. lia.
Qed.

(** *** [_checkUnsignedIntValue] *)

(** On a value that is not [undefined], [_checkUnsignedIntValue] goes by
    the number the value reads as. *)
Lemma checkUnsignedIntValue_number (name : string) (value : JsValue)
    (f : option Operation.check) :
  value <> JsUndefined ->
  Operation._checkUnsignedIntValue name value f =
  match to_number value with
  | Some (Number.Int z) =>
      if z <? 0 then Throw (name ++ " value must be unsigned")
      else match f with
           | None => Ok (JsNumber (Number.Int z))
           | Some g =>
               bind (g (Number.Int z) name)
                 (fun ok => if ok then Ok (JsNumber (Number.Int z))
                            else Throw (name ++ " value is invalid"))
           end
  | _ => Throw (name ++ " value is invalid")
  end.
Proof.
  intros Hu. unfold Operation._checkUnsignedIntValue, to_number.
  destruct value as [| | |n|s| | |]; cbn [isUndefined]; try reflexivity;
    try congruence.
  - destruct n; reflexivity.
  - destruct (Number.parseFloat s); reflexivity.
Qed.

Lemma weightCheckFunction_value (name : string) (z : Z) :
  0 <= z ->
  bind (Operation.weightCheckFunction (Number.Int z) name)
    (fun ok => if ok then Ok (JsNumber (Number.Int z))
               else Throw (name ++ " value is invalid"))
  = if z <=? 255 then Ok (JsNumber (Number.Int z))
    else Throw (name ++ " value must be between 0 and 255").
Proof.
  intros Hz. unfold Operation.weightCheckFunction.
  cbn [Number.geZ Number.leZ].
  destruct (Z.leb_spec 0 z); [|lia]. cbn [andb].
  destruct (z <=? 255); reflexivity.
Qed.

Lemma check_unsigned_iff (name : string) (value : JsValue) :
  succeeds (Operation._checkUnsignedIntValue name value None) <->
  value = JsUndefined \/ is_unsigned value.
Proof.
  split.
  - intros [r E]. destruct value as [| | |n|s| | |]; auto; right;
      rewrite checkUnsignedIntValue_number in E by discriminate; unfold is_unsigned;
      destruct (to_number _) as [[| |z|]|]; try discriminate E;
      destruct (Z.ltb_spec z 0); try discriminate E; eauto.
  - intros [->|(z & Ez & Hz)]; [eexists; reflexivity|].
    rewrite checkUnsignedIntValue_number by (intros ->; discriminate Ez). rewrite Ez.
    destruct (Z.ltb_spec z 0); [lia|]. eexists; reflexivity.
Qed.

Lemma check_weight_iff (name : string) (value : JsValue) :
  succeeds (Operation._checkUnsignedIntValue name value
              (Some Operation.weightCheckFunction)) <->
  value = JsUndefined \/ is_weight value.
Proof.
  split.
  - intros [r E]. destruct value as [| | |n|s| | |]; auto; right;
      rewrite checkUnsignedIntValue_number in E by discriminate; unfold is_weight;
      destruct (to_number _) as [[| |z|]|]; try discriminate E;
      destruct (Z.ltb_spec z 0); try discriminate E;
      rewrite weightCheckFunction_value in E by assumption;
      destruct (Z.leb_spec z 255); try discriminate E; eauto.
  - intros [->|(z & Ez & Hz)]; [eexists; reflexivity|].
    rewrite checkUnsignedIntValue_number by (intros ->; discriminate Ez). rewrite Ez.
    destruct (Z.ltb_spec z 0); [lia|]. rewrite weightCheckFunction_value by lia.
    destruct (Z.leb_spec z 255); [|lia]. eexists; reflexivity.
Qed.

(** [_checkUnsignedIntValue] returns on [undefined] and on what reads as a
    non-negative integer, within 0..255 under the weight check, and on
    nothing else; it reports a negative integer as not unsigned, an integer
    above 255 as out of the range of a weight, and everything else as
    invalid. *)
Theorem checkUnsignedIntValue_accepts (name : string) (value : JsValue) :
  (succeeds (Operation._checkUnsignedIntValue name value None) <->
   value = JsUndefined \/ is_unsigned value)
  /\ (succeeds (Operation._checkUnsignedIntValue name value
                  (Some Operation.weightCheckFunction)) <->
      value = JsUndefined \/ is_weight value)
  /\ (forall f z,
        to_number value = Some (Number.Int z) -> z < 0 ->
        Operation._checkUnsignedIntValue name value f
        = Throw (name ++ " value must be unsigned"))
  /\ (forall z,
        to_number value = Some (Number.Int z) -> 255 < z ->
        Operation._checkUnsignedIntValue name value
          (Some Operation.weightCheckFunction)
        = Throw (name ++ " value must be between 0 and 255"))
  /\ (forall f n,
        to_number value = Some n -> (forall z, n <> Number.Int z) ->
        Operation._checkUnsignedIntValue name value f
        = Throw (name ++ " value is invalid"))
  /\ (forall f,
        value <> JsUndefined -> to_number value = None ->
        Operation._checkUnsignedIntValue name value f
        = Throw (name ++ " value is invalid")).
Proof.
  split; [apply check_unsigned_iff|]. split; [apply check_weight_iff|].
  split; [|split; [|split]].
  - intros f z Ez Hz.
    rewrite checkUnsignedIntValue_number by (intros ->; discriminate Ez). rewrite Ez.
    destruct (Z.ltb_spec z 0); [reflexivity|lia].
  - intros z Ez Hz.
    rewrite checkUnsignedIntValue_number by (intros ->; discriminate Ez). rewrite Ez.
    destruct (Z.ltb_spec z 0); [lia|]. rewrite weightCheckFunction_value by lia.
    destruct (Z.leb_spec z 255); [lia|reflexivity].
  - intros f n En Hn.
    rewrite checkUnsignedIntValue_number by (intros ->; discriminate En). rewrite En.
    destruct n as [| |z|]; try reflexivity. now destruct (Hn z).
  - intros f Hu En. rewrite checkUnsignedIntValue_number by assumption. now rewrite En.
Qed.

Section Acceptance.

Context `{StrKey.Codec} `{xdr.Enums}.

Lemma xdrAccountId_valid (x : JsValue) :
  succeeds (Keypair.xdrAccountId x) <-> StrKey.isValidEd25519PublicKey x = true.
Proof.
  split.
  - intros [raw E]. unfold Keypair.xdrAccountId, StrKey.isValidEd25519PublicKey in *.
    destruct x; try discriminate.
    destruct (StrKey.decodeEd25519PublicKey s); [reflexivity|discriminate].
  - intros Hv. destruct (isValid_xdrAccountId _ Hv) as (s & raw & _ & _ & E).
    now exists raw.
Qed.

Ltac accept_only_if :=
  let Hs := fresh "Hs" in
  intros Hs;
  repeat (apply succeeds_guard in Hs; destruct Hs as [? Hs]);
  repeat match type of Hs with
    | succeeds (bind (Keypair.xdrAccountId _) _) =>
        apply succeeds_bind in Hs; destruct Hs as (? & ? & Hs)
    | succeeds (bind (Operation._toXDRAmount _) _) =>
        apply succeeds_bind in Hs; destruct Hs as (? & ? & Hs)
    | succeeds (bind (Operation._accountTypeFromNumber _) _) =>
        apply succeeds_bind in Hs; destruct Hs as (? & ? & Hs)
    | succeeds (bind (Operation._checkUnsignedIntValue _ _ _) _) =>
        apply succeeds_bind in Hs; destruct Hs as (? & ? & Hs)
    end;
  apply new_Operation_succeeds in Hs;
  repeat split; assumption.

Ltac accept_if :=
  intros;
  repeat match goal with H : _ /\ _ |- _ => destruct H end;
  repeat (apply succeeds_guard; split; [assumption|]);
  repeat match goal with
    | Hd : StrKey.isValidEd25519PublicKey ?d = true
      |- succeeds (bind (Keypair.xdrAccountId ?d) _) =>
        let raw := fresh "raw" in
        apply succeeds_bind; apply xdrAccountId_valid in Hd;
        destruct Hd as [raw Hd]; exists raw; split; [assumption|]
    | Ha : Operation.isValidAmount ?a _ = true
      |- succeeds (bind (Operation._toXDRAmount ?a) _) =>
        let n := fresh "n" in
        apply succeeds_bind; apply toXDRAmount_valid in Ha;
        destruct Ha as (n & Ha & _); exists n; split; [assumption|]
    end;
  now apply new_Operation_succeeds.



(** [accountMerge] builds an operation exactly when the destination is a
    valid address; [setFee] takes any base fee, a missing one as well;
    [restrictAccount] builds one exactly when each of the two flag fields is
    absent or reads as a non-negative integer and the account is a valid
    address.  In each case the source, if given, has to be a valid
    address. *)
Theorem plain_builders_accept (opts : obj) :
  (succeeds (Operation.accountMerge opts) <->
   StrKey.isValidEd25519PublicKey (get "destination" opts) = true
   /\ source_ok opts)
  /\ (succeeds (Operation.setFee opts) <-> source_ok opts)
  /\ (succeeds (Operation.restrictAccount opts) <->
      (get "clearFlags" opts = JsUndefined \/ is_unsigned (get "clearFlags" opts))
      /\ (get "setFlags" opts = JsUndefined \/ is_unsigned (get "setFlags" opts))
      /\ StrKey.isValidEd25519PublicKey (get "account" opts) = true
      /\ source_ok opts).
Proof.
  unfold Operation.accountMerge, Operation.setFee, Operation.restrictAccount.
  split; [|split].
  - split; [accept_only_if|accept_if].
  - apply new_Operation_succeeds.
  - split.
    + intros Hs.
      apply succeeds_bind in Hs. destruct Hs as (cf & Hcf & Hs).
      apply succeeds_bind in Hs. destruct Hs as (sf & Hsf & Hs).
      apply succeeds_bind in Hs. destruct Hs as (raw & Hraw & Hs).
      apply new_Operation_succeeds in Hs.
      split; [apply (check_unsigned_iff "clearFlags"); eexists; eassumption|].
      split; [apply (check_unsigned_iff "setFlags"); eexists; eassumption|].
      split; [apply xdrAccountId_valid; eexists; eassumption|assumption].
    + intros (Hcf & Hsf & Hraw & Hs).
      apply (check_unsigned_iff "clearFlags") in Hcf. destruct Hcf as [cf Hcf].
      apply (check_unsigned_iff "setFlags") in Hsf. destruct Hsf as [sf Hsf].
      apply xdrAccountId_valid in Hraw. destruct Hraw as [raw Hraw].
      apply succeeds_bind. exists cf. split; [assumption|].
      apply succeeds_bind. exists sf. split; [assumption|].
      apply succeeds_bind. exists raw. split; [assumption|].
      now apply new_Operation_succeeds.
Qed.


End Acceptance.


(** ** What [setOptions] does to its argument *)

Section Keeps.

Variable P : obj -> obj -> Prop.
Hypothesis P_refl : forall o, P o o.
Hypothesis P_trans : forall o1 o2 o3, P o1 o2 -> P o2 o3 -> P o1 o3.

Lemma keeps_same {A : Type} (m : Operation.M A) :
  (forall o, fst (m o) = o) -> keeps P m.
Proof. intros E o. rewrite E. apply P_refl. Qed.

Lemma keeps_bind {A B : Type} (m : Operation.M A) (k : A -> Operation.M B) :
  keeps P m -> (forall a, keeps P (k a)) -> keeps P (Operation.mbind m k).
Proof.
  intros Hm Hk o. unfold Operation.mbind. specialize (Hm o).
  destruct (m o) as [o1 [a|msg]]; cbn [fst] in *.
  - apply (P_trans _ o1); [assumption|apply Hk].
  - assumption.
Qed.

End Keeps.

Lemma hashes_decoded_refl (o : obj) : hashes_decoded o o.
Proof. repeat split; auto. Qed.

Lemma hashes_decoded_trans (o1 o2 o3 : obj) :
  hashes_decoded o1 o2 -> hashes_decoded o2 o3 -> hashes_decoded o1 o3.
Proof.
  intros (Hg & Hp & He) (Hg' & Hp' & He'). split; [|split].
  - intros k Hk. now rewrite Hg', Hg.
  - intros k. destruct (Hp k) as [E|(Hk & s & E1 & E2)],
      (Hp' k) as [E'|(Hk' & s' & E1' & E2')].
    + left. congruence.
    + right. split; [assumption|]. exists s'. split; congruence.
    + right. split; [assumption|]. exists s. split; congruence.
    + congruence.
  - intros H1 H2. assert (o2 = o1) by auto. subst o2. auto.
Qed.

Section SetOptionsEffect.

Context `{StrKey.Codec} `{xdr.Enums}.

Lemma keeps_signer_hash (which : string) :
  which = "preAuthTx" \/ which = "sha256Hash" ->
  keeps hashes_decoded (Operation.signer_hash which).
Proof.
  intros Hw o. rewrite signer_hash_state.
  destruct (prop (get "signer" o) which) as [| | | |s| | |] eqn:Ep;
    try apply hashes_decoded_refl.
  split; [|split].
  - intros k Hk. apply get_set_other. congruence.
  - intros k. rewrite get_set_same.
    destruct (string_dec which k) as [<-|Hne].
    + right. split; [assumption|]. exists s. split; [assumption|].
      apply prop_set_prop_same. congruence.
    + left. now apply prop_set_prop_other.
  - intros H1 H2. destruct Hw as [-> | ->]; rewrite Ep in *; discriminate.
Qed.

Ltac keeps_step :=
  first
    [ apply keeps_signer_hash; auto; fail
    | apply (keeps_bind _ hashes_decoded_trans); [|intros ?]
    | apply (keeps_same _ hashes_decoded_refl); intros ?; reflexivity
    | match goal with
      | |- keeps _ (if ?b then _ else _) => destruct b
      end ].

Lemma keeps_setOptions_signer : keeps hashes_decoded Operation.setOptions_signer.
Proof. unfold Operation.setOptions_signer. repeat keeps_step. Qed.

Lemma keeps_setOptions : keeps hashes_decoded Operation.setOptions.
Proof.
  unfold Operation.setOptions.
  repeat first [apply keeps_setOptions_signer | keeps_step].
Qed.

(** [setOptions] leaves every field of its argument other than [signer] as
    it is, and every field of the signer too, except that a [preAuthTx] or
    [sha256Hash] given as a string may have become the buffer of the bytes
    its hexadecimal digits stand for; with neither of them a string, the
    argument is after the call what it was before.  This holds of a call
    that throws as of one that returns. *)
Theorem setOptions_effect (opts : obj) :
  (forall k, k <> "signer" -> get k (fst (Operation.setOptions opts)) = get k opts)
  /\ (forall k,
        prop (get "signer" (fst (Operation.setOptions opts))) k
        = prop (get "signer" opts) k
        \/ ((k = "preAuthTx" \/ k = "sha256Hash")
            /\ exists s,
                 prop (get "signer" opts) k = JsString s
                 /\ prop (get "signer" (fst (Operation.setOptions opts))) k
                    = JsBuffer (Buffer.from_hex s)))
  /\ (isString (prop (get "signer" opts) "preAuthTx") = false ->
      isString (prop (get "signer" opts) "sha256Hash") = false ->
      fst (Operation.setOptions opts) = opts).
Proof. exact (keeps_setOptions opts). Qed.

(** *** What [setOptions] accepts *)

Ltac step E :=
  let a := fresh "a" in
  let o := fresh "o" in
  let E1 := fresh "E" in
  apply mbind_inv in E; destruct E as (a & o & E1 & E);
  first [ apply read_inv in E1; destruct E1 as [-> ->]
        | apply read_signer_inv in E1; destruct E1 as [-> ->]
        | apply lift_inv in E1; destruct E1 as [-> E1]
        | idtac ].

Lemma succeeds_mbind {A B : Type} (m : Operation.M A) (k : A -> Operation.M B)
    (o o1 : obj) (a : A) :
  m o = (o1, Ok a) -> succeeds (snd (k a o1)) ->
  succeeds (snd (Operation.mbind m k o)).
Proof. intros E Hk. now rewrite (mbind_step _ _ _ _ _ E). Qed.

Lemma succeeds_mbind_inv {A B : Type} (m : Operation.M A) (k : A -> Operation.M B)
    (o : obj) :
  succeeds (snd (Operation.mbind m k o)) ->
  exists a o1, m o = (o1, Ok a) /\ succeeds (snd (k a o1)).
Proof.
  unfold Operation.mbind. destruct (m o) as [o1 [a|msg]]; [eauto|].
  intros [x [=]].
Qed.

Lemma signer_hash_ok (which : string) (o : obj) (b : list byte) :
  read_hash (prop (get "signer" o) which) = JsBuffer b ->
  List.length b = 32%nat ->
  exists o1,
    Operation.signer_hash which o = (o1, Ok (JsBuffer b))
    /\ (forall k, k <> which -> prop (get "signer" o1) k = prop (get "signer" o) k)
    /\ (forall k, k <> "signer" -> get k o1 = get k o).
Proof.
  intros Hr Hl.
  assert (Hg : guard (Buffer.isBuffer (JsBuffer b) && (Buffer.length (JsBuffer b) =? 32))
                 ("signer." ++ which ++ " must be 32 bytes Buffer.") = Ok tt).
  { cbn [Buffer.isBuffer Buffer.length andb]. rewrite Hl. reflexivity. }
  unfold Operation.signer_hash.
  rewrite (mbind_step _ _ o o (prop (get "signer" o) which)) by reflexivity.
  destruct (prop (get "signer" o) which) as [| | | |s|b'| |] eqn:Ep;
    try discriminate Hr; cbn [read_hash] in Hr; injection Hr as Hr.
  - set (o1 := set "signer" (set_prop (get "signer" o) which (JsBuffer (Buffer.from_hex s))) o).
    assert (Hp : prop (get "signer" o1) which = JsBuffer b).
    { unfold o1. rewrite get_set_same, <- Hr. apply prop_set_prop_same. congruence. }
    exists o1.
    rewrite (mbind_step _ _ o o1 tt) by reflexivity.
    rewrite (mbind_step _ _ o1 o1 (prop (get "signer" o1) which)) by reflexivity.
    rewrite Hp.
    rewrite (mbind_step _ _ _ _ _ (lift_step _ _ o1 Hg)).
    split; [reflexivity|]. split.
    + intros k Hk. unfold o1. rewrite get_set_same. now apply prop_set_prop_other.
    + intros k Hk. unfold o1. apply get_set_other. congruence.
  - subst b'. exists o.
    rewrite (mbind_step _ _ o o tt) by reflexivity.
    rewrite (mbind_step _ _ o o (prop (get "signer" o) which)) by reflexivity.
    rewrite Ep.
    rewrite (mbind_step _ _ _ _ _ (lift_step _ _ o Hg)).
    repeat split; reflexivity.
Qed.

Lemma signer_type_guard (signerType : JsValue) :
  negb (isUndefined signerType || negb (Operation._isValidSignerType signerType))
  = xdr.has xdr.SignerType_byValue signerType.
Proof.
  unfold Operation._isValidSignerType.
  destruct signerType; cbn [isUndefined orb xdr.has negb]; try reflexivity.
  now rewrite negb_involutive.
Qed.

Lemma setOptions_signer_only_if (opts : obj) :
  truthy (get "signer" opts) = true ->
  succeeds (snd (Operation.setOptions_signer opts)) ->
  accepted_signer (get "signer" opts).
Proof.
  intros Hs [sg Hsg].
  destruct (Operation.setOptions_signer opts) as [o1 r] eqn:E. cbn [snd] in Hsg.
  subst r.
  destruct (setOptions_signer_inv _ _ _ Hs E) as (Hkeys & Hw & Hty).
  split; [assumption|]. split; [assumption|]. split; [assumption|].
  unfold Operation.setOptions_signer in E.
  step E. rewrite Hs in E.
  step E. step E. step E. step E. step E.
  apply mbind_inv in E. destruct E as (st1 & oa & Ea & E).
  assert (H1 : oa = opts
               /\ (truthy (prop (get "signer" opts) "ed25519PublicKey") = true ->
                   StrKey.isValidEd25519PublicKey (prop (get "signer" opts) "ed25519PublicKey")
                   = true)).
  { destruct (truthy (prop (get "signer" opts) "ed25519PublicKey")).
    - step Ea. step Ea. apply ret_inv in Ea. destruct Ea as [-> _].
      apply guard_Ok in E2. auto.
    - apply ret_inv in Ea. destruct Ea as [-> _]. split; [reflexivity|discriminate]. }
  destruct H1 as [-> H1]. clear Ea. split; [assumption|].
  step E.
  apply mbind_inv in E. destruct E as (st2 & ob & Eb & E).
  assert (H2 : (forall k, k <> "preAuthTx" -> prop (get "signer" ob) k = prop (get "signer" opts) k)
               /\ (truthy (prop (get "signer" opts) "preAuthTx") = true ->
                   exists b, read_hash (prop (get "signer" opts) "preAuthTx") = JsBuffer b
                             /\ List.length b = 32%nat)).
  { destruct (truthy (prop (get "signer" opts) "preAuthTx")).
    - apply mbind_inv in Eb. destruct Eb as (h & o' & Eh & Eb).
      apply ret_inv in Eb. destruct Eb as [-> _].
      pose proof (signer_hash_inv _ _ _ _ Eh) as (_ & _ & b & Hb & Hl).
      apply signer_hash_value in Eh. destruct Eh as (Hh & _ & Hp).
      split; [exact Hp|]. intros _. exists b. split; congruence.
    - apply ret_inv in Eb. destruct Eb as [-> _]. split; [reflexivity|discriminate]. }
  destruct H2 as [Hp H2]. clear Eb.
  step E.
  apply mbind_inv in E. destruct E as (st3 & oc & Ec & E).
  rewrite (Hp "sha256Hash") in Ec by discriminate.
  assert (H3 : truthy (prop (get "signer" opts) "sha256Hash") = true ->
               exists b, read_hash (prop (get "signer" opts) "sha256Hash") = JsBuffer b
                         /\ List.length b = 32%nat).
  { destruct (truthy (prop (get "signer" opts) "sha256Hash")); [|discriminate].
    apply mbind_inv in Ec. destruct Ec as (h & o' & Eh & Ec).
    pose proof (signer_hash_inv _ _ _ _ Eh) as (_ & _ & b & Hb & Hl).
    apply signer_hash_value in Eh. destruct Eh as (Hh & _ & _).
    rewrite (Hp "sha256Hash") in Hh by discriminate.
    intros _. exists b. split; congruence. }
  intros which [-> | ->]; assumption.
Qed.

Lemma setOptions_signer_passes (opts : obj) :
  truthy (get "signer" opts) = true ->
  accepted_signer (get "signer" opts) ->
  succeeds (snd (Operation.setOptions_signer opts)).
Proof.
  intros Hs (Hw & Hty & Hkeys & Hed & Hhash).
  apply (check_weight_iff "signer.weight") in Hw. destruct Hw as [w Hw].
  pose proof (Hhash "preAuthTx" (or_introl eq_refl)) as Hpre.
  pose proof (Hhash "sha256Hash" (or_intror eq_refl)) as Hsha.
  clear Hhash.
  unfold Operation.setOptions_signer.
  eapply succeeds_mbind; [reflexivity|]. cbv beta. rewrite Hs.
  eapply succeeds_mbind; [reflexivity|]. cbv beta.
  eapply succeeds_mbind; [apply lift_step; exact Hw|]. cbv beta.
  eapply succeeds_mbind; [reflexivity|]. cbv beta.
  rewrite signer_type_guard, Hty.
  eapply succeeds_mbind; [reflexivity|]. cbv beta.
  eapply succeeds_mbind; [reflexivity|]. cbv beta.
  set (signer := get "signer" opts) in *.
  unfold keys_set in Hkeys.
  destruct (truthy (prop signer "ed25519PublicKey")) eqn:Eed.
  - (* the key is an address *)
    specialize (Hed eq_refl).
    destruct (isValid_xdrAccountId _ Hed) as (s & raw & _ & _ & Ex).
    rewrite Hed.
    eapply succeeds_mbind;
      [unfold Operation.mbind, Operation.lift, Operation.ret; cbn [guard];
       rewrite Ex; reflexivity|].
    cbv beta.
    eapply succeeds_mbind; [reflexivity|]. cbv beta. fold signer.
    destruct (truthy (prop signer "preAuthTx")) eqn:Epre;
      [destruct (truthy (prop signer "sha256Hash")); cbn in Hkeys; lia|].
    eapply succeeds_mbind; [reflexivity|]. cbv beta.
    eapply succeeds_mbind; [reflexivity|]. cbv beta. fold signer.
    destruct (truthy (prop signer "sha256Hash")) eqn:Esha; [cbn in Hkeys; lia|].
    eapply succeeds_mbind; [reflexivity|]. cbv beta.
    eapply succeeds_mbind; [reflexivity|]. cbv beta.
    eexists; reflexivity.
  - eapply succeeds_mbind; [reflexivity|]. cbv beta.
    eapply succeeds_mbind; [reflexivity|]. cbv beta. fold signer.
    destruct (truthy (prop signer "preAuthTx")) eqn:Epre.
    + (* the key is a pre-authorised transaction *)
      destruct (Hpre eq_refl) as (b & Hb & Hl).
      destruct (signer_hash_ok "preAuthTx" opts b Hb Hl) as (o1 & Eh & Hp & _).
      eapply succeeds_mbind;
        [rewrite (mbind_step _ _ _ _ _ Eh); reflexivity|].
      cbv beta.
      eapply succeeds_mbind; [reflexivity|]. cbv beta.
      rewrite (Hp "sha256Hash") by discriminate. fold signer.
      destruct (truthy (prop signer "sha256Hash")) eqn:Esha; [cbn in Hkeys; lia|].
      eapply succeeds_mbind; [reflexivity|]. cbv beta.
      eapply succeeds_mbind; [reflexivity|]. cbv beta.
      eexists; reflexivity.
    + eapply succeeds_mbind; [reflexivity|]. cbv beta.
      eapply succeeds_mbind; [reflexivity|]. cbv beta. fold signer.
      destruct (truthy (prop signer "sha256Hash")) eqn:Esha; [|cbn in Hkeys; lia].
      (* the key is a hash *)
      destruct (Hsha eq_refl) as (b & Hb & Hl).
      destruct (signer_hash_ok "sha256Hash" opts b Hb Hl) as (o1 & Eh & _ & _).
      eapply succeeds_mbind;
        [rewrite (mbind_step _ _ _ _ _ Eh); reflexivity|].
      cbv beta.
      eapply succeeds_mbind; [reflexivity|]. cbv beta.
      eexists; reflexivity.
Qed.

Lemma described_options_pass (opts : obj) :
  options_pass opts <-> described_options opts.
Proof.
  unfold options_pass, described_options.
  pose proof (check_unsigned_iff "clearFlags" (get "clearFlags" opts)) as [C1 C2].
  pose proof (check_unsigned_iff "setFlags" (get "setFlags" opts)) as [S1 S2].
  pose proof (check_weight_iff "masterWeight" (get "masterWeight" opts)) as [M1 M2].
  pose proof (check_weight_iff "lowThreshold" (get "lowThreshold" opts)) as [L1 L2].
  pose proof (check_weight_iff "medThreshold" (get "medThreshold" opts)) as [D1 D2].
  pose proof (check_weight_iff "highThreshold" (get "highThreshold" opts)) as [T1 T2].
  assert (Hu : isUndefined (get "homeDomain" opts) = true
               <-> get "homeDomain" opts = JsUndefined)
    by (destruct (get "homeDomain" opts); cbn; split; congruence).
  destruct Hu as [U1 U2].
  split; intros (Hi & Hc & Hs & Hm & Hl & Hd & Ht & Hh);
    (split; [exact Hi|]); (split; [auto|]); (split; [auto|]); (split; [auto|]);
    (split; [auto|]); (split; [auto|]); (split; [auto|]);
    destruct Hh; auto.
Qed.

Lemma source_ok_after (opts o1 : obj) :
  hashes_decoded opts o1 -> source_ok o1 <-> source_ok opts.
Proof.
  intros (Hg & _). unfold source_ok. now rewrite (Hg "source") by discriminate.
Qed.


End SetOptionsEffect.

(** ** Decoding *)

Lemma fromXDRAmount_returns (n : Z) :
  exists s, Operation._fromXDRAmount n = Ok (JsString s).
Proof.
  unfold Operation._fromXDRAmount, Operation.BigNumber_new, Hyper.toString.
  rewrite of_string_Z_to_string. eexists; reflexivity.
Qed.

Section Decoding.

Context `{StrKey.Codec} `{xdr.Enums}.

Ltac step E :=
  let a := fresh "a" in
  let o := fresh "o" in
  let E1 := fresh "E" in
  apply mbind_inv in E; destruct E as (a & o & E1 & E);
  first [ apply read_inv in E1; destruct E1 as [-> ->]
        | apply read_signer_inv in E1; destruct E1 as [-> ->]
        | apply lift_inv in E1; destruct E1 as [-> E1]
        | idtac ].

(** The signer [setOptions] builds has a key. *)
Lemma setOptions_signer_key (opts o1 : obj) (s : xdr.Signer.t) :
  Operation.setOptions_signer opts = (o1, Ok (Some s)) -> xdr.Signer.key s <> None.
Proof.
  intros E. unfold Operation.setOptions_signer in E.
  step E. destruct (truthy (get "signer" opts));
    [|apply ret_inv in E; destruct E as [_ [=]]].
  step E. step E. step E. step E. step E.
  apply mbind_inv in E. destruct E as (st1 & oa & Ea & E).
  assert (H1 : 0 <= snd st1 /\ (fst st1 = None -> snd st1 = 0)).
  { match type of Ea with (if ?b then _ else _) _ = _ => destruct b end.
    - step Ea. step Ea. apply ret_inv in Ea. destruct Ea as [_ ->].
      cbn. split; [lia|discriminate].
    - apply ret_inv in Ea. destruct Ea as [_ ->]. cbn. split; [lia|reflexivity]. }
  clear Ea. step E.
  apply mbind_inv in E. destruct E as (st2 & ob & Eb & E).
  assert (H2 : 0 <= snd st2 /\ (fst st2 = None -> snd st2 = 0)).
  { match type of Eb with (if ?b then _ else _) _ = _ => destruct b end.
    - apply mbind_inv in Eb. destruct Eb as (h & o' & _ & Eb).
      apply ret_inv in Eb. destruct Eb as [_ ->]. cbn. split; [lia|discriminate].
    - apply ret_inv in Eb. destruct Eb as [_ ->]. assumption. }
  clear Eb. step E.
  apply mbind_inv in E. destruct E as (st3 & oc & Ec & E).
  assert (H3 : 0 <= snd st3 /\ (fst st3 = None -> snd st3 = 0)).
  { match type of Ec with (if ?b then _ else _) _ = _ => destruct b end.
    - apply mbind_inv in Ec. destruct Ec as (h & o' & _ & Ec).
      apply ret_inv in Ec. destruct Ec as [_ ->]. cbn. split; [lia|discriminate].
    - apply ret_inv in Ec. destruct Ec as [_ ->]. assumption. }
  clear Ec.
  apply mbind_inv in E. destruct E as (u & og & Eg & E).
  apply lift_inv in Eg. destruct Eg as [-> Eg]. apply guard_Ok, Z.eqb_eq in Eg.
  apply ret_inv in E. destruct E as [_ [= ->]].
  cbn [xdr.Signer.key]. intros Hn. destruct H3 as [_ H3]. specialize (H3 Hn). lia.
Qed.

Lemma setOptions_body (opts o2 : obj) (op : xdr.Operation.t) :
  Operation.setOptions opts = (o2, Ok op) ->
  exists v sg o1,
    xdr.Operation.body op = xdr.setOption v
    /\ xdr.SetOptionsOp.signer v = sg
    /\ Operation.setOptions_signer o1 = (o2, Ok sg).
Proof.
  intros E. unfold Operation.setOptions in E.
  step E.
  apply mbind_inv in E. destruct E as (infl & oi & _ & E).
  do 6 (step E; step E).
  step E. step E.
  apply mbind_inv in E. destruct E as (sg & os & Es & E).
  injection E as -> E. apply new_Operation_body in E.
  eexists. exists sg. eexists. split; [exact E|]. split; [reflexivity|exact Es].
Qed.

(** [fromXDRObject] returns exactly on the operations of a known arm whose
    signer, if any, has a key, and so on every operation a builder returns,
    whatever the address codec; on any other arm it reports an unknown
    operation.  The record it returns names the arm in its [type] and has a
    [source] exactly when the operation has a source account. *)
Theorem fromXDRObject_returns :
  (forall op, succeeds (Operation.fromXDRObject op) <-> decodable op)
  /\ (forall op name,
        xdr.Operation.body op = xdr.otherArm name ->
        Operation.fromXDRObject op = Throw "Unknown operation")
  /\ (forall op r,
        Operation.fromXDRObject op = Ok r ->
        get "type" r = JsString (type_name (xdr.Operation.body op))
        /\ get "source" r
           = match xdr.Operation.sourceAccount op with
             | Some a => Operation.accountIdtoAddress a
             | None => JsUndefined
             end)
  /\ (forall opts op,
        Operation.createAccount opts = Ok op \/ Operation.emission opts = Ok op
        \/ Operation.settlement opts = Ok op \/ Operation.payment opts = Ok op
        \/ (exists opts', Operation.setOptions opts = (opts', Ok op))
        \/ Operation.accountMerge opts = Ok op \/ Operation.manageData opts = Ok op
        \/ Operation.spendFee opts = Ok op \/ Operation.setFee opts = Ok op
        \/ Operation.restrictAccount opts = Ok op ->
        succeeds (Operation.fromXDRObject op)).
Proof.
  assert (Hiff : forall op, succeeds (Operation.fromXDRObject op) <-> decodable op).
  { intros [src body]. unfold Operation.fromXDRObject, decodable.
    cbn [xdr.Operation.body xdr.Operation.sourceAccount].
    destruct body as [v|v|v|v|v|v|v|v|v|v|name];
      try (split; [intros _; exact I|intros _; eexists; reflexivity]).
    - destruct (fromXDRAmount_returns (xdr.CreateAccountOp.startingBalance v)) as [s ->].
      split; [intros _; exact I|intros _; eexists; reflexivity].
    - destruct (fromXDRAmount_returns (xdr.EmissionOp.amount v)) as [s ->].
      split; [intros _; exact I|intros _; eexists; reflexivity].
    - destruct (fromXDRAmount_returns (xdr.SettlementOp.amount v)) as [s ->].
      split; [intros _; exact I|intros _; eexists; reflexivity].
    - destruct (fromXDRAmount_returns (xdr.PaymentOp.amount v)) as [s ->].
      split; [intros _; exact I|intros _; eexists; reflexivity].
    - destruct (xdr.SetOptionsOp.signer v) as [s|];
        [|split; [intros _; exact I|intros _; eexists; reflexivity]].
      unfold Operation.signer_object.
      destruct (xdr.Signer.key s) as [[raw|h|h]|]; cbn [bind];
        try (split; [intros _; discriminate|intros _; eexists; reflexivity]).
      split; [intros [r [=]]|congruence].
    - destruct (fromXDRAmount_returns (xdr.SpendFeeOp.amount v)) as [s ->].
      split; [intros _; exact I|intros _; eexists; reflexivity].
    - split; [intros [r [=]]|contradiction]. }
  split; [exact Hiff|]. split; [|split].
  - intros [src body] name. cbn. intros ->. reflexivity.
  - intros [src body] r. unfold Operation.fromXDRObject.
    cbn [xdr.Operation.body xdr.Operation.sourceAccount].
    set (result := match src with
                   | Some a => set "source" (Operation.accountIdtoAddress a) []
                   | None => []
                   end).
    assert (Hsrc : get "source" result
                   = match src with
                     | Some a => Operation.accountIdtoAddress a
                     | None => JsUndefined
                     end) by (unfold result; destruct src; reflexivity).
    assert (Hty : get "type" result = JsUndefined)
      by (unfold result; destruct src; reflexivity).
    clearbody result.
    destruct body as [v|v|v|v|v|v|v|v|v|v|name]; cbn [type_name];
      try destruct (fromXDRAmount_returns (xdr.CreateAccountOp.startingBalance v)) as [s Es];
      try destruct (fromXDRAmount_returns (xdr.EmissionOp.amount v)) as [s Es];
      try destruct (fromXDRAmount_returns (xdr.SettlementOp.amount v)) as [s Es];
      try destruct (fromXDRAmount_returns (xdr.PaymentOp.amount v)) as [s Es];
      try destruct (fromXDRAmount_returns (xdr.SpendFeeOp.amount v)) as [s Es];
      rewrite ?Es; cbn [bind];
      try (intros [= <-];
           rewrite ?(get_set_other _ "type"), ?(get_set_other _ "source"),
             ?get_set_same by discriminate;
           split; [reflexivity|assumption]);
      try discriminate.
    destruct (xdr.SetOptionsOp.inflationDest v), (xdr.SetOptionsOp.signer v) as [sg|];
      try (destruct (Operation.signer_object sg); cbn [bind]; [|discriminate]);
      intros [= <-];
      rewrite ?(get_set_other _ "type"), ?(get_set_other _ "source"),
        ?get_set_same by discriminate;
      (split; [reflexivity|assumption]).
  - intros opts op Hb. apply Hiff. unfold decodable.
    destruct Hb as [E|[E|[E|[E|[[opts' E]|[E|[E|[E|[E|E]]]]]]]]].
    + unfold Operation.createAccount in E.
      repeat (apply bind_Ok in E; destruct E as (? & _ & E)).
      injection E as <-. exact I.
    + unfold Operation.emission in E.
      repeat (apply bind_Ok in E; destruct E as (? & _ & E)).
      injection E as <-. exact I.
    + unfold Operation.settlement in E.
      repeat (apply bind_Ok in E; destruct E as (? & _ & E)).
      injection E as <-. exact I.
    + unfold Operation.payment in E.
      repeat (apply bind_Ok in E; destruct E as (? & _ & E)).
      injection E as <-. exact I.
    + destruct (setOptions_body _ _ _ E) as (v & sg & o1 & -> & Hsg & Es).
      rewrite Hsg. destruct sg as [s|]; [|exact I].
      now apply setOptions_signer_key in Es.
    + unfold Operation.accountMerge in E.
      repeat (apply bind_Ok in E; destruct E as (? & _ & E)).
      injection E as <-. exact I.
    + unfold Operation.manageData in E.
      repeat (apply bind_Ok in E; destruct E as (? & _ & E)).
      injection E as <-. exact I.
    + unfold Operation.spendFee in E.
      repeat (apply bind_Ok in E; destruct E as (? & _ & E)).
      injection E as <-. exact I.
    + unfold Operation.setFee in E.
      apply new_Operation_body in E. now rewrite E.
    + unfold Operation.restrictAccount in E.
      repeat (apply bind_Ok in E; destruct E as (? & _ & E)).
      injection E as <-. exact I.
Qed.

End Decoding.

(** ** Prices *)

Section Prices.

Import BigNumber.

Lemma of_Z_zero : of_Z 0 = bnFinite false 0 0.
Proof. reflexivity. Qed.

(** The quotient of two integers the second of which divides the first is
    their integer quotient: nothing is lost to the twenty decimal places. *)
Lemma div_exact (q d : Z) :
  q <> 0 -> d <> 0 -> Z.abs d < 10 ^ 10 -> Z.abs (q * d) < 10 ^ 10 ->
  div (of_Z (q * d)) (of_Z d) = of_Z q.
Proof.
  intros Hq Hd Hbd Hbn.
  assert (Hbq : Z.abs q < 10 ^ 10) by (rewrite Z.abs_mul in Hbn; nia).
  destruct (of_Z_cases (q * d) 10) as (c1 & k1 & Hc1 & Hm1 & Hk1 & Hv1 & Hx1 & E1);
    [nia|unfold MAX_EXP; lia|assumption|].
  destruct (of_Z_cases d 10) as (c2 & k2 & Hc2 & Hm2 & Hk2 & Hv2 & Hx2 & E2);
    [assumption|unfold MAX_EXP; lia|assumption|].
  destruct (of_Z_cases q 10) as (c3 & k3 & Hc3 & Hm3 & Hk3 & Hv3 & Hx3 & E3);
    [assumption|unfold MAX_EXP; lia|assumption|].
  rewrite E1, E2, E3. cbn [div].
  destruct (Z.eqb_spec c2 0) as [|_]; [lia|].
  destruct (Z.eqb_spec c1 0) as [|_]; [lia|].
  unfold DECIMAL_PLACES.
  pose proof (exponent_lower c2 k2 Hc2) as Hlo2.
  destruct (Z.leb_spec 0 (k1 - k2 + 20)) as [_|]; [|lia].
  assert (Hnum : c1 * 10 ^ (k1 - k2 + 20) = c2 * (c3 * 10 ^ (k3 + 20))).
  { replace (k1 - k2 + 20) with (k1 + (20 - k2)) by lia.
    rewrite !Z.pow_add_r by lia.
    assert (Hprod : c1 * 10 ^ k1 = (c3 * 10 ^ k3) * (c2 * 10 ^ k2))
      by (rewrite <- Hv1, <- Hv2, <- Hv3; apply Z.abs_mul).
    assert (H20 : 10 ^ k2 * 10 ^ (20 - k2) = 10 ^ 20)
      by (rewrite <- Z.pow_add_r by lia; f_equal; lia).
    revert Hprod H20.
    generalize (10 ^ k1), (10 ^ k2), (10 ^ k3), (10 ^ (20 - k2)), (10 ^ 20).
    intros P1 P2 P3 P4 P20 Hprod H20.
    transitivity (c1 * P1 * P4); [ring|]. rewrite Hprod.
    transitivity (c2 * (c3 * P3 * (P2 * P4))); [ring|].
    rewrite H20. ring. }
  rewrite Hnum.
  replace (2 * (c2 * (c3 * 10 ^ (k3 + 20))) + c2)
    with (c2 * (2 * (c3 * 10 ^ (k3 + 20)) + 1)) by ring.
  replace (2 * c2) with (c2 * (2 * 1)) by ring.
  rewrite Z.div_mul_cancel_l by lia.
  rewrite half_up_exact.
  assert (E20 : - (20) + (k3 + 20) = k3) by lia.
  rewrite normalise_shift
    by (rewrite ?E20; unfold MIN_EXP, MAX_EXP; assumption || lia).
  rewrite E20. f_equal.
  destruct (Z.ltb_spec (q * d) 0), (Z.ltb_spec d 0), (Z.ltb_spec q 0);
    try reflexivity; nia.
Qed.


End Prices.

(** ** The error a builder reports *)

Section Reports.

Context `{StrKey.Codec} `{xdr.Enums}.

Lemma new_Operation_invalid_source (body : xdr.OperationBody) (opts : obj) :
  truthy (get "source" opts) = true ->
  StrKey.isValidEd25519PublicKey (get "source" opts) = false ->
  Operation.new_Operation body opts = Throw "Source address is invalid".
Proof.
  intros Ht Hv. unfold Operation.new_Operation, Operation.setSourceAccount.
  now rewrite Ht, Hv.
Qed.

Lemma xdrAccountId_ok (x : JsValue) :
  StrKey.isValidEd25519PublicKey x = true -> exists raw, Keypair.xdrAccountId x = Ok raw.
Proof. intros Hv. destruct (isValid_xdrAccountId _ Hv) as (s & raw & _ & _ & E). eauto. Qed.

Lemma toXDRAmount_ok (value : JsValue) (allowZero : bool) :
  Operation.isValidAmount value allowZero = true ->
  exists n, Operation._toXDRAmount value = Ok n.
Proof. intros Hv. destruct (toXDRAmount_valid _ _ Hv) as (n & E & _). eauto. Qed.


End Reports.

(** ** Strings of bits *)

Section BitStrings.

#[local] Abbreviation la := list_ascii_of_string.
#[local] Abbreviation sl := string_of_list_ascii.

Lemma la_inj (s t : string) : la s = la t -> s = t.
Proof.
  intros E. rewrite <- (string_of_list_ascii_of_string s),
    <- (string_of_list_ascii_of_string t). now rewrite E.
Qed.

Lemma la_append (s t : string) : la (s ++ t) = (la s ++ la t)%list.
Proof. induction s as [|c s IH]; cbn; [reflexivity|now rewrite IH]. Qed.

Lemma la_length (s : string) : List.length (la s) = String.length s.
Proof. induction s as [|c s IH]; cbn; [reflexivity|now rewrite IH]. Qed.

Lemma la_substring (s : string) (k m : nat) :
  la (substring k m s) = firstn m (skipn k (la s)).
Proof.
  rewrite <- (string_of_list_ascii_of_string s) at 1.
  now rewrite substring_list, list_ascii_of_string_of_list_ascii.
Qed.

Lemma length_append (s t : string) :
  String.length (s ++ t) = (String.length s + String.length t)%nat.
Proof. now rewrite <- !la_length, la_append, length_app. Qed.

Lemma length_substring (s : string) (k m : nat) :
  (k + m <= String.length s)%nat -> String.length (substring k m s) = m.
Proof.
  intros Hl. rewrite <- la_length, la_substring, length_firstn, length_skipn, la_length.
  lia.
Qed.

Lemma append_assoc (s t u : string) : ((s ++ t) ++ u = s ++ (t ++ u))%string.
Proof. apply la_inj. now rewrite !la_append, app_assoc. Qed.

Lemma substring_append_l (s t : string) (k m : nat) :
  (k + m <= String.length s)%nat -> substring k m (s ++ t) = substring k m s.
Proof.
  intros Hl. apply la_inj. rewrite !la_substring, la_append.
  rewrite skipn_app, firstn_app, length_skipn, la_length.
  replace (m - (String.length s - k))%nat with 0%nat by lia.
  cbn [firstn]. now rewrite app_nil_r.
Qed.

Lemma substring_append_r (s t : string) (k m : nat) :
  substring (String.length s + k) m (s ++ t) = substring k m t.
Proof.
  apply la_inj. rewrite !la_substring, la_append, skipn_app, la_length.
  rewrite skipn_all2 by (rewrite la_length; lia).
  cbn [app]. f_equal. f_equal. lia.
Qed.

Lemma substring_whole (s : string) : substring 0 (String.length s) s = s.
Proof.
  apply la_inj. rewrite la_substring. cbn [skipn].
  apply firstn_all2. rewrite la_length. lia.
Qed.

Lemma substring_split (s : string) (k : nat) :
  (k <= String.length s)%nat ->
  (substring 0 k s ++ substring k (String.length s - k) s)%string = s.
Proof.
  intros Hk. apply la_inj. rewrite la_append, !la_substring. cbn [skipn].
  rewrite (firstn_all2 (n := (String.length s - k)%nat))
    by (rewrite length_skipn, la_length; lia).
  apply firstn_skipn.
Qed.

(** *** Binary digits *)

Lemma bit_string_append (s t : string) :
  bit_string (s ++ t) <-> bit_string s /\ bit_string t.
Proof. unfold bit_string. rewrite la_append. apply Forall_app. Qed.

Lemma bit_string_substring (s : string) (k m : nat) :
  bit_string s -> bit_string (substring k m s).
Proof.
  unfold bit_string. rewrite la_substring. intros Hs.
  rewrite <- (firstn_skipn k (la s)) in Hs. apply Forall_app in Hs.
  destruct Hs as [_ Hs].
  rewrite <- (firstn_skipn m (skipn k (la s))) in Hs. apply Forall_app in Hs.
  tauto.
Qed.

Lemma bit_string_cons (c : ascii) (s : string) :
  bit_string (String c s) <-> (c = "0"%char \/ c = "1"%char) /\ bit_string s.
Proof.
  unfold bit_string. cbn [list_ascii_of_string]. split.
  - intros Hf. inversion Hf; subst. auto.
  - intros [Hc Hs]. now constructor.
Qed.

Lemma bit_string_zeros (w : nat) : bit_string (sl (repeat "0"%char w)).
Proof.
  unfold bit_string. rewrite list_ascii_of_string_of_list_ascii.
  apply Forall_forall. intros c Hc. apply repeat_spec in Hc. auto.
Qed.

Lemma read_bits_spec (s : string) (a : N) :
  bit_string s ->
  (Js.read_bits s a = a * 2 ^ N.of_nat (String.length s) + Js.read_bits s 0
   /\ Js.read_bits s 0 < 2 ^ N.of_nat (String.length s))%N.
Proof.
  revert a. induction s as [|c s IH]; intros a Hb.
  - cbn. split; lia.
  - apply bit_string_cons in Hb. destruct Hb as [Hc Hs].
    cbn [String.length]. rewrite Nat2N.inj_succ, N.pow_succ_r'.
    destruct (IH (2 * a)%N Hs) as [E1 _], (IH (2 * a + 1)%N Hs) as [E2 _],
      (IH 1%N Hs) as [E3 Hlt].
    destruct Hc as [-> | ->]; cbn [Js.read_bits].
    + rewrite E1. change (2 * 0)%N with 0%N. split; lia.
    + rewrite E2. change (2 * 0 + 1)%N with 1%N. rewrite E3. split; lia.
Qed.

Lemma read_bits_append (s t : string) (a : N) :
  bit_string s -> Js.read_bits (s ++ t) a = Js.read_bits t (Js.read_bits s a).
Proof.
  revert a. induction s as [|c s IH]; intros a Hb; [reflexivity|].
  apply bit_string_cons in Hb. destruct Hb as [[-> | ->] Hs]; cbn; now apply IH.
Qed.

Lemma read_bits_zeros (w : nat) (t : string) :
  Js.read_bits (sl (repeat "0"%char w) ++ t) 0 = Js.read_bits t 0.
Proof. induction w as [|w IH]; [reflexivity|]. cbn. exact IH. Qed.

(** Two strings of bits of one length that write one number are one
    string. *)
Lemma read_bits_inj (s t : string) :
  bit_string s -> bit_string t -> String.length s = String.length t ->
  Js.read_bits s 0 = Js.read_bits t 0 -> s = t.
Proof.
  revert t. induction s as [|c s IH]; intros [|d t] Hs Ht Hl E; try discriminate.
  - reflexivity.
  - cbn [String.length] in Hl. injection Hl as Hl.
    apply bit_string_cons in Hs, Ht. destruct Hs as [Hc Hs], Ht as [Hd Ht].
    destruct (read_bits_spec s 1 Hs) as [Es1 Hsl],
      (read_bits_spec t 1 Ht) as [Et1 Htl].
    rewrite Hl in Es1, Hsl.
    assert (Hcases : c = d /\ Js.read_bits s 0 = Js.read_bits t 0).
    { destruct Hc as [-> | ->], Hd as [-> | ->];
        change (Js.read_bits (String "0" s) 0) with (Js.read_bits s 0) in E;
        change (Js.read_bits (String "1" s) 0) with (Js.read_bits s 1) in E;
        change (Js.read_bits (String "0" t) 0) with (Js.read_bits t 0) in E;
        change (Js.read_bits (String "1" t) 0) with (Js.read_bits t 1) in E;
        rewrite ?Es1, ?Et1 in E;
        revert E Hsl Htl; generalize (2 ^ N.of_nat (String.length t))%N;
        generalize (Js.read_bits s 0), (Js.read_bits t 0); intros u v P E Hu Hv;
        clear - E Hu Hv;
        first [split; [reflexivity|lia] | exfalso; lia]. }
    destruct Hcases as [-> Ev]. f_equal. now apply IH.
Qed.

Lemma pos_toString2_acc (p : positive) (acc : string) :
  Js.pos_toString2 p acc = (Js.pos_toString2 p EmptyString ++ acc)%string.
Proof.
  revert acc. induction p as [p IH|p IH|]; intros acc; cbn [Js.pos_toString2].
  - rewrite IH, (IH (String "1" EmptyString)), append_assoc. reflexivity.
  - rewrite IH, (IH (String "0" EmptyString)), append_assoc. reflexivity.
  - reflexivity.
Qed.

Lemma pos_toString2_bits (p : positive) :
  bit_string (Js.pos_toString2 p EmptyString)
  /\ String.length (Js.pos_toString2 p EmptyString) = Pos.size_nat p
  /\ Js.read_bits (Js.pos_toString2 p EmptyString) 0 = Npos p.
Proof.
  induction p as [p (Hb & Hl & Hv)|p (Hb & Hl & Hv)|]; cbn [Js.pos_toString2 Pos.size_nat].
  - rewrite pos_toString2_acc. split; [|split].
    + apply bit_string_append. split; [assumption|].
      apply bit_string_cons. split; [auto|constructor].
    + rewrite length_append, Hl. cbn. lia.
    + rewrite read_bits_append, Hv by assumption. reflexivity.
  - rewrite pos_toString2_acc. split; [|split].
    + apply bit_string_append. split; [assumption|].
      apply bit_string_cons. split; [auto|constructor].
    + rewrite length_append, Hl. cbn. lia.
    + rewrite read_bits_append, Hv by assumption. reflexivity.
  - split; [|split]; try reflexivity.
    apply bit_string_cons. split; [auto|constructor].
Qed.

Lemma size_nat_bound (p : positive) (w : nat) :
  (Npos p < 2 ^ N.of_nat w)%N -> (Pos.size_nat p <= w)%nat.
Proof.
  revert w. induction p as [p IH|p IH|]; intros [|w] Hlt;
    try (cbn in Hlt; lia); cbn [Pos.size_nat];
    rewrite Nat2N.inj_succ, N.pow_succ_r' in Hlt.
  - apply le_n_S, IH. lia.
  - apply le_n_S, IH. lia.
  - lia.
Qed.

Lemma toString2_bits (n : N) (w : nat) :
  (1 <= w)%nat -> (n < 2 ^ N.of_nat w)%N ->
  bit_string (Js.toString2 n)
  /\ (String.length (Js.toString2 n) <= w)%nat
  /\ Js.read_bits (Js.toString2 n) 0 = n.
Proof.
  intros Hw Hn. destruct n as [|p]; cbn [Js.toString2].
  - split; [|split]; [|cbn; lia|reflexivity].
    apply bit_string_cons. split; [auto|constructor].
  - destruct (pos_toString2_bits p) as (Hb & Hl & Hv).
    split; [assumption|]. split; [|assumption].
    rewrite Hl. now apply size_nat_bound.
Qed.

Lemma parseInt2_bits (s : string) :
  bit_string s -> s <> EmptyString -> Js.parseInt2 s = Some (Js.read_bits s 0).
Proof.
  intros Hb Hne. destruct s as [|c s]; [congruence|].
  apply bit_string_cons in Hb. destruct Hb as [[-> | ->] _]; reflexivity.
Qed.

Lemma skipn_repeat {A : Type} (x : A) (k w : nat) :
  skipn k (repeat x w) = repeat x (w - k).
Proof.
  revert k. induction w as [|w IH]; intros [|k]; cbn; try reflexivity. apply IH.
Qed.

Lemma pad_spec (w : nat) (s : string) :
  (String.length s <= w)%nat ->
  Js.pad w s = (sl (repeat "0"%char (w - String.length s)) ++ s)%string.
Proof.
  intros Hl. unfold Js.pad, Js.slice_from, Js.slice.
  set (X := (sl (repeat "0"%char w) ++ s)%string).
  assert (HX : String.length X = (w + String.length s)%nat).
  { unfold X. rewrite length_append, <- la_length, list_ascii_of_string_of_list_ascii,
      repeat_length. reflexivity. }
  rewrite HX.
  assert (Hfrom : (if - Z.of_nat w <? 0
                   then Z.max (Z.of_nat (w + String.length s) + - Z.of_nat w) 0
                   else Z.min (- Z.of_nat w) (Z.of_nat (w + String.length s)))
                  = Z.of_nat (String.length s)).
  { destruct (Z.ltb_spec (- Z.of_nat w) 0); lia. }
  assert (Hto : (if Z.of_nat (w + String.length s) <? 0
                 then Z.max (Z.of_nat (w + String.length s)
                             + Z.of_nat (w + String.length s)) 0
                 else Z.min (Z.of_nat (w + String.length s))
                        (Z.of_nat (w + String.length s)))
                = Z.of_nat (w + String.length s)).
  { destruct (Z.ltb_spec (Z.of_nat (w + String.length s)) 0); lia. }
  rewrite Hto, Hfrom.
  replace (Z.to_nat (Z.of_nat (w + String.length s) - Z.of_nat (String.length s)))
    with w by lia.
  rewrite Nat2Z.id.
  apply la_inj. unfold X.
  rewrite la_substring, !la_append, !list_ascii_of_string_of_list_ascii.
  rewrite skipn_app, skipn_repeat, repeat_length.
  replace (String.length s - w)%nat with 0%nat by lia. cbn [skipn].
  apply firstn_all2. rewrite length_app, repeat_length, la_length. lia.
Qed.

(** A number below [2^w], written in binary on [w] digits, is read back. *)
Lemma pad_bits (w : nat) (n : N) :
  (1 <= w)%nat -> (n < 2 ^ N.of_nat w)%N ->
  bit_string (Js.pad w (Js.toString2 n))
  /\ String.length (Js.pad w (Js.toString2 n)) = w
  /\ Js.read_bits (Js.pad w (Js.toString2 n)) 0 = n
  /\ Js.parseInt2 (Js.pad w (Js.toString2 n)) = Some n.
Proof.
  intros Hw Hn. destruct (toString2_bits n w Hw Hn) as (Hb & Hl & Hv).
  rewrite pad_spec by assumption.
  assert (Hbits : bit_string (sl (repeat "0"%char (w - String.length (Js.toString2 n)))
                              ++ Js.toString2 n)).
  { apply bit_string_append. split; [apply bit_string_zeros|assumption]. }
  assert (Hlen : String.length (sl (repeat "0"%char (w - String.length (Js.toString2 n)))
                                ++ Js.toString2 n) = w).
  { rewrite length_append, <- la_length, list_ascii_of_string_of_list_ascii,
      repeat_length. lia. }
  assert (Hval : Js.read_bits (sl (repeat "0"%char (w - String.length (Js.toString2 n)))
                               ++ Js.toString2 n) 0 = n)
    by now rewrite read_bits_zeros.
  split; [assumption|]. split; [assumption|]. split; [assumption|].
  rewrite parseInt2_bits, Hval; [reflexivity|assumption|].
  intros E. rewrite E in Hlen. cbn in Hlen. lia.
Qed.

(** [w] binary digits are the number they write, written on [w] digits. *)
Lemma pad_read_bits (w : nat) (s : string) :
  (1 <= w)%nat -> bit_string s -> String.length s = w ->
  Js.pad w (Js.toString2 (Js.read_bits s 0)) = s.
Proof.
  intros Hw Hb Hl. destruct (read_bits_spec s 0 Hb) as [_ Hlt]. rewrite Hl in Hlt.
  destruct (pad_bits w _ Hw Hlt) as (Hb' & Hl' & Hv' & _).
  apply read_bits_inj; congruence.
Qed.

(** *** Groups of characters *)

Lemma slice_chunk (w : nat) (s : string) (i : nat) :
  ((i + 1) * w <= String.length s)%nat ->
  Js.slice s (Z.of_nat i * Z.of_nat w) ((Z.of_nat i + 1) * Z.of_nat w) = chunk w s i.
Proof.
  intros Hl. unfold Js.slice, chunk.
  destruct (Z.ltb_spec (Z.of_nat i * Z.of_nat w) 0) as [|_]; [lia|].
  destruct (Z.ltb_spec ((Z.of_nat i + 1) * Z.of_nat w) 0) as [|_]; [lia|].
  f_equal; nia.
Qed.

Lemma flat_app (l1 l2 : list string) : flat (l1 ++ l2) = (flat l1 ++ flat l2)%string.
Proof.
  unfold flat. induction l1 as [|x l1 IH]; cbn [app fold_right]; [reflexivity|].
  now rewrite IH, append_assoc.
Qed.

Lemma flat_length (w : nat) (l : list string) :
  Forall (fun x => String.length x = w) l ->
  String.length (flat l) = (List.length l * w)%nat.
Proof.
  unfold flat. induction 1 as [|x l Hx _ IH]; cbn [fold_right List.length];
    [reflexivity|].
  rewrite length_append, Hx, IH. lia.
Qed.

Lemma flat_bits (l : list string) : Forall bit_string l -> bit_string (flat l).
Proof.
  unfold flat. induction 1 as [|x l Hx _ IH]; cbn [fold_right]; [constructor|].
  apply bit_string_append. auto.
Qed.

Lemma chunk_flat (w : nat) (l : list string) (i : nat) :
  Forall (fun x => String.length x = w) l -> (i < List.length l)%nat ->
  chunk w (flat l) i = nth i l EmptyString.
Proof.
  intros Hl. revert i. induction Hl as [|x l Hx Hl IH]; intros i Hi; [cbn in Hi; lia|].
  unfold chunk in *. cbn [flat fold_right]. fold (flat l). destruct i as [|i].
  - cbn [Nat.mul nth]. rewrite substring_append_l by lia.
    rewrite <- Hx. apply substring_whole.
  - cbn [nth List.length] in *.
    replace (S i * w)%nat with (String.length x + i * w)%nat by lia.
    rewrite substring_append_r. apply IH. lia.
Qed.

Lemma chunk_append (w : nat) (s t : string) (i : nat) :
  ((i + 1) * w <= String.length s)%nat -> chunk w (s ++ t) i = chunk w s i.
Proof. intros Hl. unfold chunk. apply substring_append_l. lia. Qed.

Lemma substring_cat (s : string) (a b : nat) :
  (substring 0 a s ++ substring a b s)%string = substring 0 (a + b) s.
Proof.
  apply la_inj. rewrite la_append, !la_substring. cbn [skipn].
  generalize (la s). intros l. revert l. induction a as [|a IH]; intros l.
  - reflexivity.
  - destruct l as [|c l]; cbn [firstn skipn Nat.add].
    + now rewrite firstn_nil.
    + cbn [app]. now rewrite IH.
Qed.

Lemma flat_chunks (w n : nat) (s : string) :
  flat (map (chunk w s) (seq 0 n)) = substring 0 (n * w) s.
Proof.
  induction n as [|n IH].
  - cbn. destruct s; reflexivity.
  - rewrite seq_S, map_app, flat_app, IH. cbn [map flat fold_right Nat.add].
    rewrite append_empty_r. unfold chunk. rewrite substring_cat. f_equal. lia.
Qed.

(** *** Phrases *)

Lemma split_one (c : ascii) (w : string) :
  ~ In c (la w) -> Js.split c w = [w].
Proof.
  induction w as [|a w IH]; intros Hn; [reflexivity|].
  cbn [list_ascii_of_string] in Hn. cbn [Js.split].
  destruct (Ascii.eqb_spec a c) as [->|Hne]; [exfalso; apply Hn; now left|].
  rewrite IH by (intros Hin; apply Hn; now right). reflexivity.
Qed.

Lemma split_cons (c : ascii) (w r : string) :
  ~ In c (la w) -> Js.split c (w ++ String c r) = w :: Js.split c r.
Proof.
  induction w as [|a w IH]; intros Hn.
  - cbn. now rewrite Ascii.eqb_refl.
  - cbn [list_ascii_of_string] in Hn. cbn [append Js.split].
    destruct (Ascii.eqb_spec a c) as [->|Hne]; [exfalso; apply Hn; now left|].
    rewrite IH by (intros Hin; apply Hn; now right). reflexivity.
Qed.

Lemma split_join (ws : list string) :
  ws <> [] -> Forall no_blank ws -> Js.split " " (Js.join " " ws) = ws.
Proof.
  intros Hne Hf. induction Hf as [|w ws Hw Hf IH]; [congruence|].
  destruct ws as [|w' ws].
  - cbn. now apply split_one.
  - change (Js.join " " (w :: w' :: ws))
      with (w ++ String " " (Js.join " " (w' :: ws)))%string.
    rewrite split_cons by assumption. f_equal. apply IH. discriminate.
Qed.

Lemma indexOf_range (wl : list string) (w : string) :
  -1 <= Js.indexOf wl w < Z.of_nat (List.length wl).
Proof.
  induction wl as [|x wl IH]; cbn [Js.indexOf List.length]; [lia|].
  destruct (x =? w)%string; [lia|].
  destruct (Z.ltb_spec (Js.indexOf wl w) 0); lia.
Qed.

Lemma indexOf_nth (wl : list string) (i : nat) :
  NoDup wl -> (i < List.length wl)%nat ->
  Js.indexOf wl (nth i wl EmptyString) = Z.of_nat i.
Proof.
  intros Hnd. revert i. induction Hnd as [|x wl Hx Hnd IH]; intros i Hi;
    [cbn in Hi; lia|].
  destruct i as [|i]; cbn [nth Js.indexOf].
  - now rewrite String.eqb_refl.
  - cbn [List.length] in Hi.
    destruct (String.eqb_spec x (nth i wl EmptyString)) as [E|_].
    + exfalso. apply Hx. rewrite E. apply nth_In. lia.
    + rewrite IH by lia. destruct (Z.ltb_spec (Z.of_nat i) 0); lia.
Qed.

Lemma indexOf_found (wl : list string) (w : string) :
  0 <= Js.indexOf wl w -> nth (Z.to_nat (Js.indexOf wl w)) wl EmptyString = w.
Proof.
  induction wl as [|x wl IH]; cbn [Js.indexOf]; [lia|].
  destruct (String.eqb_spec x w) as [->|_]; [reflexivity|].
  destruct (Z.ltb_spec (Js.indexOf wl w) 0) as [|Hge]; [lia|]. intros _.
  rewrite Z2Nat.inj_add by lia. rewrite Nat.add_1_r. cbn [nth]. now apply IH.
Qed.

Lemma indexOf_missing (wl : list string) (w : string) :
  Js.indexOf wl w < 0 <-> ~ In w wl.
Proof.
  induction wl as [|x wl [IH1 IH2]]; cbn [Js.indexOf In]; [split; [tauto|lia]|].
  destruct (String.eqb_spec x w) as [->|Hne].
  - split; [lia|tauto].
  - pose proof (indexOf_range wl w) as Hr.
    destruct (Z.ltb_spec (Js.indexOf wl w) 0) as [Hlt|Hge]; split.
    + intros _ [E|Hin]; [congruence|]. now apply IH1.
    + lia.
    + lia.
    + intros Hn. assert (Hn' : ~ In w wl) by tauto. apply IH2 in Hn'. lia.
Qed.

Lemma byte_of_to_N (b : byte) : Buffer.byte_of_N (Byte.to_N b) = b.
Proof. destruct b; reflexivity. Qed.

End BitStrings.

(** ** Mnemonic phrases *)

Section MnemonicFacts.

Context `{Mnemonic.Env}.

Lemma byte8_bits (b : byte) :
  bit_string (byte8 b) /\ String.length (byte8 b) = 8%nat
  /\ Js.read_bits (byte8 b) 0 = Byte.to_N b.
Proof.
  unfold byte8. pose proof (Byte.to_N_bounded b) as Hb.
  destruct (pad_bits 8 (Byte.to_N b)) as (H1 & H2 & H3 & _); [lia| |auto].
  change (2 ^ N.of_nat 8)%N with 256%N. lia.
Qed.

Lemma bytes8_length (l : list byte) :
  String.length (flat (map byte8 l)) = (List.length l * 8)%nat.
Proof.
  rewrite (flat_length 8), length_map; [reflexivity|].
  apply Forall_map, Forall_forall. intros b _. apply byte8_bits.
Qed.

Lemma bytes8_bits (l : list byte) : bit_string (flat (map byte8 l)).
Proof.
  apply flat_bits, Forall_map, Forall_forall. intros b _. apply byte8_bits.
Qed.

Lemma bytes8_chunk (l : list byte) (i : nat) (b : byte) :
  nth_error l i = Some b -> chunk 8 (flat (map byte8 l)) i = byte8 b.
Proof.
  intros E. assert (Hi : (i < List.length l)%nat) by (apply nth_error_Some; congruence).
  rewrite chunk_flat.
  - apply nth_error_nth. now apply map_nth_error.
  - apply Forall_map, Forall_forall. intros x _. apply byte8_bits.
  - now rewrite length_map.
Qed.

Lemma byte_bits_flat (entropy : list byte) (bin : string) :
  Mnemonic.byte_bits entropy bin = (bin ++ flat (map byte8 entropy))%string.
Proof.
  revert bin. induction entropy as [|b r IH]; intros bin; cbn [Mnemonic.byte_bits map].
  - unfold flat. cbn. now rewrite append_empty_r.
  - rewrite IH. unfold flat. cbn [fold_right]. now rewrite append_assoc.
Qed.

Lemma hash_bits_flat (hashBuf : list byte) (count i : nat) (hashbits : string) :
  (i + count <= List.length hashBuf)%nat ->
  Mnemonic.hash_bits hashBuf count i hashbits
  = Ok (hashbits ++ flat (map byte8 (firstn count (skipn i hashBuf))))%string.
Proof.
  revert i hashbits. induction count as [|k IH]; intros i hashbits Hl;
    cbn [Mnemonic.hash_bits firstn map].
  - unfold flat. cbn. now rewrite append_empty_r.
  - destruct (nth_error hashBuf i) as [b|] eqn:E;
      [|apply nth_error_None in E; lia].
    rewrite IH by lia.
    assert (Hs : skipn i hashBuf = b :: skipn (S i) hashBuf).
    { clear - E. revert hashBuf E. induction i as [|i IH]; intros [|x l] E;
        try discriminate.
      - injection E as ->. reflexivity.
      - cbn [nth_error] in E. cbn [skipn]. rewrite (IH _ E). reflexivity. }
    rewrite Hs. cbn [firstn map]. unfold flat. cbn [fold_right].
    now rewrite append_assoc.
Qed.

Lemma hash_bits_short (hashBuf : list byte) (count i : nat) (hashbits : string) :
  (0 < count)%nat -> (List.length hashBuf < i + count)%nat ->
  fails (Mnemonic.hash_bits hashBuf count i hashbits).
Proof.
  revert i hashbits. induction count as [|k IH]; intros i hashbits Hc Hl;
    cbn [Mnemonic.hash_bits]; [lia|].
  destruct (nth_error hashBuf i) as [b|] eqn:E; [|eexists; reflexivity].
  assert (i < List.length hashBuf)%nat by (apply nth_error_Some; congruence).
  apply IH; lia.
Qed.

(** The checksum of an entropy the hash of which is as long: the first
    bits of the hash, one for every four bytes. *)
Lemma entropyChecksum_value (entropy : list byte) :
  (List.length entropy <= List.length (Mnemonic.hash entropy))%nat ->
  Mnemonic._entropyChecksum entropy
  = Ok (substring 0 (List.length entropy / 4)
          (flat (map byte8 (firstn (List.length entropy) (Mnemonic.hash entropy))))).
Proof.
  intros Hl. unfold Mnemonic._entropyChecksum.
  rewrite hash_bits_flat by lia. cbn [bind skipn append]. f_equal.
  set (X := flat (map byte8 (firstn (List.length entropy) (Mnemonic.hash entropy)))).
  assert (HX : String.length X = (List.length entropy * 8)%nat).
  { unfold X. rewrite bytes8_length, length_firstn. lia. }
  unfold Js.slice. rewrite HX. cbn [Z.ltb Z.compare].
  assert (Hd : Z.of_nat (List.length entropy) * 8 / 32
               = Z.of_nat (List.length entropy / 4)).
  { rewrite Nat2Z.inj_div. cbn [Z.of_nat Pos.of_succ_nat Pos.succ].
    replace 32 with (8 * 4) by reflexivity.
    rewrite Z.mul_comm, Z.div_mul_cancel_l by lia. reflexivity. }
  rewrite Hd.
  destruct (Z.ltb_spec (Z.of_nat (List.length entropy / 4)) 0) as [|_]; [lia|].
  assert (Hle : (List.length entropy / 4 <= List.length entropy * 8)%nat).
  { pose proof (Nat.Div0.div_le_upper_bound (List.length entropy) 4 (List.length entropy)).
    assert (List.length entropy / 4 <= List.length entropy)%nat
      by (apply Nat.Div0.div_le_upper_bound; lia).
    lia. }
  f_equal; lia.
Qed.

Lemma word_bits_flat (wl words : list string) (bin : string) :
  Forall (fun w => In w wl) words ->
  Mnemonic.word_bits wl words bin = Some (bin ++ flat (map (word11 wl) words))%string.
Proof.
  intros Hw. revert bin. induction Hw as [|w r Hin _ IH]; intros bin;
    cbn [Mnemonic.word_bits map].
  - unfold flat. cbn. now rewrite append_empty_r.
  - destruct (Z.ltb_spec (Js.indexOf wl w) 0) as [Hlt|_].
    + apply indexOf_missing in Hlt. contradiction.
    + rewrite IH. unfold flat, word11. cbn [fold_right]. now rewrite append_assoc.
Qed.

Lemma word_bits_unknown (wl words : list string) (bin : string) (w : string) :
  In w words -> ~ In w wl -> Mnemonic.word_bits wl words bin = None.
Proof.
  intros Hin Hout. revert bin. induction words as [|x r IH]; intros bin;
    [contradiction|].
  cbn [Mnemonic.word_bits].
  destruct (Z.ltb_spec (Js.indexOf wl x) 0) as [Hlt|Hge]; [reflexivity|].
  destruct Hin as [->|Hin].
  - apply indexOf_missing in Hout. lia.
  - now apply IH.
Qed.

Lemma chunk_bits (w : nat) (bin : string) (j : nat) :
  bit_string bin -> ((j + 1) * w <= String.length bin)%nat ->
  bit_string (chunk w bin j) /\ String.length (chunk w bin j) = w.
Proof.
  intros Hb Hl. split.
  - now apply bit_string_substring.
  - apply length_substring. lia.
Qed.

Lemma parseInt2_chunk (w : nat) (bin : string) (j : nat) :
  (1 <= w)%nat -> bit_string bin -> ((j + 1) * w <= String.length bin)%nat ->
  Js.parseInt2 (chunk w bin j) = Some (Js.read_bits (chunk w bin j) 0).
Proof.
  intros Hw Hb Hl. destruct (chunk_bits w bin j Hb Hl) as (H1 & H2).
  apply parseInt2_bits; [exact H1|]. intros E. rewrite E in H2. cbn in H2. lia.
Qed.

Lemma bit_words_map (wl : list string) (bin : string) (count i : nat) :
  bit_string bin -> ((i + count) * 11 <= String.length bin)%nat ->
  Mnemonic.bit_words wl bin count i
  = map (fun j => nth (N.to_nat (Js.read_bits (chunk 11 bin j) 0)) wl EmptyString)
        (seq i count).
Proof.
  intros Hb. revert i. induction count as [|k IH]; intros i Hl;
    cbn [Mnemonic.bit_words seq map]; [reflexivity|].
  change 11 with (Z.of_nat 11). rewrite slice_chunk by lia.
  rewrite parseInt2_chunk by (auto; lia). f_equal. apply IH. lia.
Qed.

Lemma writeUInt8_length (buf buf' : list byte) (value : option N) (offset : nat) :
  Mnemonic.writeUInt8 buf value offset = Ok buf' -> List.length buf' = List.length buf.
Proof.
  unfold Mnemonic.writeUInt8. destruct (Nat.ltb_spec offset (List.length buf)) as [Hlt|];
    [|discriminate].
  intros E. injection E as <-.
  rewrite length_app, length_firstn, length_cons.
  change (match buf with [] => [] | _ :: l => skipn offset l end) with (skipn (S offset) buf).
  rewrite length_skipn. lia.
Qed.

Lemma write_bytes_map (bin : string) (count i : nat) (buf : list byte) :
  bit_string bin -> ((i + count) * 8 <= String.length bin)%nat ->
  List.length buf = (i + count)%nat ->
  Mnemonic.write_bytes bin count i buf
  = Ok (firstn i buf
        ++ map (fun j => Buffer.byte_of_N (Js.read_bits (chunk 8 bin j) 0)) (seq i count))%list.
Proof.
  intros Hb. revert i buf. induction count as [|k IH]; intros i buf Hl Hn;
    cbn [Mnemonic.write_bytes seq map].
  - rewrite app_nil_r, firstn_all2 by lia. reflexivity.
  - change 8 with (Z.of_nat 8). rewrite slice_chunk by lia.
    rewrite parseInt2_chunk by (auto; lia).
    unfold Mnemonic.writeUInt8.
    destruct (Nat.ltb_spec i (List.length buf)) as [Hlt|]; [|lia].
    cbn [bind]. rewrite IH.
    + f_equal. replace (S i) with (List.length (firstn i buf) + 1)%nat at 1
        by (rewrite length_firstn; lia).
      rewrite firstn_app_2. cbn [firstn]. rewrite <- app_assoc. reflexivity.
    + lia.
    + rewrite length_app, length_firstn, length_cons, length_skipn. lia.
Qed.

(** Writing past the end of the buffer throws. *)
Lemma write_bytes_overflow (bin : string) (count i : nat) (buf : list byte) :
  (List.length buf < i + count)%nat -> (0 < count)%nat ->
  fails (Mnemonic.write_bytes bin count i buf).
Proof.
  revert i buf. induction count as [|k IH]; intros i buf Hl Hc; [lia|].
  cbn [Mnemonic.write_bytes].
  destruct (Mnemonic.writeUInt8 buf _ i) as [buf'|msg] eqn:E.
  - cbn [bind]. pose proof (writeUInt8_length _ _ _ _ E) as Hlen.
    unfold Mnemonic.writeUInt8 in E.
    destruct (Nat.ltb_spec i (List.length buf)) as [Hlt|]; [|discriminate].
    apply IH; lia.
  - eexists. reflexivity.
Qed.

Lemma slice_prefix (s : string) (k : nat) :
  (k <= String.length s)%nat -> Js.slice s 0 (Z.of_nat k) = substring 0 k s.
Proof.
  intros Hk. unfold Js.slice. cbn [Z.ltb Z.compare].
  destruct (Z.ltb_spec (Z.of_nat k) 0) as [|_]; [lia|].
  f_equal; lia.
Qed.

Lemma slice_last (s : string) (k : nat) :
  (1 <= k <= String.length s)%nat ->
  Js.slice_from s (- Z.of_nat k) = substring (String.length s - k) k s.
Proof.
  intros Hk. unfold Js.slice_from, Js.slice.
  destruct (Z.ltb_spec (- Z.of_nat k) 0) as [_|]; [|lia].
  destruct (Z.ltb_spec (Z.of_nat (String.length s)) 0) as [|_]; [lia|].
  f_equal; lia.
Qed.

(** The bytes of a phrase the bits of which are 33 for every 4 bytes. *)
Lemma nonhash_buffer_value (bin : string) (m : nat) :
  bit_string bin -> String.length bin = (33 * m)%nat ->
  Mnemonic.nonhash_buffer bin = Ok (bytes_of bin (4 * m)).
Proof.
  intros Hb Hl. unfold Mnemonic.nonhash_buffer. rewrite Hl.
  assert (E1 : Z.of_nat (33 * m) - (Z.of_nat (33 * m) + 32) / 33 = Z.of_nat (32 * m)).
  { assert ((Z.of_nat (33 * m) + 32) / 33 = Z.of_nat m); [|lia].
    symmetry. apply Z.div_unique with (r := 32); lia. }
  rewrite E1, slice_prefix by lia.
  rewrite length_substring by lia.
  assert (E2 : Z.to_nat (Z.of_nat (32 * m) / 8) = (4 * m)%nat).
  { assert (Z.of_nat (32 * m) / 8 = Z.of_nat (4 * m)); [|lia].
    symmetry. apply Z.div_unique with (r := 0); lia. }
  assert (E3 : Z.to_nat ((Z.of_nat (32 * m) + 7) / 8) = (4 * m)%nat).
  { assert ((Z.of_nat (32 * m) + 7) / 8 = Z.of_nat (4 * m)); [|lia].
    symmetry. apply Z.div_unique with (r := 7); lia. }
  rewrite E2, E3, write_bytes_map.
  - reflexivity.
  - exact Hb.
  - lia.
  - rewrite repeat_length. lia.
Qed.

Lemma bytes_of_length (bin : string) (n : nat) : List.length (bytes_of bin n) = n.
Proof. unfold bytes_of. now rewrite length_map, length_seq. Qed.

Lemma bytes_of_bits (entropy : list byte) (t : string) :
  bytes_of (flat (map byte8 entropy) ++ t) (List.length entropy) = entropy.
Proof.
  apply (nth_ext _ _ Byte.x00 Byte.x00); [apply bytes_of_length|].
  intros j Hj. rewrite bytes_of_length in Hj. unfold bytes_of.
  set (f := fun j => Buffer.byte_of_N _).
  rewrite (nth_indep _ Byte.x00 (f O)) by (now rewrite length_map, length_seq).
  rewrite map_nth, seq_nth by exact Hj. unfold f. cbn [Nat.add].
  destruct (nth_error entropy j) as [b|] eqn:E; [|apply nth_error_None in E; lia].
  rewrite chunk_append by (rewrite bytes8_length; lia).
  rewrite (bytes8_chunk _ _ _ E).
  destruct (byte8_bits b) as (_ & _ & ->). rewrite byte_of_to_N.
  symmetry. now apply nth_error_nth.
Qed.

Lemma words_of_length (wl : list string) (bin : string) (n : nat) :
  List.length (words_of wl bin n) = n.
Proof. unfold words_of. now rewrite length_map, length_seq. Qed.

Lemma words_of_known (wl : list string) (bin : string) (n : nat) :
  (2048 <= List.length wl)%nat -> bit_string bin -> (n * 11 <= String.length bin)%nat ->
  Forall (fun w => In w wl) (words_of wl bin n).
Proof.
  intros Hwl Hb Hl. unfold words_of. apply Forall_map, Forall_forall.
  intros j Hj. apply in_seq in Hj. apply nth_In.
  destruct (chunk_bits 11 bin j Hb) as (H1 & H2); [lia|].
  destruct (read_bits_spec (chunk 11 bin j) 0 H1) as (_ & Hlt).
  rewrite H2 in Hlt. change (2 ^ N.of_nat 11)%N with 2048%N in Hlt. lia.
Qed.

(** The bits of the words of [bin] are [bin] again. *)
Lemma words_of_bits (wl : list string) (bin : string) (n : nat) :
  NoDup wl -> (2048 <= List.length wl)%nat -> bit_string bin ->
  String.length bin = (n * 11)%nat ->
  flat (map (word11 wl) (words_of wl bin n)) = bin.
Proof.
  intros Hnd Hwl Hb Hl. unfold words_of. rewrite map_map.
  rewrite (map_ext_in _ (chunk 11 bin)).
  - rewrite flat_chunks, <- Hl. apply substring_whole.
  - intros j Hj. apply in_seq in Hj.
    destruct (chunk_bits 11 bin j Hb) as (H1 & H2); [lia|].
    destruct (read_bits_spec (chunk 11 bin j) 0 H1) as (_ & Hlt).
    rewrite H2 in Hlt. change (2 ^ N.of_nat 11)%N with 2048%N in Hlt.
    unfold word11. rewrite indexOf_nth by (auto; lia).
    set (x := Js.read_bits (chunk 11 bin j) 0).
    replace (Z.to_N (Z.of_nat (N.to_nat x))) with x by lia.
    subst x. apply pad_read_bits; [lia|exact H1|exact H2].
Qed.

Lemma known_no_blank (wl ws : list string) :
  Forall no_blank wl -> Forall (fun w => In w wl) ws -> Forall no_blank ws.
Proof.
  intros Hwl Hws. rewrite Forall_forall in *. intros w Hw. apply Hwl, Hws, Hw.
Qed.

(** The bits [isValid] and [toSeed] read off a phrase of known words. *)
Lemma phrase_bits (wl ws : list string) :
  ws <> [] -> Forall no_blank wl -> Forall (fun w => In w wl) ws ->
  Mnemonic.word_bits wl (Js.split " " (Js.join " " ws)) EmptyString
  = Some (flat (map (word11 wl) ws)).
Proof.
  intros Hne Hwl Hws. rewrite split_join by eauto using known_no_blank.
  now rewrite word_bits_flat.
Qed.

Lemma entropy_checksum_bits (entropy : list byte) (m : nat) :
  List.length entropy = (4 * m)%nat ->
  (4 * m <= List.length (Mnemonic.hash entropy))%nat ->
  exists checksum,
    Mnemonic._entropyChecksum entropy = Ok checksum
    /\ bit_string checksum /\ String.length checksum = m.
Proof.
  intros Hl Hh. eexists. split; [apply entropyChecksum_value; lia|].
  rewrite Hl. replace (4 * m / 4)%nat with m
    by (rewrite Nat.mul_comm, Nat.div_mul; lia).
  split.
  - apply bit_string_substring, bytes8_bits.
  - apply length_substring. rewrite bytes8_length, length_firstn. lia.
Qed.

(** The checks of [isValid] on bits that are 33 for every 4 bytes. *)
Lemma checks_value (bin : string) (m : nat) :
  (1 <= m)%nat -> bit_string bin -> String.length bin = (33 * m)%nat ->
  (let len := Z.of_nat (String.length bin) in
   let hash_bits := Js.slice_from bin (- (len / 33)) in
   let* buf := Mnemonic.nonhash_buffer bin in
   let* expected_hash_bits := Mnemonic._entropyChecksum buf in
   Ok (expected_hash_bits =? hash_bits)%string)
  = let* expected := Mnemonic._entropyChecksum (bytes_of bin (4 * m)) in
    Ok (expected =? substring (32 * m) m bin)%string.
Proof.
  intros Hm Hb Hl. cbv zeta. rewrite (nonhash_buffer_value bin m Hb Hl). cbn [bind].
  assert (E : Z.of_nat (String.length bin) / 33 = Z.of_nat m).
  { rewrite Hl. symmetry. apply Z.div_unique with (r := 0); lia. }
  rewrite E, slice_last by lia. rewrite Hl.
  replace (33 * m - m)%nat with (32 * m)%nat by lia. reflexivity.
Qed.

End MnemonicFacts.

Section EntropyRoundTrip.

Context `{Mnemonic.Env}.

Variable wl : list string.
Hypothesis wl_usable : usable wl.

(** The phrase of an entropy, and what [isValid] and [toSeed] make of it. *)
Lemma entropy_phrase (entropy : list byte) (m : nat) :
  (1 <= m)%nat -> List.length entropy = (4 * m)%nat ->
  (4 * m <= List.length (Mnemonic.hash entropy))%nat ->
  exists phrase,
    Mnemonic._entropy2mnemonic entropy (Some wl) = Ok phrase
    /\ List.length (Js.split " " phrase) = (3 * m)%nat
    /\ Mnemonic.isValid phrase (Some wl) = Ok true
    /\ Mnemonic.toSeed phrase (Some wl) = Ok entropy.
Proof.
  intros Hm Hl Hh. destruct wl_usable as (Hnd & Hsz & Hnb).
  destruct (entropy_checksum_bits entropy m Hl Hh) as (C & EC & HCb & HCl).
  set (bits := flat (map byte8 entropy)).
  assert (Hbl : String.length bits = (32 * m)%nat)
    by (unfold bits; rewrite bytes8_length; lia).
  set (bin := (bits ++ C)%string).
  assert (Hb : bit_string bin)
    by (apply bit_string_append; split; [apply bytes8_bits|exact HCb]).
  assert (Hlen : String.length bin = (33 * m)%nat)
    by (unfold bin; rewrite length_append; lia).
  set (ws := words_of wl bin (3 * m)).
  assert (Hws : Forall (fun w => In w wl) ws)
    by (apply words_of_known; auto; lia).
  assert (Hne : ws <> []).
  { intros E. pose proof (words_of_length wl bin (3 * m)) as Hn.
    fold ws in Hn. rewrite E in Hn. cbn in Hn. lia. }
  assert (Hbits : Mnemonic.word_bits wl (Js.split " " (Js.join " " ws)) EmptyString
                  = Some bin).
  { rewrite phrase_bits by assumption. f_equal.
    apply words_of_bits; auto. lia. }
  assert (Hseed : bytes_of bin (4 * m) = entropy)
    by (rewrite <- Hl; apply bytes_of_bits).
  exists (Js.join " " ws). repeat split.
  - unfold Mnemonic._entropy2mnemonic. rewrite byte_bits_flat, EC. cbn [bind append].
    fold bits. fold bin. rewrite Hlen.
    assert (E11 : Z.of_nat (33 * m) = Z.of_nat (3 * m) * 11) by lia.
    rewrite E11, Z.mod_mul, Z.div_mul by lia. cbn [Z.eqb negb].
    rewrite Nat2Z.id, bit_words_map by (auto; lia). reflexivity.
  - rewrite split_join by eauto using known_no_blank. apply words_of_length.
  - unfold Mnemonic.isValid. cbn [Mnemonic.wordlist_or_dictionary]. rewrite Hbits.
    rewrite (checks_value bin m Hm Hb Hlen), Hseed, EC. cbn [bind]. do 2 f_equal.
    apply String.eqb_eq. unfold bin.
    replace (32 * m)%nat with (String.length bits + 0)%nat by lia.
    rewrite substring_append_r, <- HCl. symmetry. apply substring_whole.
  - unfold Mnemonic.toSeed. cbn [Mnemonic.wordlist_or_dictionary]. rewrite Hbits.
    rewrite (nonhash_buffer_value bin m Hb Hlen). now rewrite Hseed.
Qed.

(** The phrase of an entropy of 4, 8, ... bytes, no longer than its
    hash, has three words for every four bytes; [isValid] accepts it and
    [toSeed] gives the entropy back. *)
Theorem entropy2mnemonic_roundtrip (entropy : list byte) (m : nat) :
  (1 <= m)%nat -> List.length entropy = (4 * m)%nat ->
  (4 * m <= List.length (Mnemonic.hash entropy))%nat ->
  exists phrase,
    Mnemonic._entropy2mnemonic entropy (Some wl) = Ok phrase
    /\ List.length (Js.split " " phrase) = (3 * m)%nat
    /\ Mnemonic.isValid phrase (Some wl) = Ok true
    /\ Mnemonic.toSeed phrase (Some wl) = Ok entropy.
Proof. exact (entropy_phrase entropy m). Qed.

End EntropyRoundTrip.

Section Rejection.

Context `{Mnemonic.Env} `{MnemonicApi.SeedCodec}.

Lemma forallb_false {A : Type} (f : A -> bool) (l : list A) :
  forallb f l = false -> exists x, In x l /\ f x = false.
Proof.
  induction l as [|a r IH]; cbn [forallb]; [discriminate|].
  destruct (f a) eqn:E; cbn [andb]; intros Hf.
  - destruct (IH Hf) as (x & Hx & Ex). exists x. split; [now right|exact Ex].
  - exists a. split; [now left|exact E].
Qed.

Lemma belongsToWordlist_iff (mnemonic : string) (wl : list string) :
  Mnemonic._belongsToWordlist mnemonic wl = true
  <-> known_words wl (Mnemonic.nfkd mnemonic).
Proof.
  unfold Mnemonic._belongsToWordlist, known_words.
  rewrite forallb_forall, Forall_forall. split; intros Hw w Hin.
  - specialize (Hw w Hin). apply negb_true_iff, Z.ltb_ge in Hw.
    destruct (in_dec string_dec w wl) as [Hi|Hn]; [exact Hi|].
    apply indexOf_missing in Hn. lia.
  - apply negb_true_iff, Z.ltb_ge. specialize (Hw w Hin).
    destruct (Z.ltb_spec (Js.indexOf wl w) 0) as [Hlt|Hge]; [|lia].
    apply indexOf_missing in Hlt. contradiction.
Qed.

(** A phrase with a word that is not in the word list: [isValid]
    answers false, [toSeed] and [getSeedFromMnemonic] throw. *)
Theorem unknown_word_rejected (phrase : string) (lang : option string)
    (wl : list string) (w : string) :
  MnemonicApi.wordlist lang = Some wl ->
  In w (Js.split " " phrase) -> ~ In w wl ->
  Mnemonic.isValid phrase (Some wl) = Ok false
  /\ Mnemonic.toSeed phrase (Some wl) = Throw "Invalid mnemonic phrase"
  /\ MnemonicApi.getSeedFromMnemonic phrase lang = Throw "Invalid mnemonic phrase".
Proof.
  intros Hlang Hin Hout.
  assert (Ev : Mnemonic.isValid phrase (Some wl) = Ok false).
  { unfold Mnemonic.isValid. cbn [Mnemonic.wordlist_or_dictionary].
    now rewrite (word_bits_unknown wl _ _ w Hin Hout). }
  repeat split.
  - exact Ev.
  - unfold Mnemonic.toSeed. cbn [Mnemonic.wordlist_or_dictionary].
    now rewrite (word_bits_unknown wl _ _ w Hin Hout).
  - unfold MnemonicApi.getSeedFromMnemonic. rewrite Hlang, Ev. reflexivity.
Qed.

(** What [_getDictionary] finds for a phrase is one of the word lists
    of [Words], and holds every word of the normalised phrase; it finds
    none only when every list lacks one of the words. *)
Theorem getDictionary_finds (mnemonic : string) :
  mnemonic <> EmptyString ->
  match Mnemonic._getDictionary (Some mnemonic) with
  | Some wl =>
      (exists key, In (key, wl) Mnemonic.Words)
      /\ known_words wl (Mnemonic.nfkd mnemonic)
  | None =>
      forall key wl, In (key, wl) Mnemonic.Words ->
        exists w, In w (Js.split " " (Mnemonic.nfkd mnemonic)) /\ ~ In w wl
  end.
Proof.
  intros Hne. unfold Mnemonic._getDictionary.
  destruct mnemonic as [|c r]; [congruence|].
  set (m := String c r).
  destruct (find _ Mnemonic.Words) as [[key wl]|] eqn:E; cbn [option_map snd].
  - apply find_some in E. destruct E as (Hin & Hb). cbn [snd] in Hb. split.
    + now exists key.
    + now apply belongsToWordlist_iff.
  - intros key wl Hin. pose proof (find_none _ _ E _ Hin) as Hb. cbn [snd] in Hb.
    unfold Mnemonic._belongsToWordlist in Hb.
    destruct (forallb_false _ _ Hb) as (w & Hw & Ew). exists w. split; [exact Hw|].
    apply negb_false_iff, Z.ltb_lt in Ew. now apply indexOf_missing.
Qed.

(** Without a word list, a phrase that no word list of [Words] holds
    all the normalised words of is not valid and has no seed; the
    constructor throws on it, when it is not empty and normalising it
    twice is normalising it once. *)
Theorem undetected_rejected (phrase : string) :
  (forall key wl, In (key, wl) Mnemonic.Words -> ~ known_words wl (Mnemonic.nfkd phrase)) ->
  Mnemonic.isValid phrase None = Ok false
  /\ Mnemonic.toSeed phrase None = Throw "Invalid mnemonic phrase"
  /\ (Mnemonic.nfkd phrase <> EmptyString ->
      Mnemonic.nfkd (Mnemonic.nfkd phrase) = Mnemonic.nfkd phrase ->
      Mnemonic.constructor (Mnemonic.DString phrase) None
      = Throw ("Could not detect the used word list: " ++ Mnemonic.nfkd phrase)).
Proof.
  intros Hno.
  assert (Ed : forall m, Mnemonic.nfkd m = Mnemonic.nfkd phrase ->
                         Mnemonic._getDictionary (Some m) = None).
  { intros m Em. unfold Mnemonic._getDictionary. destruct m as [|c r]; [reflexivity|].
    destruct (find _ Mnemonic.Words) as [[key wl]|] eqn:E; [|reflexivity].
    apply find_some in E. destruct E as (Hin & Hb). cbn [snd] in Hb.
    apply belongsToWordlist_iff in Hb. rewrite Em in Hb.
    now destruct (Hno key wl Hin). }
  repeat split.
  - unfold Mnemonic.isValid. cbn [Mnemonic.wordlist_or_dictionary].
    now rewrite Ed.
  - unfold Mnemonic.toSeed. cbn [Mnemonic.wordlist_or_dictionary].
    now rewrite Ed.
  - intros Hne Hidem. unfold Mnemonic.constructor. cbn [bind].
    cbn [Mnemonic.wordlist_or_dictionary]. rewrite (Ed _ Hidem).
    destruct (Mnemonic.nfkd phrase) as [|c r]; [congruence|]. reflexivity.
Qed.

End Rejection.

Section PhraseFacts.

Context `{Mnemonic.Env}.

Lemma pad_length (w : nat) (s : string) :
  (1 <= w)%nat -> String.length (Js.pad w s) = w.
Proof.
  intros Hw. unfold Js.pad.
  set (z := (string_of_list_ascii (repeat "0"%char w) ++ s)%string).
  assert (Hz : (w <= String.length z)%nat).
  { unfold z.
    rewrite length_append, <- la_length, list_ascii_of_string_of_list_ascii, repeat_length.
    lia. }
  rewrite slice_last by lia. apply length_substring. lia.
Qed.

Lemma word11_length (wl : list string) (w : string) :
  String.length (word11 wl w) = 11%nat.
Proof. apply pad_length. lia. Qed.

Lemma words11_length (wl ws : list string) :
  String.length (flat (map (word11 wl) ws)) = (List.length ws * 11)%nat.
Proof.
  rewrite (flat_length 11), length_map; [reflexivity|].
  apply Forall_map, Forall_forall. intros w _. apply word11_length.
Qed.

Lemma word11_bits (wl : list string) (w : string) :
  (List.length wl <= 2048)%nat -> In w wl ->
  bit_string (word11 wl w)
  /\ nth (N.to_nat (Js.read_bits (word11 wl w) 0)) wl EmptyString = w.
Proof.
  intros Hsz Hin. pose proof (indexOf_range wl w) as Hr.
  assert (Hge : 0 <= Js.indexOf wl w).
  { destruct (Z.ltb_spec (Js.indexOf wl w) 0) as [Hlt|]; [|assumption].
    apply indexOf_missing in Hlt. contradiction. }
  destruct (pad_bits 11 (Z.to_N (Js.indexOf wl w))) as (H1 & _ & H3 & _); [lia| |].
  { change (2 ^ N.of_nat 11)%N with 2048%N. lia. }
  unfold word11. split; [exact H1|]. rewrite H3.
  replace (N.to_nat (Z.to_N (Js.indexOf wl w))) with (Z.to_nat (Js.indexOf wl w)) by lia.
  now apply indexOf_found.
Qed.

Lemma words11_bits (wl ws : list string) :
  (List.length wl <= 2048)%nat -> Forall (fun w => In w wl) ws ->
  bit_string (flat (map (word11 wl) ws)).
Proof.
  intros Hsz Hws. apply flat_bits, Forall_map. rewrite Forall_forall in *.
  intros w Hw. now apply word11_bits, Hws.
Qed.

(** The words of the bits of known words are the words. *)
Lemma words_of_words11 (wl ws : list string) (t : string) :
  (List.length wl <= 2048)%nat -> Forall (fun w => In w wl) ws ->
  words_of wl (flat (map (word11 wl) ws)) (List.length ws) = ws.
Proof.
  intros Hsz Hws. apply (nth_ext _ _ EmptyString EmptyString); [apply words_of_length|].
  intros j Hj. rewrite words_of_length in Hj. unfold words_of.
  set (f := fun j => nth _ wl EmptyString).
  rewrite (nth_indep _ EmptyString (f O)) by (now rewrite length_map, length_seq).
  rewrite map_nth, seq_nth by exact Hj. unfold f. cbn [Nat.add].
  rewrite chunk_flat.
  - rewrite (nth_indep (map (word11 wl) ws) EmptyString (word11 wl EmptyString))
      by (now rewrite length_map).
    rewrite map_nth. apply word11_bits; [exact Hsz|].
    rewrite Forall_forall in Hws. now apply Hws, nth_In.
  - apply Forall_map, Forall_forall. intros w _. apply word11_length.
  - now rewrite length_map.
Qed.

Lemma word_bits_known (wl words : list string) (acc bin : string) :
  Mnemonic.word_bits wl words acc = Some bin -> Forall (fun w => In w wl) words.
Proof.
  revert acc. induction words as [|w r IH]; intros acc E; [constructor|].
  cbn [Mnemonic.word_bits] in E.
  destruct (Z.ltb_spec (Js.indexOf wl w) 0) as [|Hge]; [discriminate|].
  constructor; [|now apply IH in E].
  destruct (in_dec string_dec w wl) as [Hi|Hn]; [exact Hi|].
  apply indexOf_missing in Hn. lia.
Qed.

Lemma split_nonempty (c : ascii) (s : string) : Js.split c s <> [].
Proof.
  destruct s as [|a r]; cbn [Js.split]; [discriminate|].
  destruct (a =? c)%char; [discriminate|]. destruct (Js.split c r); discriminate.
Qed.

Lemma join_split (s : string) : Js.join " " (Js.split " " s) = s.
Proof.
  induction s as [|a r IH]; [reflexivity|]. cbn [Js.split].
  destruct (Ascii.eqb_spec a " ") as [->|Hne].
  - pose proof (split_nonempty " " r) as Hr.
    destruct (Js.split " " r) as [|w ws] eqn:E; [congruence|].
    change (Js.join " " (EmptyString :: w :: ws))
      with (String " " (Js.join " " (w :: ws))).
    now rewrite IH.
  - pose proof (split_nonempty " " r) as Hr.
    destruct (Js.split " " r) as [|w ws] eqn:E; [congruence|].
    rewrite <- IH. destruct ws; reflexivity.
Qed.

(** The buffer has room for the bytes only when the words come in threes. *)
Lemma nonhash_buffer_overflow (bin : string) (n : nat) :
  String.length bin = (n * 11)%nat -> (n mod 3 <> 0)%nat ->
  fails (Mnemonic.nonhash_buffer bin).
Proof.
  intros Hl Hn. unfold Mnemonic.nonhash_buffer.
  set (len := Z.of_nat (String.length bin)).
  set (q := Z.of_nat (n / 3)). set (r := Z.of_nat (n mod 3)).
  assert (Hq : len = 33 * q + 11 * r).
  { unfold len, q, r. rewrite Hl. pose proof (Nat.div_mod_eq n 3). lia. }
  assert (Hr : r = 1 \/ r = 2).
  { unfold r. pose proof (Nat.mod_upper_bound n 3). lia. }
  assert (Hq0 : 0 <= q) by (unfold q; lia).
  assert (Ec : (len + 32) / 33 = q + 1).
  { symmetry. apply Z.div_unique with (r := 11 * r - 1); lia. }
  rewrite Ec.
  replace (len - (q + 1)) with (Z.of_nat (Z.to_nat (32 * q + 11 * r - 1))) by lia.
  rewrite slice_prefix by lia. rewrite length_substring by lia.
  rewrite Z2Nat.id by lia.
  apply write_bytes_overflow; rewrite ?repeat_length.
  - cbn [Nat.add]. apply Z2Nat.inj_lt; [| |].
    + apply Z.div_pos; lia.
    + apply Z.div_pos; lia.
    + clear - Hr Hq0. destruct Hr as [-> | ->]; Z.div_mod_to_equations; lia.
  - apply Z2Nat.inj_lt with (n := 0); [lia| |].
    + apply Z.div_pos; lia.
    + apply Z.div_str_pos. lia.
Qed.

End PhraseFacts.

Section PhraseRoundTrip.

Context `{Mnemonic.Env} `{MnemonicApi.SeedCodec}.

Lemma to_N_byte_of_N (x : N) : (x < 256)%N -> Byte.to_N (Buffer.byte_of_N x) = x.
Proof.
  intros Hx. destruct (Byte.of_N x) as [b|] eqn:E.
  - apply Byte.to_of_N in E. rewrite <- E at 1. now rewrite byte_of_to_N.
  - apply Byte.of_N_None_iff in E. lia.
Qed.

(** The bits of the bytes of [bin] are [bin] again. *)
Lemma bytes8_bytes_of (bin : string) (k : nat) :
  bit_string bin -> (k * 8 <= String.length bin)%nat ->
  flat (map byte8 (bytes_of bin k)) = substring 0 (k * 8) bin.
Proof.
  intros Hb Hl. unfold bytes_of. rewrite map_map.
  rewrite (map_ext_in _ (chunk 8 bin)); [apply flat_chunks|].
  intros j Hj. apply in_seq in Hj.
  destruct (chunk_bits 8 bin j Hb) as (H1 & H2); [lia|].
  destruct (read_bits_spec (chunk 8 bin j) 0 H1) as (_ & Hlt).
  rewrite H2 in Hlt. change (2 ^ N.of_nat 8)%N with 256%N in Hlt.
  unfold byte8. rewrite to_N_byte_of_N by exact Hlt.
  apply pad_read_bits; [lia|exact H1|exact H2].
Qed.

Lemma fails_not_Ok {A : Type} (r : Result A) (a : A) : fails r -> r <> Ok a.
Proof. intros [msg ->]. discriminate. Qed.

(** What [isValid] has checked when it answers true. *)
Lemma valid_phrase_seed (phrase : string) (wl : list string) :
  (List.length wl <= 2048)%nat ->
  Mnemonic.isValid phrase (Some wl) = Ok true ->
  exists (seed : list byte) (m : nat),
    (1 <= m)%nat
    /\ List.length (Js.split " " phrase) = (3 * m)%nat
    /\ List.length seed = (4 * m)%nat
    /\ Mnemonic.toSeed phrase (Some wl) = Ok seed
    /\ Mnemonic._entropy2mnemonic seed (Some wl) = Ok phrase.
Proof.
  intros Hsz Hv. unfold Mnemonic.isValid in Hv.
  cbn [Mnemonic.wordlist_or_dictionary] in Hv.
  destruct (Mnemonic.word_bits wl _ EmptyString) as [bin|] eqn:Eb; [|discriminate].
  set (ws := Js.split " " phrase) in *.
  pose proof (word_bits_known _ _ _ _ Eb) as Hws.
  rewrite word_bits_flat in Eb by exact Hws. cbn [append] in Eb.
  injection Eb as Ebin.
  assert (Hb : bit_string bin) by (rewrite <- Ebin; now apply words11_bits).
  assert (Hl : String.length bin = (List.length ws * 11)%nat)
    by (rewrite <- Ebin; apply words11_length).
  destruct (Nat.eq_dec (List.length ws mod 3) 0) as [H3|H3].
  2:{ destruct (nonhash_buffer_overflow bin _ Hl H3) as (msg & Em).
      cbv zeta in Hv. rewrite Em in Hv. discriminate. }
  set (m := (List.length ws / 3)%nat).
  assert (Hn : List.length ws = (3 * m)%nat).
  { unfold m. pose proof (Nat.div_mod_eq (List.length ws) 3). lia. }
  assert (Hm : (1 <= m)%nat).
  { pose proof (split_nonempty " " phrase) as Hne. fold ws in Hne.
    destruct ws; [congruence|]. cbn [List.length] in Hn. lia. }
  assert (Hlen : String.length bin = (33 * m)%nat) by lia.
  rewrite (checks_value bin m Hm Hb Hlen) in Hv.
  destruct (Mnemonic._entropyChecksum (bytes_of bin (4 * m))) as [C|] eqn:EC;
    [|discriminate].
  cbn [bind] in Hv. injection Hv as HC. apply String.eqb_eq in HC.
  change (C = substring (32 * m) m bin) in HC.
  exists (bytes_of bin (4 * m)), m. repeat split.
  - exact Hm.
  - exact Hn.
  - apply bytes_of_length.
  - unfold Mnemonic.toSeed. cbn [Mnemonic.wordlist_or_dictionary]. fold ws.
    rewrite word_bits_flat by exact Hws. cbn [append]. rewrite Ebin.
    apply nonhash_buffer_value; assumption.
  - unfold Mnemonic._entropy2mnemonic. rewrite byte_bits_flat, EC. cbn [bind append].
    rewrite bytes8_bytes_of by (auto; lia). rewrite HC.
    replace (4 * m * 8)%nat with (32 * m)%nat by lia.
    assert (Es : (substring 0 (32 * m) bin ++ substring (32 * m) m bin)%string = bin).
    { pose proof (substring_split bin (32 * m)) as Es.
      replace (String.length bin - 32 * m)%nat with m in Es by lia.
      apply Es. lia. }
    rewrite Es, Hlen.
    assert (E11 : Z.of_nat (33 * m) = Z.of_nat (3 * m) * 11) by lia.
    rewrite E11, Z.mod_mul, Z.div_mul by lia. cbn [Z.eqb negb].
    rewrite Nat2Z.id, bit_words_map by (auto; lia).
    change (map _ (seq 0 (3 * m))) with (words_of wl bin (3 * m)).
    rewrite <- Hn, <- Ebin, words_of_words11 by assumption.
    unfold ws. now rewrite join_split.
Qed.

(** A phrase [isValid] accepts comes in threes of words, its seed has
    four bytes for every three words, and the phrase of the seed is the
    phrase. *)
Theorem valid_phrase_roundtrip (phrase : string) (wl : list string) :
  (List.length wl <= 2048)%nat ->
  Mnemonic.isValid phrase (Some wl) = Ok true ->
  exists seed,
    Mnemonic.toSeed phrase (Some wl) = Ok seed
    /\ 3 * Z.of_nat (List.length seed) = 4 * Z.of_nat (List.length (Js.split " " phrase))
    /\ Mnemonic._entropy2mnemonic seed (Some wl) = Ok phrase.
Proof.
  intros Hsz Hv.
  destruct (valid_phrase_seed phrase wl Hsz Hv) as (seed & m & _ & Hn & Hs & Et & Ee).
  exists seed. repeat split; [exact Et|lia|exact Ee].
Qed.

(** On a phrase of known words, [toSeed] returns a seed of four bytes
    for every three words when the words come in threes; when they do not,
    [toSeed] and [isValid] throw. *)
Theorem toSeed_words_in_threes (phrase : string) (wl : list string) :
  (List.length wl <= 2048)%nat -> known_words wl phrase ->
  let n := List.length (Js.split " " phrase) in
  ((n mod 3 = 0)%nat ->
   exists seed, Mnemonic.toSeed phrase (Some wl) = Ok seed
     /\ 3 * Z.of_nat (List.length seed) = 4 * Z.of_nat n)
  /\ ((n mod 3 <> 0)%nat ->
      fails (Mnemonic.toSeed phrase (Some wl))
      /\ fails (Mnemonic.isValid phrase (Some wl))).
Proof.
  intros Hsz Hws n. unfold known_words in Hws.
  set (bin := flat (map (word11 wl) (Js.split " " phrase))).
  assert (Eb : Mnemonic.word_bits wl (Js.split " " phrase) EmptyString = Some bin)
    by (now rewrite word_bits_flat).
  assert (Hb : bit_string bin) by (now apply words11_bits).
  assert (Hl : String.length bin = (n * 11)%nat) by apply words11_length.
  unfold Mnemonic.toSeed, Mnemonic.isValid. cbn [Mnemonic.wordlist_or_dictionary].
  rewrite Eb. split.
  - intros H3. pose proof (Nat.div_mod_eq n 3) as Hn.
    exists (bytes_of bin (4 * (n / 3))). split.
    + apply nonhash_buffer_value; [exact Hb|lia].
    + rewrite bytes_of_length. lia.
  - intros H3. destruct (nonhash_buffer_overflow bin n Hl H3) as (msg & Em). split.
    + now exists msg.
    + exists msg. cbv zeta. now rewrite Em.
Qed.

Lemma constructor_buffer (raw : list byte) (wl : list string) (phrase : string) :
  Mnemonic._entropy2mnemonic raw (Some wl) = Ok phrase ->
  Mnemonic.isValid phrase (Some wl) = Ok true ->
  Mnemonic.constructor (Mnemonic.DBuffer raw) (Some wl)
  = Ok {| Mnemonic.wordlist := Some wl; Mnemonic.phrase := Some phrase |}.
Proof.
  intros Ee Ev. unfold Mnemonic.constructor. cbn [bind].
  cbn [Mnemonic.wordlist_or_dictionary andb]. rewrite Ee. cbn [bind].
  destruct phrase as [|c r]; [reflexivity|]. rewrite Ev. reflexivity.
Qed.

(** From bytes to a phrase and back: [getMnemonic] on random bytes and
    [getMnemonicFromSeed] on a text that decodes to the same bytes return
    the same phrase, and [getSeedFromMnemonic] of the phrase is the encoding
    of the bytes. *)
Theorem seed_phrase_roundtrip (raw : list byte) (lang : option string)
    (wl : list string) (m : nat) :
  MnemonicApi.wordlist lang = Some wl -> usable wl ->
  (1 <= m)%nat -> List.length raw = (4 * m)%nat ->
  (4 * m <= List.length (Mnemonic.hash raw))%nat ->
  exists phrase,
    MnemonicApi.getMnemonic raw lang = Ok (Some phrase)
    /\ (forall seed, MnemonicApi.decodeSeed seed = Ok raw ->
          MnemonicApi.getMnemonicFromSeed seed lang = Ok (Some phrase))
    /\ MnemonicApi.getSeedFromMnemonic phrase lang = Ok (MnemonicApi.encodeSeed raw).
Proof.
  intros Hlang Hwl Hm Hl Hh.
  destruct (entropy_phrase wl Hwl raw m Hm Hl Hh) as (phrase & Ee & _ & Ev & Et).
  pose proof (constructor_buffer raw wl phrase Ee Ev) as Ec.
  exists phrase. repeat split.
  - unfold MnemonicApi.getMnemonic. rewrite Hlang, Ec. reflexivity.
  - intros seed Ed. unfold MnemonicApi.getMnemonicFromSeed.
    rewrite Ed. cbn [bind]. rewrite Hlang, Ec. reflexivity.
  - unfold MnemonicApi.getSeedFromMnemonic. rewrite Hlang, Ev. cbn [bind guard].
    rewrite Et. reflexivity.
Qed.

(** From a phrase to a seed and back: the text [getSeedFromMnemonic]
    returns for a phrase is one [getMnemonicFromSeed] returns the phrase
    for, when decoding undoes encoding. *)
Theorem phrase_seed_roundtrip (phrase seed : string) (lang : option string)
    (wl : list string) :
  MnemonicApi.wordlist lang = Some wl -> (List.length wl <= 2048)%nat ->
  seed_codec_inverse ->
  MnemonicApi.getSeedFromMnemonic phrase lang = Ok seed ->
  MnemonicApi.getMnemonicFromSeed seed lang = Ok (Some phrase).
Proof.
  intros Hlang Hsz Hinv Hs. unfold MnemonicApi.getSeedFromMnemonic in Hs.
  rewrite Hlang in Hs.
  apply bind_Ok in Hs. destruct Hs as (ok & Ev & Hs).
  apply bind_Ok in Hs. destruct Hs as (u & Eg & Hs).
  apply guard_Ok in Eg. subst ok.
  apply bind_Ok in Hs. destruct Hs as (raw & Et & Hs).
  injection Hs as <-.
  destruct (valid_phrase_seed phrase wl Hsz Ev) as (raw' & m & _ & _ & _ & Et' & Ee).
  assert (raw' = raw) by congruence. subst raw'.
  unfold MnemonicApi.getMnemonicFromSeed. rewrite Hinv. cbn [bind]. rewrite Hlang.
  rewrite (constructor_buffer raw wl phrase Ee Ev). reflexivity.
Qed.

End PhraseRoundTrip.

Section EntropyLength.

Context `{Mnemonic.Env}.

(** [_entropy2mnemonic] on an entropy no longer than its hash returns
    a phrase when the entropy has a multiple of four bytes, and throws its
    error on the length, with the bits in it, when it has not. *)
Theorem entropy2mnemonic_length (entropy : list byte) (wl : list string) :
  (List.length entropy <= List.length (Mnemonic.hash entropy))%nat ->
  ((List.length entropy mod 4 = 0)%nat ->
   succeeds (Mnemonic._entropy2mnemonic entropy (Some wl)))
  /\ ((List.length entropy mod 4 <> 0)%nat ->
      exists bin,
        Mnemonic._entropy2mnemonic entropy (Some wl)
        = Throw ("Entropy length must be an even multiple of 11 bits: " ++ bin)).
Proof.
  intros Hh. unfold Mnemonic._entropy2mnemonic.
  rewrite byte_bits_flat, entropyChecksum_value by exact Hh. cbn [bind append].
  set (k := List.length entropy).
  set (bin := (_ ++ _)%string).
  assert (Hk : (k / 4 <= k * 8)%nat).
  { assert (k / 4 <= k)%nat by (apply Nat.Div0.div_le_upper_bound; lia). lia. }
  assert (Hlen : String.length bin = (k * 8 + k / 4)%nat).
  { unfold bin. rewrite length_append, bytes8_length, length_substring; [reflexivity|].
    rewrite bytes8_length, length_firstn. fold k. lia. }
  rewrite Hlen. pose proof (Nat.div_mod_eq k 4) as Hd.
  pose proof (Nat.mod_upper_bound k 4) as Hu.
  assert (Hz : Z.of_nat (k * 8 + k / 4)
               = Z.of_nat (3 * (k / 4)) * 11 + 8 * Z.of_nat (k mod 4)) by lia.
  rewrite Hz. split; intros Hr.
  - rewrite Hr. cbn [Z.of_nat Z.mul]. rewrite Z.add_0_r, Z.mod_mul by lia.
    cbn [Z.eqb negb]. eexists. reflexivity.
  - assert (Ene : (Z.of_nat (3 * (k / 4)) * 11 + 8 * Z.of_nat (k mod 4)) mod 11 <> 0).
    { rewrite Z.add_comm, Z.mod_add by lia.
      assert (Z.of_nat (k mod 4) = 1 \/ Z.of_nat (k mod 4) = 2 \/ Z.of_nat (k mod 4) = 3)
        as [-> | [-> | ->]] by lia; cbv; discriminate. }
    apply Z.eqb_neq in Ene. rewrite Ene. cbn [negb]. now exists bin.
Qed.

End EntropyLength.

(** ** The small environment *)

Lemma toString2_read (n : N) : Js.read_bits (Js.toString2 n) 0 = n.
Proof. destruct n as [|p]; [reflexivity|]. apply pos_toString2_bits. Qed.

Lemma toString2_bit_string (n : N) : bit_string (Js.toString2 n).
Proof.
  destruct n as [|p]; [|apply pos_toString2_bits].
  apply bit_string_cons. split; [now left|constructor].
Qed.

Lemma sample_word_inj (a b : nat) : Sample.word a = Sample.word b -> a = b.
Proof.
  unfold Sample.word. intros E. injection E as E.
  apply (f_equal (fun s => Js.read_bits s 0)) in E. rewrite !toString2_read in E. lia.
Qed.

Lemma sample_word_known (n : nat) : (n < 2048)%nat -> In (Sample.word n) Sample.words.
Proof. intros Hn. apply in_map, in_seq. lia. Qed.

Lemma sample_word_only (w : string) :
  In w Sample.words -> exists n, w = Sample.word n.
Proof. intros Hin. apply in_map_iff in Hin. destruct Hin as (n & <- & _). now exists n. Qed.

Lemma sample_words_length : List.length Sample.words = 2048%nat.
Proof. unfold Sample.words. now rewrite length_map, length_seq. Qed.

Lemma NoDup_map_injective {A B : Type} (f : A -> B) (l : list A) :
  (forall a b, f a = f b -> a = b) -> NoDup l -> NoDup (map f l).
Proof.
  intros Hf Hl. induction Hl as [|x l Hx _ IH]; cbn [map]; constructor; [|exact IH].
  intros Hin. apply in_map_iff in Hin. destruct Hin as (y & Ey & Hy).
  apply Hf in Ey. now subst y.
Qed.

Lemma sample_words_usable : usable Sample.words.
Proof.
  split; [|split].
  - apply NoDup_map_injective; [apply sample_word_inj|apply seq_NoDup].
  - rewrite sample_words_length. lia.
  - apply Forall_forall. intros w Hin. destruct (sample_word_only w Hin) as (n & ->).
    unfold no_blank, Sample.word. cbn [list_ascii_of_string]. intros [E|Hin'].
    + discriminate.
    + pose proof (toString2_bit_string (N.of_nat n)) as Hb. unfold bit_string in Hb.
      rewrite Forall_forall in Hb. destruct (Hb _ Hin'); discriminate.
Qed.

Lemma sample_seeds_inverse : @seed_codec_inverse Sample.seeds.
Proof.
  intros raw.
  change (Ok (list_byte_of_string (string_of_list_byte raw)) = Ok raw).
  now rewrite list_byte_of_string_of_list_byte.
Qed.

Lemma entropy2mnemonic_roundtrip_witness :
  exists phrase,
    @Mnemonic._entropy2mnemonic Sample.env Sample.entropy (Some Sample.words) = Ok phrase
    /\ List.length (Js.split " " phrase) = (3 * 1)%nat
    /\ @Mnemonic.isValid Sample.env phrase (Some Sample.words) = Ok true
    /\ @Mnemonic.toSeed Sample.env phrase (Some Sample.words) = Ok Sample.entropy.
Proof.
  apply (@entropy2mnemonic_roundtrip Sample.env Sample.words sample_words_usable
           Sample.entropy 1).
  - lia.
  - reflexivity.
  - vm_compute. lia.
Defined.

Lemma sample_unknown : ~ In "zz" Sample.words.
Proof. intros Hin. destruct (sample_word_only _ Hin) as (n & E). discriminate. Qed.

Lemma unknown_word_rejected_witness :
  @Mnemonic.isValid Sample.env "w0 zz w1" (Some Sample.words) = Ok false
  /\ @Mnemonic.toSeed Sample.env "w0 zz w1" (Some Sample.words)
     = Throw "Invalid mnemonic phrase"
  /\ @MnemonicApi.getSeedFromMnemonic Sample.env Sample.seeds "w0 zz w1" None
     = Throw "Invalid mnemonic phrase".
Proof.
  apply (@unknown_word_rejected Sample.env Sample.seeds "w0 zz w1" None Sample.words "zz").
  - reflexivity.
  - cbn. tauto.
  - exact sample_unknown.
Defined.

Lemma getDictionary_finds_witness :
  match @Mnemonic._getDictionary Sample.env (Some Sample.phrase) with
  | Some wl =>
      (exists key, In (key, wl) (@Mnemonic.Words Sample.env))
      /\ known_words wl (@Mnemonic.nfkd Sample.env Sample.phrase)
  | None =>
      forall key wl, In (key, wl) (@Mnemonic.Words Sample.env) ->
        exists w, In w (Js.split " " (@Mnemonic.nfkd Sample.env Sample.phrase))
                  /\ ~ In w wl
  end.
Proof.
  apply (@getDictionary_finds Sample.env Sample.phrase). discriminate.
Defined.

Lemma sample_undetected (key : string) (wl : list string) :
  In (key, wl) (@Mnemonic.Words Sample.env) ->
  ~ known_words wl (@Mnemonic.nfkd Sample.env "w0 zz w1").
Proof.
  intros [E|[]]. injection E as _ <-. unfold known_words.
  change (Js.split " " (@Mnemonic.nfkd Sample.env "w0 zz w1")) with ["w0"; "zz"; "w1"].
  intros Hk. apply Forall_inv_tail, Forall_inv in Hk. exact (sample_unknown Hk).
Qed.

Lemma undetected_rejected_witness :
  @Mnemonic.isValid Sample.env "w0 zz w1" None = Ok false
  /\ @Mnemonic.toSeed Sample.env "w0 zz w1" None = Throw "Invalid mnemonic phrase"
  /\ (@Mnemonic.nfkd Sample.env "w0 zz w1" <> EmptyString ->
      @Mnemonic.nfkd Sample.env (@Mnemonic.nfkd Sample.env "w0 zz w1")
      = @Mnemonic.nfkd Sample.env "w0 zz w1" ->
      @Mnemonic.constructor Sample.env (Mnemonic.DString "w0 zz w1") None
      = Throw ("Could not detect the used word list: "
               ++ @Mnemonic.nfkd Sample.env "w0 zz w1")).
Proof.
  apply (@undetected_rejected Sample.env "w0 zz w1"). exact sample_undetected.
Defined.

Lemma sample_phrase_valid :
  @Mnemonic.isValid Sample.env Sample.phrase (Some Sample.words) = Ok true.
Proof. vm_compute. reflexivity. Qed.

Lemma valid_phrase_roundtrip_witness :
  exists seed,
    @Mnemonic.toSeed Sample.env Sample.phrase (Some Sample.words) = Ok seed
    /\ 3 * Z.of_nat (List.length seed)
       = 4 * Z.of_nat (List.length (Js.split " " Sample.phrase))
    /\ @Mnemonic._entropy2mnemonic Sample.env seed (Some Sample.words) = Ok Sample.phrase.
Proof.
  apply (@valid_phrase_roundtrip Sample.env Sample.phrase Sample.words).
  - rewrite sample_words_length. lia.
  - exact sample_phrase_valid.
Defined.

Lemma sample_known : known_words Sample.words "w0 w1".
Proof.
  unfold known_words. change (Js.split " " "w0 w1") with ["w0"; "w1"].
  constructor; [|constructor; [|constructor]].
  - apply (sample_word_known 0). lia.
  - apply (sample_word_known 1). lia.
Qed.

Lemma toSeed_words_in_threes_witness :
  let n := List.length (Js.split " " "w0 w1") in
  ((n mod 3 = 0)%nat ->
   exists seed, @Mnemonic.toSeed Sample.env "w0 w1" (Some Sample.words) = Ok seed
     /\ 3 * Z.of_nat (List.length seed) = 4 * Z.of_nat n)
  /\ ((n mod 3 <> 0)%nat ->
      fails (@Mnemonic.toSeed Sample.env "w0 w1" (Some Sample.words))
      /\ fails (@Mnemonic.isValid Sample.env "w0 w1" (Some Sample.words))).
Proof.
  apply (@toSeed_words_in_threes Sample.env "w0 w1" Sample.words).
  - rewrite sample_words_length. lia.
  - exact sample_known.
Defined.

Lemma seed_phrase_roundtrip_witness :
  exists phrase,
    @MnemonicApi.getMnemonic Sample.env Sample.entropy None = Ok (Some phrase)
    /\ (forall seed, @MnemonicApi.decodeSeed Sample.seeds seed = Ok Sample.entropy ->
          @MnemonicApi.getMnemonicFromSeed Sample.env Sample.seeds seed None
          = Ok (Some phrase))
    /\ @MnemonicApi.getSeedFromMnemonic Sample.env Sample.seeds phrase None
       = Ok (@MnemonicApi.encodeSeed Sample.seeds Sample.entropy).
Proof.
  apply (@seed_phrase_roundtrip Sample.env Sample.seeds Sample.entropy None
           Sample.words 1).
  - reflexivity.
  - exact sample_words_usable.
  - lia.
  - reflexivity.
  - vm_compute. lia.
Defined.

Lemma sample_phrase_seed :
  @MnemonicApi.getSeedFromMnemonic Sample.env Sample.seeds Sample.phrase None
  = Ok (string_of_list_byte Sample.entropy).
Proof. vm_compute. reflexivity. Qed.

Lemma phrase_seed_roundtrip_witness :
  @MnemonicApi.getMnemonicFromSeed Sample.env Sample.seeds
    (string_of_list_byte Sample.entropy) None
  = Ok (Some Sample.phrase).
Proof.
  apply (@phrase_seed_roundtrip Sample.env Sample.seeds Sample.phrase
           (string_of_list_byte Sample.entropy) None Sample.words).
  - reflexivity.
  - rewrite sample_words_length. lia.
  - exact sample_seeds_inverse.
  - exact sample_phrase_seed.
Defined.

Lemma entropy2mnemonic_length_witness :
  ((List.length [Byte.x01; Byte.x02] mod 4 = 0)%nat ->
   succeeds (@Mnemonic._entropy2mnemonic Sample.env [Byte.x01; Byte.x02]
               (Some Sample.words)))
  /\ ((List.length [Byte.x01; Byte.x02] mod 4 <> 0)%nat ->
      exists bin,
        @Mnemonic._entropy2mnemonic Sample.env [Byte.x01; Byte.x02] (Some Sample.words)
        = Throw ("Entropy length must be an even multiple of 11 bits: " ++ bin)).
Proof.
  apply (@entropy2mnemonic_length Sample.env [Byte.x01; Byte.x02] Sample.words).
  vm_compute. lia.
Defined.
